(** * A shallow embedding of [lesson-1/index.ts]: the [Currency] value type

    The file follows the source top to bottom: the numeric primitives the
    module calls ([Math.round], [Math.pow], [toFixed], unary [+], [~~],
    [%]), the string pipeline of [parse], the [Currency] class over an
    explicit object store, and then the properties of the specification.

    Numbers.  A JavaScript number is a binary64 value, modelled by [num]:
    [NaN], the two infinities, the negative zero, or a finite value
    carried as a rational in lowest terms.  Every operation computes the
    real result and rounds it to the nearest value of the format, a tie
    going to the even significand ([binary64]); overflow gives an
    infinity and underflow a subnormal or a zero.  [Math.pow] and the
    reading of a decimal literal are taken as correctly rounded, which
    the language leaves to the implementation for powers that are not
    exact and for literals of more than 20 digits.

    Strings.  A JavaScript string is a [string] of 8-bit characters, read
    as the code units 0 to 255.

    Configuration.  [precision] is an integer and [decimal] a single
    character, as every use in the module expects.

    Objects.  Instances and settings objects live in a store and are
    referred to by location; a method is a function from stores to an
    outcome and a store.  The loop of [distribute] runs on fuel. *)

From Stdlib Require Import NArith ZArith QArith Qround Qabs Qpower Qreduction Lia Lqa Bool.
From Stdlib Require Import Decimal DecimalString.
From Stdlib Require DecimalFacts DecimalPos DecimalN DecimalZ.
From Stdlib Require Import Ascii String List.
Import ListNotations.

Local Open Scope Z_scope.

(** ** Numbers *)

(** A Number: [NaN], the two infinities, the negative zero [NZero], or a
    finite value other than the negative zero, carried as a rational;
    [Fin 0] is the positive zero. *)
Inductive num : Type :=
| NaN
| PInf
| NInf
| NZero
| Fin (q : Q).

(** Finite results are kept in lowest terms, so that equal numbers are
    equal terms. *)
Definition fin (q : Q) : num := Fin (Qred q).

Definition of_Z (z : Z) : num := Fin (inject_Z z).

Definition Qis_zero (q : Q) : bool := Z.eqb (Qnum q) 0.
Definition Qis_neg (q : Q) : bool := Z.ltb (Qnum q) 0.

Definition inf_of_sign (neg : bool) : num := if neg then NInf else PInf.
Definition zero_of_sign (neg : bool) : num := if neg then NZero else of_Z 0.

(** The sign bit of a Number, and the real a finite one stands for. *)
Definition sign_bit (a : num) : bool :=
  match a with
  | NInf | NZero => true
  | Fin x => Qis_neg x
  | NaN | PInf => false
  end.

Definition real (a : num) : option Q :=
  match a with
  | Fin x => Some x
  | NZero => Some 0%Q
  | NaN | PInf | NInf => None
  end.

(** *** The Number value for a real

    binary64 has 53 bits of precision; the unit in the last place of a
    value between [2^e] and [2^(e+1)] is [2^(e-52)], and never less than
    [2^-1074]; from [2^1024] on there is only infinity. *)

Definition two_to (e : Z) : Q := Qpower (inject_Z 2) e.

(** [floor (log2 a)] for a positive rational. *)
Definition Qlog2 (a : Q) : Z :=
  let e := (Z.log2 (Qnum a) - Z.log2 (Zpos (Qden a)))%Z in
  if Qle_bool (two_to e) a then e else (e - 1)%Z.

(** The nearest integer, a tie going to the even one. *)
Definition round_even (x : Q) : Z :=
  let f := Qfloor x in
  match (x - inject_Z f ?= 1 # 2)%Q with
  | Lt => f
  | Gt => (f + 1)%Z
  | Eq => if Z.even f then f else (f + 1)%Z
  end.

Definition ulp_exponent (a : Q) : Z := Z.max (Qlog2 a - 52) (-1074).

(** A positive real rounded to 53 bits: the nearest multiple of its unit
    in the last place, a tie going to the even multiple. *)
Definition round53 (a : Q) : Q :=
  let u := ulp_exponent a in
  (inject_Z (round_even (a / two_to u)) * two_to u)%Q.

(** The Number value for the real [q]: [q] rounded to the nearest value
    of the format.  [zero_neg] is the sign an exact zero takes, which
    depends on the operation; a value rounded to zero keeps its own
    sign. *)
Definition binary64 (zero_neg : bool) (q : Q) : num :=
  if Qis_zero q then zero_of_sign zero_neg
  else
    let r := round53 (Qabs q) in
    if Qis_zero r then zero_of_sign (Qis_neg q)
    else if Qle_bool (two_to 1024) r then inf_of_sign (Qis_neg q)
    else fin (if Qis_neg q then - r else r).

(** *** Arithmetic *)

(** [- a] *)
Definition nneg (a : num) : num :=
  match a with
  | NaN => NaN
  | PInf => NInf
  | NInf => PInf
  | NZero => of_Z 0
  | Fin x => if Qis_zero x then NZero else fin (- x)
  end.

(** [a + b]: an exact zero is negative only as the sum of two negative
    zeros. *)
Definition nadd (a b : num) : num :=
  match a, b with
  | NaN, _ | _, NaN => NaN
  | PInf, NInf | NInf, PInf => NaN
  | PInf, _ | _, PInf => PInf
  | NInf, _ | _, NInf => NInf
  | _, _ =>
      match real a, real b with
      | Some x, Some y => binary64 (sign_bit a && sign_bit b) (x + y)
      | _, _ => NaN
      end
  end.

(** [a - b] *)
Definition nsub (a b : num) : num := nadd a (nneg b).

(** [a * b]: the sign is the product of the signs. *)
Definition nmul (a b : num) : num :=
  let s := xorb (sign_bit a) (sign_bit b) in
  match a, b with
  | NaN, _ | _, NaN => NaN
  | _, _ =>
      match real a, real b with
      | Some x, Some y => binary64 s (x * y)
      | Some x, None | None, Some x =>
          if Qis_zero x then NaN else inf_of_sign s
      | None, None => inf_of_sign s
      end
  end.

(** [a / b] *)
Definition ndiv (a b : num) : num :=
  let s := xorb (sign_bit a) (sign_bit b) in
  match a, b with
  | NaN, _ | _, NaN => NaN
  | _, _ =>
      match real a, real b with
      | Some x, Some y =>
          if Qis_zero y
          then (if Qis_zero x then NaN else inf_of_sign s)
          else binary64 s (x / y)
      | Some _, None => zero_of_sign s
      | None, Some _ => inf_of_sign s
      | None, None => NaN
      end
  end.

(** Truncation toward zero of a rational. *)
Definition Qtrunc (q : Q) : Z := Z.quot (Qnum q) (Zpos (Qden q)).

(** [a % b]: the remainder is exact and takes the sign of the dividend. *)
Definition nrem (a b : num) : num :=
  match a, b with
  | NaN, _ | _, NaN => NaN
  | (PInf | NInf), _ => NaN
  | _, (PInf | NInf) => a
  | _, _ =>
      match real a, real b with
      | Some x, Some y =>
          if Qis_zero y then NaN
          else
            let r := (x - y * inject_Z (Qtrunc (x / y)))%Q in
            if Qis_zero r then zero_of_sign (sign_bit a) else fin r
      | _, _ => NaN
      end
  end.

(** [Math.floor], [Math.ceil], [Math.abs] *)
Definition Math_floor (a : num) : num :=
  match a with Fin x => of_Z (Qfloor x) | _ => a end.

Definition Math_ceil (a : num) : num :=
  match a with
  | Fin x =>
      let n := Qceiling x in
      if (n =? 0)%Z && Qis_neg x then NZero else of_Z n
  | _ => a
  end.

Definition Math_abs (a : num) : num :=
  match a with
  | NInf => PInf
  | NZero => of_Z 0
  | Fin x => fin (Qabs x)
  | _ => a
  end.

(** [const round]: [Math.round], the nearest integer, a tie going up; a
    negative value that rounds to zero gives the negative zero. *)
Definition round (a : num) : num :=
  match a with
  | Fin x =>
      let n := Qfloor (x + (1 # 2)) in
      if (n =? 0)%Z && Qis_neg x then NZero else of_Z n
  | _ => a
  end.

(** [const pow]: [Math.pow(10, p)] for an integer exponent, taken as
    correctly rounded. *)
Definition pow (p : Z) : num := binary64 false (Qpower (inject_Z 10) p).

(** [~~a]: the ToInt32 conversion, truncation followed by wrap-around
    into the signed 32-bit range. *)
Definition wrap32 (z : Z) : Z := (z + 2 ^ 31) mod 2 ^ 32 - 2 ^ 31.

Definition to_int32 (a : num) : num :=
  match a with
  | Fin x => of_Z (wrap32 (Qtrunc x))
  | _ => of_Z 0
  end.

(** ToBoolean on a number: [NaN] and the zeros are falsy. *)
Definition truthy (a : num) : bool :=
  match a with
  | NaN | NZero => false
  | Fin x => negb (Qis_zero x)
  | _ => true
  end.

(** [a >= 0] and [a > 0] *)
Definition nge0 (a : num) : bool :=
  match a with
  | NaN | NInf => false
  | PInf | NZero => true
  | Fin x => negb (Qis_neg x)
  end.

Definition ngt0 (a : num) : bool :=
  match a with
  | NaN | NInf | NZero => false
  | PInf => true
  | Fin x => Z.ltb 0 (Qnum x)
  end.

(** [a !== 0] *)
Definition nonzero (a : num) : bool :=
  match a with
  | NZero => false
  | Fin x => negb (Qis_zero x)
  | _ => true
  end.

(** ** Strings and numerals *)

Local Open Scope string_scope.

Definition digits_string (d : uint) : string := NilEmpty.string_of_uint d.

(** The longest prefix of decimal digits, and what follows it. *)
Fixpoint read_digits (s : string) : uint * string :=
  match s with
  | String c r =>
      let next (k : uint -> uint) := let (d, t) := read_digits r in (k d, t) in
      if Ascii.eqb c "0" then next D0 else
      if Ascii.eqb c "1" then next D1 else
      if Ascii.eqb c "2" then next D2 else
      if Ascii.eqb c "3" then next D3 else
      if Ascii.eqb c "4" then next D4 else
      if Ascii.eqb c "5" then next D5 else
      if Ascii.eqb c "6" then next D6 else
      if Ascii.eqb c "7" then next D7 else
      if Ascii.eqb c "8" then next D8 else
      if Ascii.eqb c "9" then next D9 else (Nil, s)
  | EmptyString => (Nil, s)
  end.

Definition read_sign (s : string) : bool * string :=
  match s with
  | String c r =>
      if Ascii.eqb c "-" then (true, r)
      else if Ascii.eqb c "+" then (false, r)
      else (false, s)
  | EmptyString => (false, s)
  end.

(** The exponent part of a numeric literal: nothing, or [e] with an
    optionally signed, non-empty run of digits that ends the string. *)
Definition read_exponent (s : string) : option Z :=
  match s with
  | EmptyString => Some 0
  | String c r =>
      if Ascii.eqb c "e" || Ascii.eqb c "E" then
        let (neg, r1) := read_sign r in
        match read_digits r1 with
        | (Nil, _) => None
        | (d, EmptyString) =>
            let e := Z.of_N (N.of_uint d) in Some (if neg then - e else e)
        | (_, String _ _) => None
        end
      else None
  end.

(** An unsigned decimal literal: [Infinity], or digits with an optional
    fraction and an optional exponent, at least one digit in all.  The
    value is the Number value for the real the literal denotes (taken as
    correctly rounded however many digits there are); a zero behind a
    minus sign is the negative zero. *)
Definition unsigned_literal (neg : bool) (s : string) : num :=
  if String.eqb s "Infinity" then inf_of_sign neg
  else
    let (ip, s2) := read_digits s in
    let (fp, s3) :=
      match s2 with
      | String c r => if Ascii.eqb c "." then read_digits r else (Nil, s2)
      | EmptyString => (Nil, s2)
      end in
    match ip, fp with
    | Nil, Nil => NaN
    | _, _ =>
        match read_exponent s3 with
        | None => NaN
        | Some e =>
            let m := (inject_Z (Z.of_N (N.of_uint (Decimal.app ip fp)))
                      * Qpower (inject_Z 10) (e - Z.of_nat (nb_digits fp)))%Q in
            binary64 neg (if neg then (- m)%Q else m)
        end
    end.

(** White space and line terminators, among 8-bit characters. *)
Definition is_white_space (c : ascii) : bool :=
  let n := nat_of_ascii c in
  (Nat.leb 9 n && Nat.leb n 13) || Nat.eqb n 32 || Nat.eqb n 160.

Fixpoint trim_start (s : string) : string :=
  match s with
  | String c r => if is_white_space c then trim_start r else s
  | EmptyString => s
  end.

Fixpoint trim_end (s : string) : string :=
  match s with
  | String c r =>
      match trim_end r with
      | EmptyString => if is_white_space c then EmptyString else String c EmptyString
      | t => String c t
      end
  | EmptyString => s
  end.

(** The value of a character as a digit of the radix, if it is one. *)
Definition digit_of (radix : N) (c : ascii) : option N :=
  let n := N_of_ascii c in
  let d :=
    if (48 <=? n)%N && (n <=? 57)%N then Some (n - 48)%N
    else if (97 <=? n)%N && (n <=? 102)%N then Some (n - 87)%N
    else if (65 <=? n)%N && (n <=? 70)%N then Some (n - 55)%N
    else None in
  match d with
  | Some d => if (d <? radix)%N then Some d else None
  | None => None
  end.

Fixpoint read_radix (radix acc : N) (s : string) : option N :=
  match s with
  | EmptyString => Some acc
  | String c r =>
      match digit_of radix c with
      | Some d => read_radix radix (acc * radix + d)%N r
      | None => None
      end
  end.

(** [0x], [0o] and [0b] literals, in either case, unsigned and with at
    least one digit. *)
Definition radix_literal (s : string) : option N :=
  match s with
  | String z (String p (String c r)) =>
      if Ascii.eqb z "0" then
        if Ascii.eqb p "x" || Ascii.eqb p "X" then read_radix 16 0 (String c r)
        else if Ascii.eqb p "o" || Ascii.eqb p "O" then read_radix 8 0 (String c r)
        else if Ascii.eqb p "b" || Ascii.eqb p "B" then read_radix 2 0 (String c r)
        else None
      else None
  | _ => None
  end.

(** Unary [+] on a string (StringToNumber): white space around the
    literal is skipped, nothing is 0, and anything that is not a literal
    is [NaN]. *)
Definition to_number (s : string) : num :=
  match trim_end (trim_start s) with
  | EmptyString => of_Z 0
  | t =>
      match radix_literal t with
      | Some n => binary64 false (inject_Z (Z.of_N n))
      | None => let (neg, s1) := read_sign t in unsigned_literal neg s1
      end
  end.

(** The digits of [n / 10^f] with exactly [f] of them after the point. *)
Definition fixed_digits (f : nat) (n : N) : string :=
  let m := N.to_uint n in
  match f with
  | O => digits_string m
  | S _ =>
      let k := nb_digits m in
      let m := if Nat.leb k f then Nat.iter (f + 1 - k) D0 m else m in
      let k := nb_digits m in
      digits_string (del_tail f m) ++ "." ++ digits_string (del_head (k - f) m)
  end.

(** The first digit, and the digits after it. *)
Definition split_lead (d : uint) : uint * uint :=
  match d with
  | Nil => (Nil, Nil)
  | D0 r => (D0 Nil, r)
  | D1 r => (D1 Nil, r)
  | D2 r => (D2 Nil, r)
  | D3 r => (D3 Nil, r)
  | D4 r => (D4 Nil, r)
  | D5 r => (D5 Nil, r)
  | D6 r => (D6 Nil, r)
  | D7 r => (D7 Nil, r)
  | D8 r => (D8 Nil, r)
  | D9 r => (D9 Nil, r)
  end.

(** Number::toString picks the shortest digits that denote the value: the
    integer [s] of [k] digits and the exponent [e], with [k] as small as
    possible, such that [s * 10^e] has the Number value [x]; among
    several [s] the one nearest to [x], and of two equally near the even
    one.  [shortest_from] tries [k], [k + 1], ...; [n] is the number of
    digits of the integer part of [x]. *)
Definition denotes (x : Q) (s e : Z) : bool :=
  match binary64 false (inject_Z s * Qpower (inject_Z 10) e) with
  | Fin y => Qeq_bool y x
  | _ => false
  end.

Definition nearer (x : Q) (e lo hi : Z) : Z :=
  let dl := (x - inject_Z lo * Qpower (inject_Z 10) e)%Q in
  let dh := (inject_Z hi * Qpower (inject_Z 10) e - x)%Q in
  match (dl ?= dh)%Q with
  | Lt => lo
  | Gt => hi
  | Eq => if Z.even lo then lo else hi
  end.

Fixpoint shortest_from (fuel : nat) (k : Z) (x : Q) (n : Z) : Z * Z :=
  let e := (n - k)%Z in
  let lo := Qfloor (x / Qpower (inject_Z 10) e) in
  match fuel with
  | O => (lo, e)
  | S fuel =>
      let hi := (lo + 1)%Z in
      match denotes x lo e, denotes x hi e with
      | true, true => (nearer x e lo hi, e)
      | true, false => (lo, e)
      | false, true => (hi, e)
      | false, false => shortest_from fuel (k + 1)%Z x n
      end
  end.

(** [n = m * 10^z], with [z] as large as the fuel allows. *)
Fixpoint strip_zeros (fuel : nat) (n : N) : N * nat :=
  match fuel with
  | O => (n, O)
  | S fuel =>
      if N.eqb n 0 || negb (N.eqb (n mod 10) 0) then (n, O)
      else let (m, z) := strip_zeros fuel (n / 10) in (m, S z)
  end.

(** Number::toString on a value of at least 10^21, which is an integer:
    the digits, without zeros at the end, a point after the first, then
    [e+] and the exponent of the first digit. *)
Definition Number_toString (x : Q) : string :=
  let n := Z.of_nat (nb_digits (N.to_uint (Z.to_N (Qfloor x)))) in
  let (s, e) := shortest_from (Z.to_nat n - 1) 1 x n in
  let (m, z) := strip_zeros (N.to_nat (N.size (Z.to_N s))) (Z.to_N s) in
  let d := N.to_uint m in
  let (lead, rest) := split_lead d in
  digits_string lead
  ++ match rest with Nil => EmptyString | _ => "." ++ digits_string rest end
  ++ "e+" ++ digits_string
               (N.to_uint (Z.to_N (Z.of_nat (nb_digits d + z) + e - 1))).

Inductive error : Type :=
| InvalidInput    (* Error('Invalid Input') thrown by parse *)
| SyntaxError     (* thrown by the RegExp constructor *)
| RangeError      (* thrown by toFixed *)
| NoSuchObject.   (* a reference the store does not hold; no caller has one *)

Inductive result (A : Type) : Type :=
| Ok (a : A)
| Throw (e : error).
Arguments Ok {A} a.
Arguments Throw {A} e.

Definition Qnearest (x : Q) : Z := Qfloor (x + (1 # 2))%Q.

Definition ten21 : Q := inject_Z (10 ^ 21).

(** [x.toFixed(f)].  Below 10^21 the nearest multiple of 10^-f is printed,
    a tie going away from zero; from 10^21 on the result is that of
    Number::toString.  The negative zero prints as zero. *)
Definition toFixed (f : Z) (x : num) : result string :=
  if ((f <? 0) || (100 <? f))%Z then Throw RangeError
  else
    match x with
    | NaN => Ok "NaN"
    | PInf => Ok "Infinity"
    | NInf => Ok "-Infinity"
    | NZero => Ok (fixed_digits (Z.to_nat f) 0)
    | Fin q =>
        let a := Qabs q in
        let body :=
          if Qle_bool ten21 a
          then Number_toString a
          else fixed_digits (Z.to_nat f)
                 (Z.to_N (Qnearest (a * inject_Z (10 ^ f))%Q)) in
        Ok (if Qis_neg q then "-" ++ body else body)
    end.

(** ** Configuration *)

(** [groupRegex] and [vedicRegex] *)
Inductive regex : Type :=
| groupRegex
| vedicRegex.

(** A settings object, [dopFields & defObj].  The three fields of
    [dopFields] that [defaults] lacks may be absent.  The decimal mark is
    one character and the precision an integer. *)
Record settings : Type := {
  symbol : string;
  separator : string;
  decimal : ascii;
  formatWithSymbol : bool;
  errorOnInvalid : bool;
  precision : Z;
  pattern : string;
  negativePattern : string;
  increment : option num;
  useVedic : option bool;
  groups : option regex
}.

(** The [opts] argument of the constructor: any property may be absent. *)
Record options : Type := {
  o_symbol : option string;
  o_separator : option string;
  o_decimal : option ascii;
  o_formatWithSymbol : option bool;
  o_errorOnInvalid : option bool;
  o_precision : option Z;
  o_pattern : option string;
  o_negativePattern : option string;
  o_increment : option num;
  o_useVedic : option bool;
  o_groups : option regex
}.

Definition no_options : options :=
  {| o_symbol := None; o_separator := None; o_decimal := None;
     o_formatWithSymbol := None; o_errorOnInvalid := None;
     o_precision := None; o_pattern := None; o_negativePattern := None;
     o_increment := None; o_useVedic := None; o_groups := None |}.

Definition defaults : settings :=
  {| symbol := "$";
     separator := ",";
     decimal := ".";
     formatWithSymbol := false;
     errorOnInvalid := false;
     precision := 2;
     pattern := "!#";
     negativePattern := "-!#";
     increment := None;
     useVedic := None;
     groups := None |}.

Definition override {A : Type} (o : option A) (d : A) : A :=
  match o with Some a => a | None => d end.

Definition override_opt {A : Type} (o d : option A) : option A :=
  match o with Some a => Some a | None => d end.

(** [Object.assign({}, base, opts)] *)
Definition Object_assign (base : settings) (opts : options) : settings :=
  {| symbol := override (o_symbol opts) (symbol base);
     separator := override (o_separator opts) (separator base);
     decimal := override (o_decimal opts) (decimal base);
     formatWithSymbol := override (o_formatWithSymbol opts) (formatWithSymbol base);
     errorOnInvalid := override (o_errorOnInvalid opts) (errorOnInvalid base);
     precision := override (o_precision opts) (precision base);
     pattern := override (o_pattern opts) (pattern base);
     negativePattern := override (o_negativePattern opts) (negativePattern base);
     increment := override_opt (o_increment opts) (increment base);
     useVedic := override_opt (o_useVedic opts) (useVedic base);
     groups := override_opt (o_groups opts) (groups base) |}.

(** A settings object handed over as [opts]: every property it has. *)
Definition as_options (s : settings) : options :=
  {| o_symbol := Some (symbol s);
     o_separator := Some (separator s);
     o_decimal := Some (decimal s);
     o_formatWithSymbol := Some (formatWithSymbol s);
     o_errorOnInvalid := Some (errorOnInvalid s);
     o_precision := Some (precision s);
     o_pattern := Some (pattern s);
     o_negativePattern := Some (negativePattern s);
     o_increment := increment s;
     o_useVedic := useVedic s;
     o_groups := groups s |}.

Definition with_increment (i : num) (s : settings) : settings :=
  {| symbol := symbol s; separator := separator s; decimal := decimal s;
     formatWithSymbol := formatWithSymbol s;
     errorOnInvalid := errorOnInvalid s; precision := precision s;
     pattern := pattern s; negativePattern := negativePattern s;
     increment := Some i; useVedic := useVedic s; groups := groups s |}.

Definition with_groups (g : regex) (s : settings) : settings :=
  {| symbol := symbol s; separator := separator s; decimal := decimal s;
     formatWithSymbol := formatWithSymbol s;
     errorOnInvalid := errorOnInvalid s; precision := precision s;
     pattern := pattern s; negativePattern := negativePattern s;
     increment := increment s; useVedic := useVedic s; groups := Some g |}.

(** ** Values and the parser *)

Definition loc : Type := nat.

(** What a caller can hand to the constructor or to an operation. *)
Inductive jsval : Type :=
| VUndefined
| VNull
| VBool (b : bool)
| VNum (n : num)
| VStr (s : string)
| VCurrency (l : loc).

(** Unary [+] on a numeric property that may be absent. *)
Definition number_of (o : option num) : num :=
  match o with Some n => n | None => NaN end.

(** [Currency.prototype.value]: the class declares the field and nothing
    ever assigns it on the prototype. *)
Definition Currency_prototype_value : option num := None.

(** The first [replace] of the string branch: the leftmost parenthesised
    group, as long as it can be made within one line, becomes a minus sign
    followed by its content.  [last_close] finds, on the line that starts
    at [s], the last closing parenthesis: the text before it and the text
    after it. *)
Definition is_line_terminator (c : ascii) : bool :=
  Ascii.eqb c "010" || Ascii.eqb c "013".

Fixpoint last_close (s : string) : option (string * string) :=
  match s with
  | EmptyString => None
  | String c r =>
      if is_line_terminator c then None
      else
        match last_close r with
        | Some (inner, after) => Some (String c inner, after)
        | None => if Ascii.eqb c ")" then Some (EmptyString, r) else None
        end
  end.

Fixpoint replace_parens (s : string) : string :=
  match s with
  | EmptyString => EmptyString
  | String c r =>
      if Ascii.eqb c "(" then
        match last_close r with
        | Some (inner, after) => "-" ++ inner ++ after
        | None => String c (replace_parens r)
        end
      else String c (replace_parens r)
  end.

Definition is_digit (c : ascii) : bool :=
  let n := nat_of_ascii c in Nat.leb 48 n && Nat.leb n 57.

Fixpoint remove_all (drop : ascii -> bool) (s : string) : string :=
  match s with
  | EmptyString => EmptyString
  | String c r =>
      if drop c then remove_all drop r else String c (remove_all drop r)
  end.

(** [new RegExp('[^-\\d' + decimal + ']', 'g')] and the [replace] that
    removes its matches.  The mark stands inside a character class, where
    two characters are not read as themselves.  A backslash (character
    92) escapes the bracket that should close the class, and the
    constructor throws.  A closing bracket (character 93) closes the
    class early: the pattern is then the class of what is neither a minus
    sign nor a digit, followed by a literal bracket, and a match is two
    characters long. *)
Fixpoint remove_before (keep : ascii -> bool) (mark : ascii) (s : string) : string :=
  match s with
  | EmptyString => EmptyString
  | String c r =>
      match r with
      | String d r' =>
          if negb (keep c) && Ascii.eqb d mark
          then remove_before keep mark r'
          else String c (remove_before keep mark r)
      | EmptyString => s
      end
  end.

Definition minus_or_digit (c : ascii) : bool := Ascii.eqb c "-" || is_digit c.

Definition RegExp_non_numeric (decimal : ascii) : result (string -> string) :=
  if Ascii.eqb decimal "092" then Throw SyntaxError
  else if Ascii.eqb decimal "]" then Ok (remove_before minus_or_digit "]")
  else Ok (remove_all (fun c => negb (minus_or_digit c || Ascii.eqb c decimal))).

(** [new RegExp('\\' + decimal, 'g')] and the [replace] that puts a point
    for each match.  Behind the backslash a punctuation mark is itself,
    while a letter or a digit may be an escape: a class ([\d], [\w],
    [\s] and their complements), an assertion ([\b], [\B], which match
    between characters), a control character ([\t], [\n], [\v], [\f],
    [\r], [\0], and [\1] to [\7] read as octal), or, for [\c] with
    nothing behind it, the backslash itself followed by the letter.  Any
    other character is read as itself. *)
Definition is_word_char (c : ascii) : bool :=
  let n := nat_of_ascii c in
  is_digit c || (Nat.leb 65 n && Nat.leb n 90) || (Nat.leb 97 n && Nat.leb n 122)
  || Ascii.eqb c "_".

Fixpoint replace_class (p : ascii -> bool) (b : ascii) (s : string) : string :=
  match s with
  | EmptyString => EmptyString
  | String c r => String (if p c then b else c) (replace_class p b r)
  end.

(** A point at every place between two characters, or at an end, where
    exactly one side is a word character ([boundary = true]) or where
    that is not so ([boundary = false]). *)
Fixpoint mark_places (boundary : bool) (before : bool) (s : string) : string :=
  let here (after : bool) (rest : string) :=
    if Bool.eqb (xorb before after) boundary then String "."%char rest else rest in
  match s with
  | EmptyString => here false EmptyString
  | String c r =>
      here (is_word_char c) (String c (mark_places boundary (is_word_char c) r))
  end.

Fixpoint replace_pair (a b : ascii) (by_ : ascii) (s : string) : string :=
  match s with
  | EmptyString => EmptyString
  | String c r =>
      match r with
      | String d r' =>
          if Ascii.eqb c a && Ascii.eqb d b
          then String by_ (replace_pair a b by_ r')
          else String c (replace_pair a b by_ r)
      | EmptyString => s
      end
  end.

Definition RegExp_decimal (decimal : ascii) : result (string -> string) :=
  let n := nat_of_ascii decimal in
  let literal (c : ascii) := replace_class (Ascii.eqb c) "."%char in
  Ok (if Ascii.eqb decimal "d" then replace_class is_digit "."%char
      else if Ascii.eqb decimal "D" then replace_class (fun c => negb (is_digit c)) "."%char
      else if Ascii.eqb decimal "w" then replace_class is_word_char "."%char
      else if Ascii.eqb decimal "W" then replace_class (fun c => negb (is_word_char c)) "."%char
      else if Ascii.eqb decimal "s" then replace_class is_white_space "."%char
      else if Ascii.eqb decimal "S" then replace_class (fun c => negb (is_white_space c)) "."%char
      else if Ascii.eqb decimal "b" then mark_places true false
      else if Ascii.eqb decimal "B" then mark_places false false
      else if Ascii.eqb decimal "t" then literal "009"%char
      else if Ascii.eqb decimal "n" then literal "010"%char
      else if Ascii.eqb decimal "v" then literal "011"%char
      else if Ascii.eqb decimal "f" then literal "012"%char
      else if Ascii.eqb decimal "r" then literal "013"%char
      else if Nat.leb 48 n && Nat.leb n 55 then literal (ascii_of_nat (n - 48))
      else if Ascii.eqb decimal "c" then replace_pair "092"%char "c"%char "."%char
      else literal decimal).

Definition bind_result {A B : Type} (r : result A) (k : A -> result B) : result B :=
  match r with Ok a => k a | Throw e => Throw e end.

Notation "'try' x <- r ; k" := (bind_result r (fun x => k))
  (at level 10, x name, r at level 100, k at level 200).

(** [function parse(value, opts, useRounding = true)] *)
Definition parse (value : jsval) (opts : settings) (useRounding : bool) : result num :=
  let precision := pow (precision opts) in
  try v <-
    match value with
    | VNum n => Ok (nmul n precision)
    | VCurrency _ => Ok (nmul (number_of Currency_prototype_value) precision)
    | VStr s =>
        try regex <- RegExp_non_numeric (decimal opts);
        try decimalString <- RegExp_decimal (decimal opts);
        let v := nmul (to_number (decimalString (regex (replace_parens s))))
                      precision in
        Ok (if truthy v then v else of_Z 0)
    | VUndefined | VNull | VBool _ =>
        if errorOnInvalid opts then Throw InvalidInput else Ok (of_Z 0)
    end;
  try s <- toFixed 4 v;
  let v := to_number s in
  Ok (if useRounding then round v else v).

(** ** The object store *)

(** An instance of [class Currency].  [_settings] is a reference to the
    settings object the constructor created for it. *)
Record Currency : Type := {
  intValue : num;
  value : num;
  _settings : loc;
  _precision : num
}.

(** Instances, settings objects, and what [console.log] has printed. *)
Record store : Type := {
  instances : list Currency;
  configs : list settings;
  console : list num
}.

Definition empty_store : store :=
  {| instances := []; configs := []; console := [] |}.

Definition M (A : Type) : Type := store -> result A * store.

Definition ret {A : Type} (a : A) : M A := fun h => (Ok a, h).

Definition bind {A B : Type} (m : M A) (k : A -> M B) : M B :=
  fun h => match m h with
           | (Ok a, h') => k a h'
           | (Throw e, h') => (Throw e, h')
           end.

Definition lift {A : Type} (r : result A) : M A := fun h => (r, h).

Notation "x <- m ;; k" := (bind m (fun x => k))
  (at level 61, m at next level, right associativity).

Definition get_instance (l : loc) : M Currency :=
  fun h => match nth_error (instances h) l with
           | Some c => (Ok c, h)
           | None => (Throw NoSuchObject, h)
           end.

Definition get_settings (l : loc) : M settings :=
  fun h => match nth_error (configs h) l with
           | Some s => (Ok s, h)
           | None => (Throw NoSuchObject, h)
           end.

Definition alloc_settings (s : settings) : M loc :=
  fun h => (Ok (List.length (configs h)),
            {| instances := instances h;
               configs := (configs h ++ [s])%list;
               console := console h |}).

Definition alloc_instance (c : Currency) : M loc :=
  fun h => (Ok (List.length (instances h)),
            {| instances := (instances h ++ [c])%list;
               configs := configs h;
               console := console h |}).

Definition console_log (n : num) : M unit :=
  fun h => (Ok tt,
            {| instances := instances h;
               configs := configs h;
               console := (console h ++ [n])%list |}).

(** ** [class Currency] *)

(** [settings.increment || (1 / precision)] *)
Definition default_increment (s : settings) (precision : num) : num :=
  match increment s with
  | Some i => if truthy i then i else ndiv (of_Z 1) precision
  | None => ndiv (of_Z 1) precision
  end.

Definition select_groups (s : settings) : regex :=
  match useVedic s with
  | Some true => vedicRegex
  | _ => groupRegex
  end.

(** [constructor(value, opts)].  [this.value] is assigned only when the
    argument is not an instance, and is [undefined] otherwise.  The two
    objects are entered in the store once their fields are final; a throw
    of [parse] leaves the store as it was. *)
Definition new_Currency (value : jsval) (opts : options) : M loc :=
  let this_value :=
    match value with
    | VCurrency _ => VUndefined
    | _ => value
    end in
  let settings := Object_assign defaults opts in
  let precision := pow (precision settings) in
  v <- lift (parse this_value settings true) ;;
  let settings := with_increment (default_increment settings precision) settings in
  let settings := with_groups (select_groups settings) settings in
  ls <- alloc_settings settings ;;
  alloc_instance {| intValue := v;
                    value := ndiv v precision;
                    _settings := ls;
                    _precision := precision |}.

(** [new Currency(v, _settings)] with [_settings] a reference. *)
Definition new_Currency_with (v : jsval) (ls : loc) : M loc :=
  s <- get_settings ls ;;
  new_Currency v (as_options s).

Definition add (this : loc) (number : jsval) : M loc :=
  c <- get_instance this ;;
  s <- get_settings (_settings c) ;;
  p <- lift (parse number s true) ;;
  new_Currency_with (VNum (ndiv (nadd (intValue c) p) (_precision c))) (_settings c).

Definition subtract (this : loc) (number : jsval) : M loc :=
  c <- get_instance this ;;
  s <- get_settings (_settings c) ;;
  p <- lift (parse number s true) ;;
  new_Currency_with (VNum (ndiv (nsub (intValue c) p) (_precision c))) (_settings c).

Definition multiply (this : loc) (number : num) : M loc :=
  c <- get_instance this ;;
  s <- get_settings (_settings c) ;;
  new_Currency_with
    (VNum (ndiv (nmul (intValue c) number) (pow (precision s))))
    (_settings c).

Definition divide (this : loc) (number : jsval) : M loc :=
  c <- get_instance this ;;
  s <- get_settings (_settings c) ;;
  p <- lift (parse number s false) ;;
  new_Currency_with (VNum (ndiv (intValue c) p)) (_settings c).

(** One turn of the loop of [distribute]: the share, with a penny moved
    onto it while [pennies] is positive. *)
Definition distribute_item (c : Currency) (split pennies : num) : M loc :=
  item <- new_Currency_with (VNum (ndiv split (_precision c))) (_settings c) ;;
  if ngt0 pennies then
    if nge0 (intValue c)
    then add item (VNum (ndiv (of_Z 1) (_precision c)))
    else subtract item (VNum (ndiv (of_Z 1) (_precision c)))
  else ret item.

(** [for (; count !== 0; count--)].  The loop need not end, so it runs on
    fuel: [None] says the fuel ran out first. *)
Fixpoint distribute_loop (fuel : nat) (c : Currency) (split count pennies : num)
    (distribution : list loc) (h : store) : option (result (list loc) * store) :=
  match fuel with
  | O => None
  | S fuel =>
      if nonzero count then
        match distribute_item c split pennies h with
        | (Ok item, h') =>
            distribute_loop fuel c split (nsub count (of_Z 1))
              (nsub pennies (of_Z 1)) (distribution ++ [item])%list h'
        | (Throw e, h') => Some (Throw e, h')
        end
      else Some (Ok distribution, h)
  end.

Definition distribute (fuel : nat) (this : loc) (count : num) (h : store)
    : option (result (list loc) * store) :=
  match get_instance this h with
  | (Ok c, h) =>
      let split :=
        (if nge0 (intValue c) then Math_floor else Math_ceil)
          (ndiv (intValue c) count) in
      let pennies := Math_abs (nsub (intValue c) (nmul split count)) in
      distribute_loop fuel c split count pennies [] h
  | (Throw e, h) => Some (Throw e, h)
  end.

Definition dollars (this : loc) : M num :=
  c <- get_instance this ;;
  _ <- console_log (value c) ;;
  ret (to_int32 (value c)).

Definition cents (this : loc) : M num :=
  c <- get_instance this ;;
  ret (to_int32 (nrem (intValue c) (_precision c))).

(** [const rounding] *)
Definition rounding (value increment : num) : num :=
  nmul (round (ndiv value increment)) increment.

Definition toString (this : loc) : M string :=
  c <- get_instance this ;;
  s <- get_settings (_settings c) ;;
  lift (toFixed (precision s)
          (rounding (ndiv (intValue c) (_precision c)) (number_of (increment s)))).

Definition toJSON (this : loc) : M num :=
  c <- get_instance this ;;
  ret (value c).

(** *** [format] *)

Definition digit_value (c : ascii) : nat := nat_of_ascii c - 48.

(** The replacement text of [String.prototype.replace] (GetSubstitution,
    without named groups): [$$], [$&], the text before and after the
    match, and numbered groups. *)
Fixpoint substitute (matched before after : string) (captures : list string)
    (replacement : string) : string :=
  match replacement with
  | EmptyString => EmptyString
  | String c r =>
      if negb (Ascii.eqb c "$") then
        String c (substitute matched before after captures r)
      else
        match r with
        | EmptyString => "$"
        | String c1 r1 =>
            let literal := String "$" (substitute matched before after captures r) in
            let one_digit :=
              match digit_value c1 with
              | O => literal
              | S n =>
                  match nth_error captures n with
                  | Some g => g ++ substitute matched before after captures r1
                  | None => literal
                  end
              end in
            if Ascii.eqb c1 "$" then
              String "$" (substitute matched before after captures r1)
            else if Ascii.eqb c1 "&" then
              matched ++ substitute matched before after captures r1
            else if Ascii.eqb c1 "`" then
              before ++ substitute matched before after captures r1
            else if Ascii.eqb c1 "'" then
              after ++ substitute matched before after captures r1
            else if is_digit c1 then
              match r1 with
              | String c2 r2 =>
                  if is_digit c2 then
                    match (10 * digit_value c1 + digit_value c2)%nat with
                    | O => one_digit
                    | S n =>
                        match nth_error captures n with
                        | Some g => g ++ substitute matched before after captures r2
                        | None => one_digit
                        end
                    end
                  else one_digit
              | EmptyString => one_digit
              end
            else literal
        end
  end.

(** [s.replace(c, replacement)] for a one-character pattern. *)
Fixpoint replace_first_from (before : string) (c : ascii) (replacement s : string)
    : string :=
  match s with
  | EmptyString => EmptyString
  | String a r =>
      if Ascii.eqb a c
      then substitute (String a EmptyString) before r [] replacement ++ r
      else String a (replace_first_from (before ++ String a EmptyString) c replacement r)
  end.

Definition replace_first := replace_first_from EmptyString.

Fixpoint digit_run (s : string) : nat :=
  match s with
  | String c r => if is_digit c then S (digit_run r) else O
  | EmptyString => O
  end.

(** After a run of [n] digits at the head of [s]: is there a word
    boundary? *)
Definition boundary_after (n : nat) (s : string) : bool :=
  match get n s with
  | Some c => negb (is_word_char c)
  | None => true
  end.

(** The look-ahead of the two grouping patterns on the text [r] that
    follows a digit: [Some g] when it holds, [g] being what the second
    group captured.  [groupRegex] asks for a positive multiple of three
    digits and then a word boundary; [vedicRegex] for one or more pairs,
    one more digit, and the boundary. *)
Definition look_ahead (g : regex) (r : string) : option string :=
  let n := digit_run r in
  if boundary_after n r then
    match g with
    | groupRegex =>
        if Nat.leb 3 n && Nat.eqb (n mod 3) 0
        then Some (substring (n - 3) 3 r) else None
    | vedicRegex =>
        if Nat.leb 3 n && Nat.eqb (n mod 2) 1
        then Some (substring (n - 3) 2 r) else None
    end
  else None.

(** [s.replace(groups, replacement)], every match replaced. *)
Fixpoint replace_groups_from (before : string) (g : regex) (replacement s : string)
    : string :=
  match s with
  | EmptyString => EmptyString
  | String c r =>
      match (if is_digit c then look_ahead g r else None) with
      | Some g2 =>
          substitute (String c EmptyString) before r [String c EmptyString; g2] replacement
      | None => String c EmptyString
      end ++ replace_groups_from (before ++ String c EmptyString) g replacement r
  end.

(** An absent [groups] would be read as the text [undefined], which the
    rendering of a number never holds: nothing is replaced. *)
Definition replace_groups (g : option regex) (replacement s : string) : string :=
  match g with
  | Some g => replace_groups_from EmptyString g replacement s
  | None => s
  end.

(** [s.replace(/^-/, '')] *)
Definition drop_minus (s : string) : string :=
  match s with
  | String c r => if Ascii.eqb c "-" then r else s
  | EmptyString => s
  end.

(** [s.split('.')] *)
Fixpoint split_dot (s : string) : list string :=
  match s with
  | EmptyString => [EmptyString]
  | String c r =>
      if Ascii.eqb c "." then EmptyString :: split_dot r
      else
        match split_dot r with
        | x :: xs => String c x :: xs
        | [] => [String c EmptyString]
        end
  end.

Definition format (this : loc) (useSymbol : option bool) : M string :=
  c <- get_instance this ;;
  s <- get_settings (_settings c) ;;
  text <- toString this ;;
  let values := split_dot (drop_minus text) in
  let dollars := nth 0 values EmptyString in
  let cents := nth_error values 1 in
  let useSymbol := override useSymbol (formatWithSymbol s) in
  let number :=
    replace_groups (groups s) ("$1" ++ separator s) dollars
    ++ match cents with
       | Some (String a r) => String (decimal s) (String a r)
       | _ => EmptyString
       end in
  ret (replace_first "#" number
         (replace_first "!" (if useSymbol then symbol s else EmptyString)
            (if nge0 (value c) then pattern s else negativePattern s))).

(** Run a computation and keep its result. *)
Definition eval {A : Type} (m : M A) (h : store) : result A := fst (m h).

(** ** Calls and observations *)

Definition instance_at (h : store) (l : loc) : option Currency :=
  nth_error (instances h) l.

Definition settings_at (h : store) (l : loc) : option settings :=
  nth_error (configs h) l.

(** The configuration an instance carries: the content of the settings
    object its [_settings] field refers to. *)
Definition settings_of (h : store) (l : loc) : option settings :=
  match instance_at h l with
  | Some c => settings_at h (_settings c)
  | None => None
  end.

Definition intValue_at (h : store) (l : loc) : option num :=
  option_map intValue (instance_at h l).


(** [h'] holds everything [h] holds, unchanged, and possibly more. *)
Definition extends (h h' : store) : Prop :=
  (exists cs, instances h' = instances h ++ cs)%list
  /\ (exists ss, configs h' = configs h ++ ss)%list
  /\ (exists ns, console h' = console h ++ ns)%list.

(** An instance is what the constructor returned at some earlier point. *)
Definition is_instance (h : store) (l : loc) : Prop :=
  exists v opts h0 h1,
    new_Currency v opts h0 = (Ok l, h1) /\ extends h1 h.

(** The public operations, and what a call returns. *)
Inductive method : Type :=
| m_add (number : jsval)
| m_subtract (number : jsval)
| m_multiply (number : num)
| m_divide (number : jsval)
| m_distribute (fuel : nat) (count : num)
| m_dollars
| m_cents
| m_format (useSymbol : option bool)
| m_toString
| m_toJSON.

Inductive answer : Type :=
| an_instance (l : loc)
| an_instances (ls : list loc)
| an_number (n : num)
| an_text (s : string).

Definition answering {A : Type} (f : A -> answer) (m : M A)
    : store -> option (result answer * store) :=
  fun h => match m h with
           | (Ok a, h') => Some (Ok (f a), h')
           | (Throw e, h') => Some (Throw e, h')
           end.

Definition call (m : method) (this : loc) : store -> option (result answer * store) :=
  match m with
  | m_add x => answering an_instance (add this x)
  | m_subtract x => answering an_instance (subtract this x)
  | m_multiply x => answering an_instance (multiply this x)
  | m_divide x => answering an_instance (divide this x)
  | m_distribute fuel count =>
      fun h => match distribute fuel this count h with
               | Some (Ok ls, h') => Some (Ok (an_instances ls), h')
               | Some (Throw e, h') => Some (Throw e, h')
               | None => None
               end
  | m_dollars => answering an_number (dollars this)
  | m_cents => answering an_number (cents this)
  | m_format u => answering an_text (format this u)
  | m_toString => answering an_text (toString this)
  | m_toJSON => answering an_number (toJSON this)
  end.

Definition is_arithmetic (m : method) : bool :=
  match m with
  | m_add _ | m_subtract _ | m_multiply _ | m_divide _ => true
  | _ => false
  end.

(** One arithmetic operation on the instance [l] in [h] produces the
    instance [l'] in [h']. *)
Inductive produces (h : store) (l : loc) : store -> loc -> Prop :=
| produces_add x h' l' :
    add l x h = (Ok l', h') -> produces h l h' l'
| produces_subtract x h' l' :
    subtract l x h = (Ok l', h') -> produces h l h' l'
| produces_multiply x h' l' :
    multiply l x h = (Ok l', h') -> produces h l h' l'
| produces_divide x h' l' :
    divide l x h = (Ok l', h') -> produces h l h' l'
| produces_distribute fuel count ls h' l' :
    distribute fuel l count h = Some (Ok ls, h') -> In l' ls ->
    produces h l h' l'.

(** A chain of operations, each applied to a value the one before
    produced. *)
Inductive chain : store -> loc -> store -> loc -> Prop :=
| chain_here h l : chain h l h l
| chain_next h l h1 l1 h2 l2 :
    produces h l h1 l1 -> chain h1 l1 h2 l2 -> chain h l h2 l2.

(** ** Vocabulary of the properties *)

(** What a successful run of the constructor leaves behind: the settings
    object it completed and the store it entered the two objects in. *)
Definition completed (s : settings) : settings :=
  let s1 := with_increment (default_increment s (pow (precision s))) s in
  with_groups (select_groups s1) s1.

Definition constructed (h : store) (s : settings) (v : num) : store :=
  {| instances :=
       (instances h
        ++ [ {| intValue := v;
                value := ndiv v (pow (precision s));
                _settings := List.length (configs h);
                _precision := pow (precision s) |} ])%list;
     configs := (configs h ++ [completed s])%list;
     console := console h |}.

(** Options that set [errorOnInvalid] and nothing else. *)
Definition with_errorOnInvalid (b : bool) : options :=
  {| o_symbol := None; o_separator := None; o_decimal := None;
     o_formatWithSymbol := None; o_errorOnInvalid := Some b;
     o_precision := None; o_pattern := None; o_negativePattern := None;
     o_increment := None; o_useVedic := None; o_groups := None |}.

(** The store after [new Currency(5)] on an empty one. *)
Definition five_dollars : store :=
  constructed empty_store (Object_assign defaults no_options) (of_Z 500).

(** [s] does not begin with a digit. *)
Definition no_digit_ahead (s : string) : Prop := read_digits s = (Nil, s).

(** The value [to_number] gives to digits, a fraction and an exponent. *)
Definition literal_value (neg : bool) (ip fp : uint) (e : Z) : num :=
  let m := (inject_Z (Z.of_N (N.of_uint (Decimal.app ip fp)))
            * Qpower (inject_Z 10) (e - Z.of_nat (nb_digits fp)))%Q in
  binary64 neg (if neg then (- m)%Q else m).

(** A real that binary64 holds exactly (the range apart): an integer of
    at most 53 bits times a power of two that is at least [2^-1074]. *)
Definition representable (q : Q) : Prop :=
  exists m u : Z,
    (Z.abs m <= 2 ^ 53)%Z /\ (-1074 <= u)%Z /\ (q == inject_Z m * two_to u)%Q.

(** A Number of the format: any value that is not finite, and a finite
    one the format holds. *)
Definition double (a : num) : Prop :=
  match a with
  | Fin q => representable q
  | _ => True
  end.

(** The Number [x] is the integer [z], the sign of a zero apart. *)
Definition stands_for (x : num) (z : Z) : Prop :=
  x = of_Z z \/ (x = NZero /\ z = 0%Z).

(** The last two statements of [parse]: [+v.toFixed(4)], rounded or not. *)
Definition finish (useRounding : bool) (v : num) : result num :=
  try s <- toFixed 4 v;
  Ok (if useRounding then round (to_number s) else to_number s).

(** The instance at [l] is [c], its settings object is [s], and its
    [_precision] is the factor of the precision in [s]: the state the
    constructor leaves an instance in. *)
Definition regular (h : store) (l : loc) (c : Currency) (s : settings) : Prop :=
  instance_at h l = Some c
  /\ settings_at h (_settings c) = Some s
  /\ _precision c = pow (precision s).



(** The settings object of an instance built without options. *)
Definition default_config : settings :=
  completed (Object_assign defaults no_options).




(** A computation that leaves what the store holds in place. *)
Definition grows {A : Type} (m : M A) : Prop :=
  forall h r h', m h = (r, h') -> extends h h'.

(** The store after [new Currency(-1.5)] on an empty one. *)
Definition minus_one_fifty : store :=
  constructed empty_store (Object_assign defaults no_options) (of_Z (-150)).

(** A decimal string: an optional minus sign, digits, and an optional
    point followed by digits. *)
Definition decimal_text (neg : bool) (ip fp : uint) : string :=
  (if neg then "-" else EmptyString)
  ++ digits_string ip
  ++ match fp with Nil => EmptyString | _ => "." ++ digits_string fp end.

(** Every digit is a zero. *)
Definition all_zero (d : uint) : bool :=
  match nzhead d with Nil => true | _ => false end.

(** The normal form of a decimal string with [p] fractional digits: no
    sign on zero, no leading zeros before the point, the fraction filled
    up with zeros. *)
Definition normalized (p : nat) (neg : bool) (ip fp : uint) : string :=
  (if neg && negb (all_zero (Decimal.app ip fp)) then "-" else EmptyString)
  ++ digits_string (unorm ip)
  ++ "."
  ++ digits_string (Decimal.app fp (Nat.iter (p - nb_digits fp) D0 Nil)).

(** The amount, in minor units at precision 2, that a decimal string with
    at most two fractional digits denotes. *)
Definition minor_units (neg : bool) (ip fp : uint) : Z :=
  let m := (Z.of_N (N.of_uint (Decimal.app ip fp))
            * 10 ^ (2 - Z.of_nat (nb_digits fp)))%Z in
  if neg then (- m)%Z else m.

(** Every character of [s] satisfies [p]. *)
Fixpoint all_chars (p : ascii -> bool) (s : string) : bool :=
  match s with
  | EmptyString => true
  | String c r => p c && all_chars p r
  end.

(** A minus sign, a digit or a point. *)
Definition numeric_char (c : ascii) : bool :=
  Ascii.eqb c "-" || is_digit c || Ascii.eqb c ".".

(** The characters the pattern built from the decimal mark [d] drops. *)
Definition dropped (d : ascii) (c : ascii) : bool :=
  negb (Ascii.eqb c "-" || is_digit c || Ascii.eqb c d).

(** Not an opening parenthesis. *)
Definition not_open (c : ascii) : bool := negb (Ascii.eqb c "(").

(** Neither an opening parenthesis nor a line terminator. *)
Definition inline_char (c : ascii) : bool :=
  not_open c && negb (is_line_terminator c).

(** Options that set [precision] and nothing else. *)
Definition with_precision (p : Z) : options :=
  {| o_symbol := None; o_separator := None; o_decimal := None;
     o_formatWithSymbol := None; o_errorOnInvalid := None;
     o_precision := Some p; o_pattern := None; o_negativePattern := None;
     o_increment := None; o_useVedic := None; o_groups := None |}.

(** The store after [new Currency(1, { precision: 101 })] on an empty
    one. *)
Definition one_at_precision_101 : store :=
  constructed empty_store (Object_assign defaults (with_precision 101))
    (pow 101).

(** A computation that prints nothing. *)
Definition quiet {A : Type} (m : M A) : Prop :=
  forall h r h', m h = (r, h') -> console h' = console h.

(** Options that set [useVedic], or nothing when it is absent. *)
Definition vedic_options (v : option bool) : options :=
  {| o_symbol := None; o_separator := None; o_decimal := None;
     o_formatWithSymbol := None; o_errorOnInvalid := None;
     o_precision := None; o_pattern := None; o_negativePattern := None;
     o_increment := None; o_useVedic := v; o_groups := None |}.

(** Whether a separator follows a digit that has [n] more digits after
    it: in threes from the right, or, for the vedic style, in pairs once
    the last three digits are set apart. *)
Definition separator_due (g : regex) (n : nat) : bool :=
  match g with
  | groupRegex => Nat.leb 3 n && Nat.eqb (n mod 3) 0
  | vedicRegex => Nat.leb 3 n && Nat.eqb (n mod 2) 1
  end.

(** A run of digits with the separator put in by position. *)
Fixpoint grouped (g : regex) (sep d : string) : string :=
  match d with
  | EmptyString => EmptyString
  | String c r =>
      String c ((if separator_due g (String.length r) then sep else EmptyString)
                ++ grouped g sep r)
  end.

(** Not a dollar sign, the one character a replacement text gives a
    meaning to. *)
Definition not_dollar (c : ascii) : bool := negb (Ascii.eqb c "$").

(** The store after [new Currency(1234567.5, { useVedic: true })] on an
    empty one. *)
Definition vedic_amount : store :=
  constructed empty_store (Object_assign defaults (vedic_options (Some true)))
    (of_Z 123456750).

(** The text of an amount of [z] minor units at precision 2. *)
Definition amount_text (z : Z) : string :=
  if (z <? 0)%Z then "-" ++ fixed_digits 2 (Z.to_N (Z.abs z))
  else fixed_digits 2 (Z.to_N (Z.abs z)).

(** The characters of a decimal literal with an exponent. *)
Definition literal_char (c : ascii) : bool :=
  numeric_char c || Ascii.eqb c "e" || Ascii.eqb c "+".

(** Not a digit; a minus sign or a point. *)
Definition no_digit (c : ascii) : bool := negb (is_digit c).

Definition sign_or_point (c : ascii) : bool :=
  Ascii.eqb c "-" || Ascii.eqb c ".".

(** Options that set [decimal] and nothing else. *)
Definition with_decimal (d : ascii) : options :=
  {| o_symbol := None; o_separator := None; o_decimal := Some d;
     o_formatWithSymbol := None; o_errorOnInvalid := None;
     o_precision := None; o_pattern := None; o_negativePattern := None;
     o_increment := None; o_useVedic := None; o_groups := None |}.

(** * Properties *)

Local Open Scope Z_scope.

Arguments binary64 : simpl never.
Arguments nadd : simpl never.
Arguments nsub : simpl never.
Arguments nmul : simpl never.
Arguments ndiv : simpl never.
Arguments nrem : simpl never.
Arguments pow : simpl never.
Arguments round : simpl never.
Arguments toFixed : simpl never.
Arguments to_number : simpl never.
Arguments RegExp_decimal : simpl never.

(** ** Sample evaluations *)

Example binary64_samples :
  nadd (to_number "0.1") (to_number "0.2") = to_number "0.30000000000000004"
  /\ nadd (to_number "0.1") (to_number "0.2") <> to_number "0.3"
  /\ nadd (of_Z (2 ^ 53)) (of_Z 1) = of_Z (2 ^ 53)
  /\ nadd (of_Z (2 ^ 53 + 2)) (of_Z 1) = of_Z (2 ^ 53 + 4)
  /\ ndiv (of_Z (2 ^ 53 - 1)) (of_Z 2) = fin (9007199254740991 # 2)
  /\ nmul (to_number "1e308") (of_Z 100) = PInf
  /\ ndiv (of_Z 500) NZero = NInf
  /\ nmul (of_Z 0) (of_Z (-5)) = NZero
  /\ nsub (of_Z 5) (of_Z 5) = of_Z 0
  /\ ndiv (of_Z 1) (of_Z 100) = fin (5764607523034235 # 576460752303423488)
  /\ pow 2 = of_Z 100
  /\ pow 22 = of_Z (10 ^ 22)
  /\ pow 309 = PInf
  /\ pow (-324) = of_Z 0
  /\ round (to_number "-0.2") = NZero
  /\ round (to_number "2.5") = of_Z 3
  /\ round (to_number "-2.5") = of_Z (-2)
  /\ rounding (to_number "0.125") (to_number "0.05")
     = to_number "0.15000000000000002".
Proof. vm_compute. repeat split; discriminate. Qed.

Example toFixed_samples :
  toFixed 2 (fin (-3 # 2)) = Ok "-1.50"
  /\ toFixed 2 (to_number "1.005") = Ok "1.00"
  /\ toFixed 4 (to_number "0.00005") = Ok "0.0001"
  /\ toFixed 4 (to_number "-0.00001") = Ok "-0.0000"
  /\ toFixed 4 NZero = Ok "0.0000"
  /\ toFixed 0 (fin (5 # 2)) = Ok "3"
  /\ toFixed 2 (of_Z (10 ^ 21)) = Ok "1e+21"
  /\ toFixed 2 (to_number "1.23e22") = Ok "1.23e+22"
  /\ toFixed 2 (of_Z (2 ^ 70)) = Ok "1.1805916207174113e+21"
  /\ toFixed 2 (to_number "1e23") = Ok "1e+23"
  /\ toFixed 101 (of_Z 1) = Throw RangeError
  /\ to_number "1.23e+22" = of_Z 12300000000000001048576
  /\ to_number "-12.50" = fin (-25 # 2)
  /\ to_number "  0x1F " = of_Z 31
  /\ to_number "-0" = NZero
  /\ to_number "1.2.3" = NaN
  /\ to_number "-" = NaN
  /\ to_number ".5" = fin (1 # 2).
Proof. vm_compute. repeat split. Qed.

Example parse_samples :
  parse (VNum (to_number "12.34")) defaults true = Ok (of_Z 1234)
  /\ parse (VStr "(1.99)") defaults true = Ok (of_Z (-199))
  /\ parse (VStr "$1,234.567") defaults true = Ok (of_Z 123457)
  /\ parse (VStr "abc") defaults true = Ok (of_Z 0)
  /\ parse (VStr "1-2") defaults true = Ok (of_Z 0)
  /\ parse (VStr "-0.001") defaults true = Ok NZero
  /\ parse (VStr "45035996273704.95") defaults true = Ok (of_Z (2 ^ 52))
  /\ parse (VNum (of_Z 3)) defaults false = Ok (of_Z 300)
  /\ parse (VNum (to_number "1e308")) defaults true = Ok PInf
  /\ parse (VCurrency 0%nat) defaults true = Ok NaN
  /\ parse VNull defaults true = Ok (of_Z 0).
Proof. vm_compute. repeat split. Qed.

Example format_samples :
  eval (c <- new_Currency (VNum (fin (12345 # 10))) no_options ;; format c (Some true))
       empty_store = Ok "$1,234.50"
  /\ eval (c <- new_Currency (VNum (fin (-12345 # 10))) no_options ;; format c (Some true))
       empty_store = Ok "-$1,234.50"
  /\ eval (c <- new_Currency (VNum (of_Z 1234567)) no_options ;; format c None)
       empty_store = Ok "1,234,567.00"
  /\ eval (c <- new_Currency (VNum (fin (5 # 2))) no_options ;;
           d <- multiply c (of_Z 3) ;; toString d) empty_store = Ok "7.50"
  /\ eval (c <- new_Currency (VNum (of_Z 10)) no_options ;;
           d <- divide c (VNum (of_Z 3)) ;; toString d) empty_store = Ok "3.33"
  /\ eval (c <- new_Currency (VStr "1.10") no_options ;;
           d <- add c (VStr "2.25") ;; e <- subtract d (VNum (of_Z 1)) ;; toString e)
       empty_store = Ok "2.35".
Proof. vm_compute. repeat split. Qed.

(** ** The store only grows *)

Lemma extends_refl h : extends h h.
Proof.
  repeat split; exists []; now rewrite app_nil_r.
Qed.

Lemma extends_trans h1 h2 h3 : extends h1 h2 -> extends h2 h3 -> extends h1 h3.
Proof.
  intros [[c1 E1] [[s1 F1] [n1 G1]]] [[c2 E2] [[s2 F2] [n2 G2]]].
  repeat split.
  - exists (c1 ++ c2)%list. now rewrite E2, E1, app_assoc.
  - exists (s1 ++ s2)%list. now rewrite F2, F1, app_assoc.
  - exists (n1 ++ n2)%list. now rewrite G2, G1, app_assoc.
Qed.

Lemma extends_instance_at h h' l c :
  extends h h' -> instance_at h l = Some c -> instance_at h' l = Some c.
Proof.
  intros [[cs E] _] H. unfold instance_at in *. rewrite E.
  rewrite nth_error_app1; [assumption|].
  apply nth_error_Some. congruence.
Qed.

Lemma extends_settings_at h h' l s :
  extends h h' -> settings_at h l = Some s -> settings_at h' l = Some s.
Proof.
  intros [_ [[ss E] _]] H. unfold settings_at in *. rewrite E.
  rewrite nth_error_app1; [assumption|].
  apply nth_error_Some. congruence.
Qed.

Lemma grows_ret {A} (a : A) : grows (ret a).
Proof. intros h r h' [= _ <-]. apply extends_refl. Qed.

Lemma grows_lift {A} (r : result A) : grows (lift r).
Proof. intros h r' h' [= _ <-]. apply extends_refl. Qed.

Lemma grows_bind {A B} (m : M A) (k : A -> M B) :
  grows m -> (forall a, grows (k a)) -> grows (bind m k).
Proof.
  intros Hm Hk h r h'. unfold bind.
  destruct (m h) as [[a|e] h1] eqn:E.
  - intros Hka. eapply extends_trans; [eapply Hm; eassumption|].
    eapply Hk; eassumption.
  - intros [= _ <-]. eapply Hm; eassumption.
Qed.

Lemma grows_get_instance l : grows (get_instance l).
Proof.
  intros h r h'. unfold get_instance.
  destruct (nth_error _ _); intros [= _ <-]; apply extends_refl.
Qed.

Lemma grows_get_settings l : grows (get_settings l).
Proof.
  intros h r h'. unfold get_settings.
  destruct (nth_error _ _); intros [= _ <-]; apply extends_refl.
Qed.

Lemma grows_alloc_settings s : grows (alloc_settings s).
Proof.
  intros h r h' [= _ <-]. repeat split; simpl;
    [exists [] | exists [s] | exists []]; now rewrite ?app_nil_r.
Qed.

Lemma grows_alloc_instance c : grows (alloc_instance c).
Proof.
  intros h r h' [= _ <-]. repeat split; simpl;
    [exists [c] | exists [] | exists []]; now rewrite ?app_nil_r.
Qed.

Lemma grows_console_log n : grows (console_log n).
Proof.
  intros h r h' [= _ <-]. repeat split; simpl;
    [exists [] | exists [] | exists [n]]; now rewrite ?app_nil_r.
Qed.

Create HintDb grows discriminated.
#[local] Hint Resolve grows_ret grows_lift grows_get_instance grows_get_settings
  grows_alloc_settings grows_alloc_instance grows_console_log : grows.

Ltac grows_steps :=
  repeat first
    [ apply grows_bind; [| intros ?]
    | solve [auto with grows] ].

Lemma grows_new_Currency v opts : grows (new_Currency v opts).
Proof. unfold new_Currency. grows_steps. Qed.

Lemma grows_new_Currency_with v ls : grows (new_Currency_with v ls).
Proof. unfold new_Currency_with. grows_steps. Qed.

#[local] Hint Resolve grows_new_Currency grows_new_Currency_with : grows.

Lemma grows_add l x : grows (add l x).
Proof. unfold add. grows_steps. Qed.

Lemma grows_subtract l x : grows (subtract l x).
Proof. unfold subtract. grows_steps. Qed.

Lemma grows_multiply l x : grows (multiply l x).
Proof. unfold multiply. grows_steps. Qed.

Lemma grows_divide l x : grows (divide l x).
Proof. unfold divide. grows_steps. Qed.

#[local] Hint Resolve grows_add grows_subtract grows_multiply grows_divide : grows.

Lemma grows_distribute_item c split pennies : grows (distribute_item c split pennies).
Proof.
  unfold distribute_item. grows_steps.
  destruct (ngt0 pennies); [destruct (nge0 (intValue c))|]; auto with grows.
Qed.

Lemma grows_dollars l : grows (dollars l).
Proof. unfold dollars. grows_steps. Qed.

Lemma grows_cents l : grows (cents l).
Proof. unfold cents. grows_steps. Qed.

Lemma grows_toString l : grows (toString l).
Proof. unfold toString. grows_steps. Qed.

Lemma grows_toJSON l : grows (toJSON l).
Proof. unfold toJSON. grows_steps. Qed.

Lemma grows_format l u : grows (format l u).
Proof. unfold format. grows_steps. Qed.

Lemma distribute_loop_extends fuel c split :
  forall count pennies dist h r h',
    distribute_loop fuel c split count pennies dist h = Some (r, h') ->
    extends h h'.
Proof.
  induction fuel as [|fuel IH]; intros count pennies dist h r h'; simpl.
  - discriminate.
  - destruct (nonzero count).
    + destruct (distribute_item c split pennies h) as [[item|e] h1] eqn:E.
      * intros H. eapply extends_trans; [|eapply IH; eassumption].
        eapply grows_distribute_item; eassumption.
      * intros [= _ <-]. eapply grows_distribute_item; eassumption.
    + intros [= _ <-]. apply extends_refl.
Qed.

Lemma distribute_extends fuel l count h r h' :
  distribute fuel l count h = Some (r, h') -> extends h h'.
Proof.
  unfold distribute, get_instance.
  destruct (nth_error (instances h) l).
  - apply distribute_loop_extends.
  - intros [= _ <-]. apply extends_refl.
Qed.

Lemma answering_extends {A} (f : A -> answer) (m : M A) h r h' :
  grows m -> answering f m h = Some (r, h') -> extends h h'.
Proof.
  intros G. unfold answering. destruct (m h) as [[a|e] h1] eqn:E;
    intros [= _ <-]; eapply G; eassumption.
Qed.

Lemma call_extends m l h r h' :
  call m l h = Some (r, h') -> extends h h'.
Proof.
  destruct m; simpl;
    try (apply answering_extends;
         auto using grows_dollars, grows_cents, grows_format,
           grows_toString, grows_toJSON with grows).
  destruct (distribute fuel l count h) as [[[ls|e] h1]|] eqn:E;
    intros [= _ <-]; eapply distribute_extends; eassumption.
Qed.

(** ** The constructor *)

Lemma new_Currency_unfold v opts h :
  new_Currency v opts h =
  let s := Object_assign defaults opts in
  match parse (match v with VCurrency _ => VUndefined | _ => v end) s true with
  | Ok n => (Ok (List.length (instances h)), constructed h s n)
  | Throw e => (Throw e, h)
  end.
Proof.
  unfold new_Currency, bind, lift. cbv zeta.
  destruct (parse _ _ true); reflexivity.
Qed.

Lemma instance_at_constructed h s v :
  instance_at (constructed h s v) (List.length (instances h)) =
  Some {| intValue := v;
          value := ndiv v (pow (precision s));
          _settings := List.length (configs h);
          _precision := pow (precision s) |}.
Proof.
  unfold instance_at, constructed; simpl.
  rewrite nth_error_app2, Nat.sub_diag by lia. reflexivity.
Qed.

Lemma settings_at_constructed h s v :
  settings_at (constructed h s v) (List.length (configs h)) = Some (completed s).
Proof.
  unfold settings_at, constructed; simpl.
  rewrite nth_error_app2, Nat.sub_diag by lia. reflexivity.
Qed.

Lemma instance_at_fresh h : instance_at h (List.length (instances h)) = None.
Proof. apply nth_error_None. apply Nat.le_refl. Qed.

(** The instance the constructor returns is one the store did not hold. *)
Lemma new_Currency_fresh v opts h l h' :
  new_Currency v opts h = (Ok l, h') ->
  instance_at h l = None /\ exists c, instance_at h' l = Some c.
Proof.
  rewrite new_Currency_unfold. cbv zeta.
  destruct (parse _ _ true) as [n|e]; [|discriminate].
  intros [= <- <-]. split.
  - apply instance_at_fresh.
  - eexists. apply instance_at_constructed.
Qed.

Lemma new_Currency_with_fresh v ls h l h' :
  new_Currency_with v ls h = (Ok l, h') ->
  instance_at h l = None /\ exists c, instance_at h' l = Some c.
Proof.
  unfold new_Currency_with, bind, get_settings.
  destruct (nth_error (configs h) ls); [|discriminate].
  apply new_Currency_fresh.
Qed.

(** Each arithmetic operation ends in a call of the constructor. *)
Lemma arithmetic_fresh m this h l' h' :
  is_arithmetic m = true ->
  call m this h = Some (Ok (an_instance l'), h') ->
  instance_at h l' = None /\ exists c, instance_at h' l' = Some c.
Proof.
  destruct m; try discriminate; intros _; simpl; unfold answering;
    [ destruct (add this number h) as [[l|e] h1] eqn:E
    | destruct (subtract this number h) as [[l|e] h1] eqn:E
    | destruct (multiply this number h) as [[l|e] h1] eqn:E
    | destruct (divide this number h) as [[l|e] h1] eqn:E ];
    intros [= <- <-];
    revert E;
    unfold add, subtract, multiply, divide, bind, get_instance, get_settings, lift;
    destruct (nth_error (instances h) this) as [c|]; try discriminate;
    destruct (nth_error (configs h) (_settings c)) as [s|]; try discriminate;
    try (destruct (parse number s _) as [p|e0]; try discriminate);
    apply new_Currency_with_fresh.
Qed.

(** ** C4: operations leave the receiver as it was *)

(** C4.  Whatever operation is called on an instance, and however the
    call ends, the receiver's fields ([intValue], [value], [_settings],
    [_precision]) and the content of its settings object are afterwards
    what they were before.  When [add], [subtract], [multiply] or [divide]
    returns, the instance returned is one the store did not hold before
    the call, hence not the receiver. *)
Theorem receiver_unchanged (m : method) (this : loc) (h : store)
    (c : Currency) (s : settings) (r : result answer) (h' : store) :
  instance_at h this = Some c ->
  settings_at h (_settings c) = Some s ->
  call m this h = Some (r, h') ->
  instance_at h' this = Some c
  /\ settings_at h' (_settings c) = Some s
  /\ (is_arithmetic m = true ->
      forall l', r = Ok (an_instance l') ->
                 l' <> this
                 /\ instance_at h l' = None
                 /\ exists c', instance_at h' l' = Some c').
Proof.
  intros Hc Hs Hcall.
  pose proof (call_extends _ _ _ _ _ Hcall) as E.
  split; [eapply extends_instance_at; eassumption|].
  split; [eapply extends_settings_at; eassumption|].
  intros Ha l' ->.
  destruct (arithmetic_fresh _ _ _ _ _ Ha Hcall) as [Hnew Hthere].
  repeat split; try assumption.
  intros ->. congruence.
Qed.

Lemma receiver_unchanged_witness :
  exists c s h',
    instance_at five_dollars 0%nat = Some c
    /\ settings_at five_dollars (_settings c) = Some s
    /\ call (m_add (VNum (of_Z 1))) 0%nat five_dollars
       = Some (Ok (an_instance 1%nat), h')
    /\ instance_at h' 0%nat = Some c
    /\ settings_at h' (_settings c) = Some s
    /\ 1%nat <> 0%nat.
Proof.
  do 3 eexists.
  assert (H1 : instance_at five_dollars 0%nat
               = Some (Build_Currency (of_Z 500) (of_Z 5) 0%nat (of_Z 100)))
    by (vm_compute; reflexivity).
  assert (H2 : settings_at five_dollars 0%nat
               = Some (completed (Object_assign defaults no_options)))
    by (vm_compute; reflexivity).
  assert (H3 : call (m_add (VNum (of_Z 1))) 0%nat five_dollars
               = Some (Ok (an_instance 1%nat),
                       constructed five_dollars
                         (completed (Object_assign defaults no_options))
                         (of_Z 600)))
    by (vm_compute; reflexivity).
  destruct (receiver_unchanged _ _ _ _ _ _ _ H1 H2 H3) as [A [B C]].
  destruct (C eq_refl 1%nat eq_refl) as [D _].
  split; [exact H1|]. split; [exact H2|]. split; [exact H3|].
  split; [exact A|]. split; [exact B | exact D].
Defined.

(** ** The parser and its one error *)

Lemma toFixed_4 x : exists s, toFixed 4 x = Ok s.
Proof. unfold toFixed. destruct x; cbn [Z.ltb Z.compare orb]; eexists; reflexivity. Qed.

Lemma get_instance_at h l c :
  instance_at h l = Some c -> get_instance l h = (Ok c, h).
Proof. unfold instance_at, get_instance. now intros ->. Qed.

Lemma get_settings_at h l s :
  settings_at h l = Some s -> get_settings l h = (Ok s, h).
Proof. unfold settings_at, get_settings. now intros ->. Qed.

(** [parse] throws [InvalidInput] exactly on an argument that is not a
    number, a string or an instance, when [errorOnInvalid] is set. *)
Lemma finish_ok r v : exists n, finish r v = Ok n.
Proof.
  unfold finish. destruct (toFixed_4 v) as [t ->]. cbn [bind_result].
  eexists; reflexivity.
Qed.

Lemma parse_number n s r :
  parse (VNum n) s r = finish r (nmul n (pow (precision s))).
Proof. reflexivity. Qed.

Lemma parse_string t s r :
  parse (VStr t) s r
  = try regex <- RegExp_non_numeric (decimal s);
    try decimalString <- RegExp_decimal (decimal s);
    let v := nmul (to_number (decimalString (regex (replace_parens t))))
               (pow (precision s)) in
    finish r (if truthy v then v else of_Z 0).
Proof.
  unfold parse. cbv zeta.
  destruct (RegExp_non_numeric (decimal s)); [|reflexivity].
  destruct (RegExp_decimal (decimal s)); reflexivity.
Qed.

Lemma parse_string_ok t s r :
  decimal s <> "092"%char -> exists v, parse (VStr t) s r = Ok v.
Proof.
  intros H. rewrite parse_string. unfold RegExp_non_numeric, RegExp_decimal.
  destruct (Ascii.eqb_spec (decimal s) "092"); [contradiction|].
  destruct (Ascii.eqb (decimal s) "]"); cbn [bind_result]; apply finish_ok.
Qed.

Lemma parse_string_not_InvalidInput t s r : parse (VStr t) s r <> Throw InvalidInput.
Proof.
  rewrite parse_string. unfold RegExp_non_numeric, RegExp_decimal.
  destruct (Ascii.eqb (decimal s) "092"); [discriminate|].
  destruct (Ascii.eqb (decimal s) "]"); cbn [bind_result];
    match goal with
    | |- finish ?r ?v <> _ => destruct (finish_ok r v) as [y ->]
    end; discriminate.
Qed.

(** [parse] throws [InvalidInput] exactly on an argument that is not a
    number, a string or an instance, when [errorOnInvalid] is set. *)
Lemma parse_InvalidInput_iff v s r :
  parse v s r = Throw InvalidInput <->
  errorOnInvalid s = true
  /\ (forall n, v <> VNum n) /\ (forall t, v <> VStr t) /\ (forall l, v <> VCurrency l).
Proof.
  split.
  - destruct v as [| |b|n|t|l];
      try (unfold parse; cbv zeta; destruct (errorOnInvalid s);
           [|cbn [bind_result]; destruct (finish_ok r (of_Z 0)) as [y Hy];
             unfold finish in Hy; rewrite Hy; discriminate];
           intros _; repeat split; intros; discriminate).
    + rewrite parse_number. destruct (finish_ok r (nmul n (pow (precision s)))) as [y ->].
      discriminate.
    + intros H. now apply parse_string_not_InvalidInput in H.
    + unfold parse. cbv zeta. cbn [bind_result].
      match goal with
      | |- context [toFixed 4 ?x] => destruct (toFixed_4 x) as [y ->]
      end.
      discriminate.
  - intros [He [Hn [Ht Hl]]].
    destruct v as [| |b|n|t|l]; unfold parse; cbv zeta; rewrite ?He; try reflexivity.
    + now elim (Hn n).
    + now elim (Ht t).
    + now elim (Hl l).
Qed.


Lemma parse_undefined s :
  parse VUndefined s true
  = if errorOnInvalid s then Throw InvalidInput else Ok (of_Z 0).
Proof.
  unfold parse. cbv zeta. destruct (errorOnInvalid s); reflexivity.
Qed.

(** ** C3: an instance handed to [parse] *)

Lemma parse_instance l s r : parse (VCurrency l) s r = Ok NaN.
Proof.
  unfold parse. cbv zeta. simpl. destruct r; reflexivity.
Qed.

(** C3.  For an instance argument [parse] reads the [value] field of the
    prototype and never the instance: two instances with different amounts
    parse to the same result, the one obtained from the prototype's field
    alone. *)
Theorem parse_reads_prototype (h : store) (a b : loc) (ca cb : Currency)
    (config : settings) (useRounding : bool) :
  instance_at h a = Some ca ->
  instance_at h b = Some cb ->
  intValue ca <> intValue cb ->
  parse (VCurrency a) config useRounding = parse (VCurrency b) config useRounding
  /\ parse (VCurrency a) config useRounding
     = parse (VNum (number_of Currency_prototype_value)) config useRounding.
Proof.
  intros _ _ _. rewrite !parse_instance. split; [reflexivity|].
  unfold parse. cbv zeta. simpl. destruct useRounding; reflexivity.
Qed.

Lemma parse_reads_prototype_witness :
  let h := constructed five_dollars (Object_assign defaults no_options) (of_Z 700) in
  parse (VCurrency 0%nat) defaults true = parse (VCurrency 1%nat) defaults true
  /\ parse (VCurrency 0%nat) defaults true
     = parse (VNum (number_of Currency_prototype_value)) defaults true.
Proof.
  intros h.
  apply (parse_reads_prototype h 0%nat 1%nat
           (Build_Currency (of_Z 500) (of_Z 5) 0%nat (of_Z 100))
           (Build_Currency (of_Z 700) (of_Z 7) 1%nat (of_Z 100))).
  - vm_compute; reflexivity.
  - vm_compute; reflexivity.
  - vm_compute. discriminate.
Defined.

(** ** C10 and C2: an instance handed to the constructor *)

(** C10.  The constructor, given an instance, parses [undefined]: with
    [errorOnInvalid] off it returns a new instance whose [intValue] is 0,
    whatever the amount of the argument, and with [errorOnInvalid] on it
    throws [InvalidInput] and the store is as before. *)
Theorem constructor_drops_instance (h : store) (l : loc) (opts : options) :
  (errorOnInvalid (Object_assign defaults opts) = false ->
   exists l' h',
     new_Currency (VCurrency l) opts h = (Ok l', h')
     /\ intValue_at h' l' = Some (of_Z 0))
  /\ (errorOnInvalid (Object_assign defaults opts) = true ->
      new_Currency (VCurrency l) opts h = (Throw InvalidInput, h)).
Proof.
  rewrite new_Currency_unfold. cbv zeta. rewrite parse_undefined.
  split; intros ->.
  - do 2 eexists. split; [reflexivity|].
    unfold intValue_at. rewrite instance_at_constructed. reflexivity.
  - reflexivity.
Qed.

Lemma constructor_drops_instance_witness :
  (exists l' h',
      new_Currency (VCurrency 0%nat) (with_errorOnInvalid false) five_dollars
      = (Ok l', h')
      /\ intValue_at h' l' = Some (of_Z 0))
  /\ new_Currency (VCurrency 0%nat) (with_errorOnInvalid true) five_dollars
     = (Throw InvalidInput, five_dollars).
Proof.
  split.
  - apply (constructor_drops_instance five_dollars 0%nat (with_errorOnInvalid false)).
    reflexivity.
  - apply (constructor_drops_instance five_dollars 0%nat (with_errorOnInvalid true)).
    reflexivity.
Defined.

(** The constructor throws [InvalidInput] exactly when [errorOnInvalid] is
    set and its argument is neither a number nor a string: an instance
    is rejected like [null] or [undefined]. *)
Lemma constructor_InvalidInput_iff v opts h :
  eval (new_Currency v opts) h = Throw InvalidInput <->
  errorOnInvalid (Object_assign defaults opts) = true
  /\ (forall n, v <> VNum n) /\ (forall t, v <> VStr t).
Proof.
  unfold eval. rewrite new_Currency_unfold. cbv zeta.
  set (s := Object_assign defaults opts).
  set (this_value := match v with VCurrency _ => VUndefined | _ => v end).
  transitivity (parse this_value s true = Throw InvalidInput).
  { destruct (parse this_value s true); simpl; split; congruence. }
  rewrite parse_InvalidInput_iff. unfold this_value.
  split.
  - intros [He [Hn [Ht _]]]. split; [exact He|].
    split; intros x ->; [now elim (Hn x) | now elim (Ht x)].
  - intros [He [Hn Ht]]. split; [exact He|].
    destruct v as [| |b|n|t|l]; repeat split; intros; try discriminate;
      first [now elim (Hn n) | now elim (Ht t)].
Qed.

(** C2.  The constructor is documented to take a number, a string or a
    [Currency]; on a [Currency], with [errorOnInvalid] set, it throws
    [InvalidInput]. *)
Theorem constructor_rejects_instance :
  eval (a <- new_Currency (VNum (of_Z 5)) no_options ;;
        new_Currency (VCurrency a) (with_errorOnInvalid true))
       empty_store
  = Throw InvalidInput.
Proof. vm_compute. reflexivity. Qed.

(** ** C7: a string without digits *)

Lemma toString_constructed h s v :
  toString (List.length (instances h)) (constructed h s v)
  = (toFixed (precision s)
       (rounding (ndiv v (pow (precision s)))
          (default_increment s (pow (precision s)))),
     constructed h s v).
Proof.
  unfold toString, bind.
  rewrite (get_instance_at _ _ _ (instance_at_constructed h s v)). simpl.
  rewrite (get_settings_at _ _ _ (settings_at_constructed h s v)).
  reflexivity.
Qed.

Lemma abc_strict_no_error :
  ~ (eval (c <- new_Currency (VStr "abc") (with_errorOnInvalid false) ;; toString c)
          empty_store = Ok "0.00"
     /\ eval (new_Currency (VStr "abc") (with_errorOnInvalid true)) empty_store
        = Throw InvalidInput).
Proof. vm_compute. intros [_ H]. discriminate H. Qed.

(** C7, amended.  Constructing from the string ["abc"] never throws: with
    [errorOnInvalid] off and with it on alike, the value is zero and its
    [toString()] is ["0.00"] under the default configuration. *)
Theorem abc_is_zero (h : store) (b : bool) :
  eval (c <- new_Currency (VStr "abc") (with_errorOnInvalid b) ;; toString c) h
  = Ok "0.00".
Proof.
  unfold eval, bind. rewrite new_Currency_unfold. cbv zeta.
  replace (parse (VStr "abc") (Object_assign defaults (with_errorOnInvalid b)) true)
    with (@Ok num (of_Z 0)) by (vm_compute; reflexivity).
  rewrite toString_constructed. destruct b; vm_compute; reflexivity.
Qed.

(** ** Rounding to binary64 *)

Lemma two_to_pos e : (0 < two_to e)%Q.
Proof. apply Qpower_0_lt. reflexivity. Qed.

Lemma two_to_plus a b : (two_to (a + b) == two_to a * two_to b)%Q.
Proof. apply Qpower_plus. discriminate. Qed.

Lemma two_to_Z e : 0 <= e -> (two_to e == inject_Z (2 ^ e))%Q.
Proof. intros H. unfold two_to. now rewrite Zpower_Qpower. Qed.

Lemma two_to_succ e : (two_to (e + 1) == 2 * two_to e)%Q.
Proof. rewrite two_to_plus. change (two_to 1) with 2%Q. ring. Qed.

Lemma two_to_pred e : (two_to (e - 1) == two_to e * (1 # 2))%Q.
Proof.
  replace (e - 1) with (e + -1) by ring. rewrite two_to_plus. reflexivity.
Qed.

Lemma two_to_le a b : a <= b -> (two_to a <= two_to b)%Q.
Proof.
  intros H. replace b with (a + (b - a)) by ring. rewrite two_to_plus.
  rewrite (two_to_Z (b - a)) by lia.
  assert (1 <= 2 ^ (b - a)) by (apply Z.pow_le_mono_r with (b := 0) (c := b - a); lia).
  pose proof (two_to_pos a).
  assert ((1 <= inject_Z (2 ^ (b - a)))%Q) by (unfold Qle; simpl; lia).
  nra.
Qed.

Lemma two_to_lt a b : a < b -> (two_to a < two_to b)%Q.
Proof.
  intros H. apply Qlt_le_trans with (two_to (a + 1)).
  - rewrite two_to_succ. pose proof (two_to_pos a). lra.
  - apply two_to_le. lia.
Qed.

Lemma two_to_lt_inv a b : (two_to a < two_to b)%Q -> a < b.
Proof.
  intros H. destruct (Z.lt_ge_cases a b) as [L|L]; [exact L|].
  apply two_to_le in L. lra.
Qed.

Lemma two_to_opp e : (two_to (- e) == / two_to e)%Q.
Proof. unfold two_to. apply Qpower_opp. Qed.

Lemma Qlog2_spec a :
  (0 < a)%Q -> (two_to (Qlog2 a) <= a < two_to (Qlog2 a + 1))%Q.
Proof.
  intros Ha. destruct a as [N D]. unfold Qlog2. cbn [Qnum Qden].
  assert (HN : 0 < N) by (unfold Qlt in Ha; simpl in Ha; lia).
  set (lN := Z.log2 N). set (lD := Z.log2 (Z.pos D)).
  assert (BN : 2 ^ lN <= N < 2 ^ (lN + 1)).
  { pose proof (Z.log2_spec N HN). unfold lN. now rewrite <- Z.add_1_r in *. }
  assert (BD : 2 ^ lD <= Z.pos D < 2 ^ (lD + 1)).
  { pose proof (Z.log2_spec (Z.pos D) ltac:(lia)). unfold lD.
    now rewrite <- Z.add_1_r in *. }
  assert (lN0 : 0 <= lN) by apply Z.log2_nonneg.
  assert (lD0 : 0 <= lD) by apply Z.log2_nonneg.
  assert (E : (N # D == inject_Z N / inject_Z (Z.pos D))%Q) by apply Qmake_Qdiv.
  assert (QN : (two_to lN <= inject_Z N < two_to (lN + 1))%Q).
  { rewrite (two_to_Z lN), (two_to_Z (lN + 1)) by lia.
    rewrite <- Zle_Qle, <- Zlt_Qlt. exact BN. }
  assert (QD : (two_to lD <= inject_Z (Z.pos D) < two_to (lD + 1))%Q).
  { rewrite (two_to_Z lD), (two_to_Z (lD + 1)) by lia.
    rewrite <- Zle_Qle, <- Zlt_Qlt. exact BD. }
  assert (PD : (0 < inject_Z (Z.pos D))%Q) by reflexivity.
  assert (U : (N # D < two_to (lN - lD + 1))%Q).
  { rewrite E. apply Qlt_shift_div_r; [exact PD|].
    replace (lN - lD + 1) with ((lN + 1) + - lD) by ring.
    rewrite two_to_plus, two_to_opp.
    pose proof (two_to_pos lD). pose proof (two_to_pos (lN + 1)).
    apply Qlt_le_trans with (two_to (lN + 1)); [apply QN|].
    setoid_replace (two_to (lN + 1) * / two_to lD * inject_Z (Z.pos D))%Q
      with (two_to (lN + 1) * (inject_Z (Z.pos D) / two_to lD))%Q by (field; lra).
    assert ((1 <= inject_Z (Z.pos D) / two_to lD)%Q).
    { apply Qle_shift_div_l; lra. }
    nra. }
  assert (L : (two_to (lN - lD - 1) < N # D)%Q).
  { rewrite E. apply Qlt_shift_div_l; [exact PD|].
    replace (lN - lD - 1) with (lN + - (lD + 1)) by ring.
    rewrite two_to_plus, two_to_opp.
    pose proof (two_to_pos (lD + 1)). pose proof (two_to_pos lN).
    apply Qlt_le_trans with (two_to lN); [|apply QN].
    setoid_replace (two_to lN * / two_to (lD + 1) * inject_Z (Z.pos D))%Q
      with (two_to lN * (inject_Z (Z.pos D) / two_to (lD + 1)))%Q by (field; lra).
    assert ((inject_Z (Z.pos D) / two_to (lD + 1) < 1)%Q).
    { apply Qlt_shift_div_r; lra. }
    nra. }
  destruct (Qle_bool (two_to (lN - lD)) (N # D)) eqn:C.
  - apply Qle_bool_iff in C. split; assumption.
  - assert (C' : (N # D < two_to (lN - lD))%Q).
    { apply Qnot_le_lt. intros G. apply Qle_bool_iff in G. congruence. }
    split.
    + apply Qlt_le_weak. exact L.
    + replace (lN - lD - 1 + 1) with (lN - lD) by ring. exact C'.
Qed.

Lemma Qlog2_unique a e :
  (two_to e <= a < two_to (e + 1))%Q -> Qlog2 a = e.
Proof.
  intros [L U].
  assert (Ha : (0 < a)%Q) by (pose proof (two_to_pos e); lra).
  destruct (Qlog2_spec a Ha) as [L' U'].
  assert (e < Qlog2 a + 1) by (apply two_to_lt_inv; lra).
  assert (Qlog2 a < e + 1) by (apply two_to_lt_inv; lra).
  lia.
Qed.

Lemma round_even_floor x : Qfloor x <= round_even x <= Qfloor x + 1.
Proof.
  unfold round_even.
  destruct (x - inject_Z (Qfloor x) ?= 1 # 2)%Q; [destruct (Z.even _)| |]; lia.
Qed.

Lemma round_even_bounds x :
  (inject_Z (round_even x) - (1 # 2) <= x <= inject_Z (round_even x) + (1 # 2))%Q.
Proof.
  unfold round_even.
  pose proof (Qfloor_le x) as L. pose proof (Qlt_floor x) as U.
  rewrite inject_Z_plus in U. change (inject_Z 1) with 1%Q in U.
  destruct (Qcompare_spec (x - inject_Z (Qfloor x)) (1 # 2)) as [E|E|E].
  - destruct (Z.even (Qfloor x)).
    + lra.
    + rewrite inject_Z_plus. change (inject_Z 1) with 1%Q. lra.
  - lra.
  - rewrite inject_Z_plus. change (inject_Z 1) with 1%Q. lra.
Qed.

Lemma round_even_Z z : round_even (inject_Z z) = z.
Proof.
  unfold round_even. rewrite Qfloor_Z.
  destruct (Qcompare_spec (inject_Z z - inject_Z z) (1 # 2)) as [E|E|E];
    [lra | reflexivity | lra].
Qed.

Lemma round_even_comp x y : (x == y)%Q -> round_even x = round_even y.
Proof.
  intros E. unfold round_even. rewrite (Qfloor_comp _ _ E).
  assert (C : (x - inject_Z (Qfloor y) ?= 1 # 2)%Q
              = (y - inject_Z (Qfloor y) ?= 1 # 2)%Q).
  { apply Qcompare_comp; [now rewrite E | reflexivity]. }
  now rewrite C.
Qed.

Lemma round_even_ge x k : (inject_Z k <= x)%Q -> k <= round_even x.
Proof.
  intros H. pose proof (round_even_floor x).
  assert (k <= Qfloor x).
  { rewrite <- (Qfloor_Z k). now apply Qfloor_resp_le. }
  lia.
Qed.

Lemma round_even_le x k : (x <= inject_Z k)%Q -> round_even x <= k.
Proof.
  intros H. pose proof (round_even_bounds x) as [L _].
  assert (G : (inject_Z (round_even x) < inject_Z (k + 1))%Q).
  { rewrite inject_Z_plus. change (inject_Z 1) with 1%Q. lra. }
  rewrite <- Zlt_Qlt in G.
  destruct (Z.eq_dec (round_even x) k) as [->|N]; [lia|].
  lia.
Qed.

Lemma round_even_lt x k : (x < inject_Z k - (1 # 2))%Q -> round_even x < k.
Proof.
  intros H. pose proof (round_even_bounds x) as [L _].
  rewrite Zlt_Qlt. lra.
Qed.

Lemma round_even_gt x k : (inject_Z k + (1 # 2) < x)%Q -> k < round_even x.
Proof.
  intros H. pose proof (round_even_bounds x) as [_ U].
  rewrite Zlt_Qlt. lra.
Qed.

Lemma ulp_exponent_spec a e :
  (two_to e <= a < two_to (e + 1))%Q -> ulp_exponent a = Z.max (e - 52) (-1074).
Proof. intros H. unfold ulp_exponent. now rewrite (Qlog2_unique a e H). Qed.

Lemma div_two_to a u : (a / two_to u * two_to u == a)%Q.
Proof. pose proof (two_to_pos u). field. lra. Qed.

Lemma round53_error a :
  (round53 a - two_to (ulp_exponent a - 1) <= a
   <= round53 a + two_to (ulp_exponent a - 1))%Q.
Proof.
  unfold round53. cbv zeta. set (u := ulp_exponent a).
  pose proof (round_even_bounds (a / two_to u)) as [L U].
  pose proof (two_to_pos u) as P. pose proof (div_two_to a u) as E.
  rewrite two_to_pred.
  set (n := inject_Z (round_even (a / two_to u))) in *.
  set (m := (a / two_to u)%Q) in *.
  set (t := two_to u) in *.
  assert (A1 : ((n - (1 # 2)) * t <= m * t)%Q)
    by (apply Qmult_le_compat_r; lra).
  assert (A2 : (m * t <= (n + (1 # 2)) * t)%Q)
    by (apply Qmult_le_compat_r; lra).
  rewrite E in A1, A2. split; lra.
Qed.

Lemma round53_nonneg a : (0 <= a)%Q -> (0 <= round53 a)%Q.
Proof.
  intros H. unfold round53. cbv zeta. set (u := ulp_exponent a).
  pose proof (two_to_pos u) as P.
  assert (0 <= round_even (a / two_to u)).
  { apply round_even_ge. apply Qle_shift_div_l; [exact P|].
    change (inject_Z 0) with 0%Q. lra. }
  assert ((0 <= inject_Z (round_even (a / two_to u)))%Q)
    by (change 0%Q with (inject_Z 0); now rewrite <- Zle_Qle).
  nra.
Qed.

Lemma Qlog2_normal a : (two_to (-1022) <= a)%Q -> -1022 <= Qlog2 a.
Proof.
  intros H.
  assert (Ha : (0 < a)%Q) by (pose proof (two_to_pos (-1022)); lra).
  destruct (Qlog2_spec a Ha) as [_ U].
  assert (-1022 < Qlog2 a + 1) by (apply two_to_lt_inv; lra).
  lia.
Qed.

Lemma round53_relative a :
  (two_to (-1022) <= a)%Q ->
  (a * (1 - two_to (-53)) <= round53 a <= a * (1 + two_to (-53)))%Q.
Proof.
  intros H. pose proof (Qlog2_normal a H) as N.
  assert (Ha : (0 < a)%Q) by (pose proof (two_to_pos (-1022)); lra).
  destruct (Qlog2_spec a Ha) as [L _].
  pose proof (round53_error a) as [E1 E2].
  unfold ulp_exponent in E1, E2.
  replace (Z.max (Qlog2 a - 52) (-1074) - 1) with (Qlog2 a + -53) in E1, E2 by lia.
  rewrite two_to_plus in E1, E2.
  pose proof (two_to_pos (-53)).
  split; nra.
Qed.

Lemma representable_normalize a :
  (0 < a)%Q -> representable a ->
  exists m u, 0 < m < 2 ^ 53 /\ -1074 <= u /\ (a == inject_Z m * two_to u)%Q.
Proof.
  intros Ha [m [u [Hm [Hu E]]]].
  assert (0 < m).
  { destruct (Z.lt_ge_cases 0 m) as [G|G]; [exact G|].
    assert ((inject_Z m <= 0)%Q)
      by (change 0%Q with (inject_Z 0); now rewrite <- Zle_Qle).
    pose proof (two_to_pos u). nra. }
  destruct (Z.eq_dec m (2 ^ 53)) as [->|N].
  - exists (2 ^ 52), (u + 1). split; [lia|]. split; [lia|].
    rewrite E, two_to_succ. change (inject_Z (2 ^ 53)) with (2 * inject_Z (2 ^ 52))%Q.
    ring.
  - exists m, u. split; [lia|]. split; assumption.
Qed.

Lemma round53_exact a : (0 < a)%Q -> representable a -> (round53 a == a)%Q.
Proof.
  intros Ha R. destruct (representable_normalize a Ha R) as [m [u0 [Hm [Hu E]]]].
  destruct (Qlog2_spec a Ha) as [L U]. set (e := Qlog2 a) in *.
  assert (Hlt : (a < two_to (u0 + 53))%Q).
  { rewrite E, two_to_plus. rewrite (two_to_Z 53) by lia.
    pose proof (two_to_pos u0).
    assert ((inject_Z m < inject_Z (2 ^ 53))%Q) by (rewrite <- Zlt_Qlt; lia).
    nra. }
  assert (He : e < u0 + 53) by (apply two_to_lt_inv; lra).
  unfold round53. cbv zeta. unfold ulp_exponent. fold e.
  set (u := Z.max (e - 52) (-1074)).
  assert (Hle : u <= u0) by lia.
  assert (D : (a / two_to u == inject_Z (m * 2 ^ (u0 - u)))%Q).
  { rewrite inject_Z_mult, <- (two_to_Z (u0 - u)) by lia.
    pose proof (two_to_pos u). rewrite E.
    replace u0 with ((u0 - u) + u) at 1 by ring. rewrite two_to_plus.
    field. lra. }
  rewrite (round_even_comp _ _ D), round_even_Z, <- D.
  apply div_two_to.
Qed.

Lemma scaled_Z k u :
  u <= 0 -> (inject_Z k / two_to u == inject_Z (k * 2 ^ (- u)))%Q.
Proof.
  intros H. rewrite inject_Z_mult, <- (two_to_Z (- u)) by lia.
  rewrite two_to_opp. reflexivity.
Qed.

Lemma round53_ge_Z a k :
  1 <= k <= 2 ^ 53 -> (inject_Z k <= a)%Q -> (inject_Z k <= round53 a)%Q.
Proof.
  intros Hk H.
  assert (K1 : (1 <= inject_Z k)%Q)
    by (change 1%Q with (inject_Z 1); rewrite <- Zle_Qle; lia).
  assert (Ha : (0 < a)%Q) by lra.
  destruct (Qlog2_spec a Ha) as [L U]. set (e := Qlog2 a) in *.
  unfold round53. cbv zeta. unfold ulp_exponent. fold e.
  set (u := Z.max (e - 52) (-1074)).
  pose proof (two_to_pos u) as P.
  destruct (Z.le_gt_cases u 0) as [Hu|Hu].
  - assert (G : k * 2 ^ (- u) <= round_even (a / two_to u)).
    { apply round_even_ge. rewrite <- scaled_Z by exact Hu.
      apply Qmult_le_compat_r; [exact H|].
      apply Qlt_le_weak, Qinv_lt_0_compat, P. }
    rewrite Zle_Qle, <- scaled_Z in G by exact Hu.
    apply (Qmult_le_compat_r _ _ (two_to u)) in G; [|lra].
    now rewrite div_two_to in G.
  - assert (Eu : u = e - 52) by lia.
    assert (G : 2 ^ 52 <= round_even (a / two_to u)).
    { apply round_even_ge. apply Qle_shift_div_l; [exact P|].
      rewrite <- (two_to_Z 52), <- two_to_plus by lia.
      replace (52 + u) with e by lia. exact L. }
    rewrite Zle_Qle in G.
    apply (Qmult_le_compat_r _ _ (two_to u)) in G; [|lra].
    apply Qle_trans with (inject_Z (2 ^ 52) * two_to u)%Q; [|exact G].
    rewrite <- (two_to_Z 52), <- two_to_plus by lia.
    apply Qle_trans with (two_to 53).
    + rewrite (two_to_Z 53) by lia. rewrite <- Zle_Qle. lia.
    + apply two_to_le. lia.
Qed.

Lemma representable_Z z : Z.abs z <= 2 ^ 53 -> representable (inject_Z z).
Proof.
  intros H. exists z, 0. split; [exact H|]. split; [lia|].
  change (two_to 0) with 1%Q. ring.
Qed.

Lemma round53_le_Z a k :
  (0 < a)%Q -> 1 <= k <= 2 ^ 53 -> (a <= inject_Z k)%Q ->
  (round53 a <= inject_Z k)%Q.
Proof.
  intros Ha Hk H.
  destruct (Qlog2_spec a Ha) as [L U]. set (e := Qlog2 a) in *.
  destruct (Z.le_gt_cases (Z.max (e - 52) (-1074)) 0) as [Hu|Hu].
  - unfold round53. cbv zeta. unfold ulp_exponent. fold e.
    set (u := Z.max (e - 52) (-1074)) in *.
    pose proof (two_to_pos u) as P.
    assert (G : round_even (a / two_to u) <= k * 2 ^ (- u)).
    { apply round_even_le. rewrite <- scaled_Z by exact Hu.
      apply Qmult_le_compat_r; [exact H|].
      apply Qlt_le_weak, Qinv_lt_0_compat, P. }
    rewrite Zle_Qle, <- scaled_Z in G by exact Hu.
    apply (Qmult_le_compat_r _ _ (two_to u)) in G; [|lra].
    now rewrite div_two_to in G.
  - assert (E53 : (two_to 53 <= a)%Q).
    { apply Qle_trans with (two_to e); [apply two_to_le; lia | exact L]. }
    assert (Ek : (inject_Z k <= two_to 53)%Q).
    { rewrite (two_to_Z 53) by lia. rewrite <- Zle_Qle. lia. }
    assert (Eq : (a == inject_Z k)%Q) by lra.
    assert (R : (round53 a == a)%Q).
    { apply round53_exact; [exact Ha|].
      destruct (representable_Z k ltac:(lia)) as [m [u [A [B C]]]].
      exists m, u. split; [exact A|]. split; [exact B|]. now rewrite Eq. }
    lra.
Qed.

Lemma round53_representable a : (0 < a)%Q -> representable (round53 a).
Proof.
  intros Ha. destruct (Qlog2_spec a Ha) as [L U]. set (e := Qlog2 a) in *.
  unfold round53. cbv zeta. unfold ulp_exponent. fold e.
  set (u := Z.max (e - 52) (-1074)).
  pose proof (two_to_pos u) as P.
  exists (round_even (a / two_to u)), u. split; [|split; [lia | reflexivity]].
  assert (0 <= round_even (a / two_to u)).
  { apply round_even_ge. apply Qle_shift_div_l; [exact P|].
    change (inject_Z 0) with 0%Q. lra. }
  assert (round_even (a / two_to u) <= 2 ^ 53).
  { apply round_even_le. apply Qle_shift_div_r; [exact P|].
    rewrite <- (two_to_Z 53), <- two_to_plus by lia.
    apply Qle_trans with (two_to (e + 1)); [lra|]. apply two_to_le. lia. }
  lia.
Qed.

Lemma Qis_zero_true q : Qis_zero q = true <-> (q == 0)%Q.
Proof.
  unfold Qis_zero, Qeq. simpl. rewrite Z.eqb_eq. lia.
Qed.

Lemma Qis_zero_false q : ~ (q == 0)%Q -> Qis_zero q = false.
Proof.
  intros H. apply not_true_is_false. now rewrite Qis_zero_true.
Qed.

Lemma Qis_neg_lt q : Qis_neg q = true <-> (q < 0)%Q.
Proof.
  unfold Qis_neg, Qlt. simpl. rewrite Z.ltb_lt. lia.
Qed.

Lemma Qis_neg_false q : (0 <= q)%Q -> Qis_neg q = false.
Proof.
  intros H. apply not_true_is_false. rewrite Qis_neg_lt. lra.
Qed.

Lemma Qis_neg_true q : (q < 0)%Q -> Qis_neg q = true.
Proof. apply Qis_neg_lt. Qed.

Lemma Qis_neg_Qred q : Qis_neg (Qred q) = Qis_neg q.
Proof.
  apply eq_true_iff_eq. rewrite !Qis_neg_lt. now rewrite Qred_correct.
Qed.

Lemma Qis_zero_Qred q : Qis_zero (Qred q) = Qis_zero q.
Proof.
  apply eq_true_iff_eq. rewrite !Qis_zero_true. now rewrite Qred_correct.
Qed.

Lemma Qabs_of_pos q : (0 < q)%Q -> Qabs q = q.
Proof.
  destruct q as [n d]. unfold Qlt, Qabs. simpl. intros H.
  f_equal. lia.
Qed.

Lemma Qabs_of_neg q : (q < 0)%Q -> Qabs q = (- q)%Q.
Proof.
  destruct q as [n d]. unfold Qlt, Qabs, Qopp. simpl. intros H.
  f_equal. lia.
Qed.

Lemma fin_eq p q : (p == q)%Q -> fin p = fin q.
Proof. intros H. unfold fin. f_equal. now apply Qred_complete. Qed.

Lemma Qred_inject_Z z : Qred (inject_Z z) = inject_Z z.
Proof.
  unfold Qred, inject_Z.
  pose proof (Z.ggcd_gcd z 1) as G. pose proof (Z.ggcd_correct_divisors z 1) as D.
  destruct (Z.ggcd z 1) as [g [a b]]. simpl in *.
  rewrite Z.gcd_1_r in G. subst g. destruct D as [-> D].
  rewrite Z.mul_1_l in D. subst b. now rewrite Z.mul_1_l.
Qed.

Lemma fin_inject_Z q z : (q == inject_Z z)%Q -> fin q = of_Z z.
Proof.
  intros H. rewrite (fin_eq _ _ H). unfold fin, of_Z.
  now rewrite Qred_inject_Z.
Qed.

Lemma binary64_zero b q : (q == 0)%Q -> binary64 b q = zero_of_sign b.
Proof.
  intros H. unfold binary64. apply Qis_zero_true in H. now rewrite H.
Qed.

Lemma binary64_pos b q :
  (0 < q)%Q ->
  binary64 b q
  = if Qis_zero (round53 q) then of_Z 0
    else if Qle_bool (two_to 1024) (round53 q) then PInf
    else fin (round53 q).
Proof.
  intros H. unfold binary64. cbv zeta.
  rewrite Qis_zero_false by lra. rewrite (Qabs_of_pos q H).
  rewrite (Qis_neg_false q) by lra. reflexivity.
Qed.

Lemma binary64_neg b q :
  (q < 0)%Q ->
  binary64 b q
  = if Qis_zero (round53 (- q)) then NZero
    else if Qle_bool (two_to 1024) (round53 (- q)) then NInf
    else fin (- round53 (- q)).
Proof.
  intros H. unfold binary64. cbv zeta.
  rewrite Qis_zero_false by lra. rewrite (Qabs_of_neg q H).
  rewrite (Qis_neg_true q H). reflexivity.
Qed.

Lemma binary64_normal b q :
  (two_to (-1022) <= q <= two_to 1023)%Q ->
  exists r,
    binary64 b q = Fin r /\ (r == round53 q)%Q
    /\ (q * (1 - two_to (-53)) <= r <= q * (1 + two_to (-53)))%Q.
Proof.
  intros [L U]. pose proof (two_to_pos (-1022)) as P.
  pose proof (round53_relative q L) as [R1 R2].
  assert (S : (two_to (-53) <= 1 # 2)%Q) by (apply (two_to_le (-53) (-1)); lia).
  pose proof (two_to_pos (-53)) as P53.
  rewrite binary64_pos by lra.
  rewrite Qis_zero_false by nra.
  assert (O : Qle_bool (two_to 1024) (round53 q) = false).
  { apply not_true_is_false. rewrite Qle_bool_iff.
    pose proof (two_to_succ 1023) as E. change (1023 + 1) with 1024 in E.
    pose proof (two_to_pos 1023). nra. }
  rewrite O. exists (Qred (round53 q)). split; [reflexivity|].
  split; [apply Qred_correct|]. rewrite Qred_correct. split; assumption.
Qed.

Lemma binary64_normal_neg b q :
  (- two_to 1023 <= q <= - two_to (-1022))%Q ->
  exists r,
    binary64 b q = Fin r /\ (r == - round53 (- q))%Q
    /\ (q * (1 + two_to (-53)) <= r <= q * (1 - two_to (-53)))%Q.
Proof.
  intros [L U]. pose proof (two_to_pos (-1022)) as P.
  assert (L' : (two_to (-1022) <= - q)%Q) by lra.
  pose proof (round53_relative (- q) L') as [R1 R2].
  assert (S : (two_to (-53) <= 1 # 2)%Q) by (apply (two_to_le (-53) (-1)); lia).
  pose proof (two_to_pos (-53)) as P53.
  rewrite binary64_neg by lra.
  rewrite Qis_zero_false by nra.
  assert (O : Qle_bool (two_to 1024) (round53 (- q)) = false).
  { apply not_true_is_false. rewrite Qle_bool_iff.
    pose proof (two_to_succ 1023) as E. change (1023 + 1) with 1024 in E.
    pose proof (two_to_pos 1023). nra. }
  rewrite O. exists (Qred (- round53 (- q))). split; [reflexivity|].
  split; [apply Qred_correct|]. rewrite Qred_correct. split; lra.
Qed.

Lemma representable_opp q : representable q -> representable (- q).
Proof.
  intros [m [u [A [B C]]]]. exists (- m), u. split; [lia|]. split; [exact B|].
  rewrite C, inject_Z_opp. ring.
Qed.

Lemma representable_comp p q : (p == q)%Q -> representable p -> representable q.
Proof.
  intros E [m [u [A [B C]]]]. exists m, u. split; [exact A|]. split; [exact B|].
  now rewrite <- E.
Qed.

Lemma binary64_double b q : double (binary64 b q).
Proof.
  unfold binary64. cbv zeta.
  destruct (Qis_zero q) eqn:Z0.
  - destruct b; cbn; [exact I|]. apply (representable_Z 0). lia.
  - assert (N : ~ (q == 0)%Q) by (rewrite <- Qis_zero_true; congruence).
    assert (A : (0 < Qabs q)%Q).
    { destruct (Qlt_le_dec 0 q) as [G|G].
      - now rewrite Qabs_of_pos.
      - assert (q < 0)%Q by (destruct (Qle_lt_or_eq _ _ G); [assumption|contradiction]).
        rewrite Qabs_of_neg by assumption. lra. }
    destruct (Qis_zero (round53 (Qabs q))).
    + destruct (Qis_neg q); cbn; [exact I|]. apply (representable_Z 0). lia.
    + destruct (Qle_bool _ _); [destruct (Qis_neg q); exact I|].
      cbn. pose proof (round53_representable _ A) as R.
      destruct (Qis_neg q).
      * eapply representable_comp; [symmetry; apply Qred_correct|].
        now apply representable_opp.
      * eapply representable_comp; [symmetry; apply Qred_correct|]. exact R.
Qed.

Lemma binary64_exact b q :
  representable q -> ~ (q == 0)%Q -> (Qabs q < two_to 1024)%Q ->
  binary64 b q = fin q.
Proof.
  intros R N B. destruct (Qlt_le_dec 0 q) as [G|G].
  - rewrite binary64_pos by exact G.
    pose proof (round53_exact q G R) as E.
    rewrite Qabs_of_pos in B by exact G.
    rewrite Qis_zero_false by lra.
    assert (O : Qle_bool (two_to 1024) (round53 q) = false).
    { apply not_true_is_false. rewrite Qle_bool_iff. lra. }
    rewrite O. now apply fin_eq.
  - assert (G' : (q < 0)%Q)
      by (destruct (Qle_lt_or_eq _ _ G); [assumption|contradiction]).
    rewrite binary64_neg by exact G'.
    assert (P : (0 < - q)%Q) by lra.
    pose proof (round53_exact (- q) P (representable_opp q R)) as E.
    rewrite Qabs_of_neg in B by exact G'.
    rewrite Qis_zero_false by lra.
    assert (O : Qle_bool (two_to 1024) (round53 (- q)) = false).
    { apply not_true_is_false. rewrite Qle_bool_iff. lra. }
    rewrite O. apply fin_eq. lra.
Qed.

Lemma binary64_Z b z :
  z <> 0 -> Z.abs z <= 2 ^ 53 -> binary64 b (inject_Z z) = of_Z z.
Proof.
  intros N B. rewrite binary64_exact.
  - now apply fin_inject_Z.
  - now apply representable_Z.
  - unfold Qeq. simpl. lia.
  - change (Qabs (inject_Z z)) with (inject_Z (Z.abs z)).
    rewrite (two_to_Z 1024) by lia. rewrite <- Zlt_Qlt.
    assert (2 ^ 53 < 2 ^ 1024) by (apply Z.pow_lt_mono_r; lia). lia.
Qed.

Lemma Qlog2_comp p q : (0 < p)%Q -> (p == q)%Q -> Qlog2 p = Qlog2 q.
Proof.
  intros H E. symmetry. apply Qlog2_unique. rewrite <- E. now apply Qlog2_spec.
Qed.

Lemma round53_comp p q : (0 < p)%Q -> (p == q)%Q -> (round53 p == round53 q)%Q.
Proof.
  intros H E. unfold round53, ulp_exponent. cbv zeta.
  rewrite (Qlog2_comp p q H E).
  set (u := Z.max (Qlog2 q - 52) (-1074)).
  assert (D : (p / two_to u == q / two_to u)%Q) by now rewrite E.
  now rewrite (round_even_comp _ _ D).
Qed.

Lemma Qis_zero_comp p q : (p == q)%Q -> Qis_zero p = Qis_zero q.
Proof.
  intros E. apply eq_true_iff_eq. rewrite !Qis_zero_true. now rewrite E.
Qed.

Lemma Qis_neg_comp p q : (p == q)%Q -> Qis_neg p = Qis_neg q.
Proof.
  intros E. apply eq_true_iff_eq. rewrite !Qis_neg_lt. now rewrite E.
Qed.

Lemma Qle_bool_comp a p q : (p == q)%Q -> Qle_bool a p = Qle_bool a q.
Proof.
  intros E. apply eq_true_iff_eq. rewrite !Qle_bool_iff. now rewrite E.
Qed.

Lemma binary64_comp b p q : (p == q)%Q -> binary64 b p = binary64 b q.
Proof.
  intros E. destruct (Qlt_le_dec 0 p) as [G|G].
  - rewrite !binary64_pos by lra.
    pose proof (round53_comp p q G E) as R.
    rewrite (Qis_zero_comp _ _ R), (Qle_bool_comp _ _ _ R), (fin_eq _ _ R).
    reflexivity.
  - destruct (Qle_lt_or_eq _ _ G) as [G'|G'].
    + rewrite !binary64_neg by lra.
      assert (E' : (- p == - q)%Q) by now rewrite E.
      pose proof (round53_comp (- p) (- q) ltac:(lra) E') as R.
      assert (R' : (- round53 (- p) == - round53 (- q))%Q) by now rewrite R.
      rewrite (Qis_zero_comp _ _ R), (Qle_bool_comp _ _ _ R), (fin_eq _ _ R').
      reflexivity.
    + rewrite !binary64_zero by lra. reflexivity.
Qed.

(** *** Integers up to 2^53 are exact *)

Lemma binary64_inject_Z b q z :
  (q == inject_Z z)%Q -> Z.abs z <= 2 ^ 53 ->
  binary64 b q = if z =? 0 then zero_of_sign b else of_Z z.
Proof.
  intros E B. rewrite (binary64_comp b _ _ E).
  destruct (Z.eqb_spec z 0) as [->|N].
  - now apply binary64_zero.
  - now apply binary64_Z.
Qed.

Lemma sign_bit_of_Z z : sign_bit (of_Z z) = (z <? 0).
Proof. reflexivity. Qed.

Lemma real_of_Z z : real (of_Z z) = Some (inject_Z z).
Proof. reflexivity. Qed.

Lemma nadd_Fin x y :
  nadd (Fin x) (Fin y) = binary64 (Qis_neg x && Qis_neg y) (x + y).
Proof. reflexivity. Qed.

Lemma nmul_Fin x y :
  nmul (Fin x) (Fin y) = binary64 (xorb (Qis_neg x) (Qis_neg y)) (x * y).
Proof. reflexivity. Qed.

Lemma ndiv_Fin x y :
  ndiv (Fin x) (Fin y)
  = if Qis_zero y
    then (if Qis_zero x then NaN
          else inf_of_sign (xorb (Qis_neg x) (Qis_neg y)))
    else binary64 (xorb (Qis_neg x) (Qis_neg y)) (x / y).
Proof. reflexivity. Qed.

Lemma nadd_of_Z a b :
  Z.abs (a + b) <= 2 ^ 53 -> nadd (of_Z a) (of_Z b) = of_Z (a + b).
Proof.
  intros B. unfold of_Z at 1 2. rewrite nadd_Fin.
  rewrite (binary64_inject_Z _ _ (a + b)) by (rewrite ?inject_Z_plus; easy).
  destruct (Z.eqb_spec (a + b) 0) as [E|E]; [|reflexivity].
  rewrite E. change (Qis_neg (inject_Z ?z)) with (z <? 0).
  destruct (Z.ltb_spec a 0), (Z.ltb_spec b 0); try reflexivity. lia.
Qed.

Lemma nneg_of_Z b : b <> 0 -> nneg (of_Z b) = of_Z (- b).
Proof.
  intros N. unfold nneg, of_Z at 1.
  change (Qis_zero (inject_Z b)) with (b =? 0).
  destruct (Z.eqb_spec b 0); [contradiction|].
  apply fin_inject_Z. now rewrite inject_Z_opp.
Qed.

Lemma nsub_of_Z a b :
  Z.abs (a - b) <= 2 ^ 53 -> nsub (of_Z a) (of_Z b) = of_Z (a - b).
Proof.
  intros B. unfold nsub. destruct (Z.eq_dec b 0) as [->|N].
  - change (nneg (of_Z 0)) with NZero. rewrite Z.sub_0_r in *.
    change (nadd (of_Z a) NZero)
      with (binary64 (Qis_neg (inject_Z a) && true) (inject_Z a + 0)).
    rewrite (binary64_inject_Z _ _ a) by (ring || easy).
    destruct (Z.eqb_spec a 0) as [->|]; reflexivity.
  - rewrite nneg_of_Z by exact N. now apply nadd_of_Z.
Qed.

Lemma nmul_of_Z a b :
  Z.abs (a * b) <= 2 ^ 53 -> a * b <> 0 -> nmul (of_Z a) (of_Z b) = of_Z (a * b).
Proof.
  intros B N. unfold of_Z at 1 2. rewrite nmul_Fin.
  rewrite (binary64_inject_Z _ _ (a * b)) by (rewrite ?inject_Z_mult; easy).
  destruct (Z.eqb_spec (a * b) 0); [contradiction|reflexivity].
Qed.

Lemma nmul_of_Z_nonneg a b :
  Z.abs (a * b) <= 2 ^ 53 -> 0 <= a -> 0 <= b ->
  nmul (of_Z a) (of_Z b) = of_Z (a * b).
Proof.
  intros B Ha Hb. unfold of_Z at 1 2. rewrite nmul_Fin.
  rewrite (binary64_inject_Z _ _ (a * b)) by (rewrite ?inject_Z_mult; easy).
  change (Qis_neg (inject_Z ?z)) with (z <? 0).
  destruct (Z.ltb_spec a 0), (Z.ltb_spec b 0); try lia.
  destruct (Z.eqb_spec (a * b) 0) as [->|]; reflexivity.
Qed.

(** ** Numerals, printed and read back *)

Lemma append_empty_r (s : string) : s ++ EmptyString = s.
Proof. induction s; simpl; congruence. Qed.

Lemma append_assoc (a b c : string) : (a ++ b) ++ c = a ++ (b ++ c).
Proof. induction a; simpl; congruence. Qed.

Lemma read_digits_string d rest :
  no_digit_ahead rest -> read_digits (digits_string d ++ rest) = (d, rest).
Proof.
  intros H. induction d; simpl; [exact H| rewrite IHd; reflexivity ..].
Qed.

Lemma read_digits_string_end d : read_digits (digits_string d) = (d, EmptyString).
Proof.
  rewrite <- (read_digits_string d EmptyString) by reflexivity.
  now rewrite append_empty_r.
Qed.

Lemma nb_digits_app d d' :
  nb_digits (Decimal.app d d') = (nb_digits d + nb_digits d')%nat.
Proof.
  rewrite !DecimalFacts.nb_digits_spec, DecimalFacts.app_spec.
  apply List.length_app.
Qed.

Lemma of_uint_iter_D0 k d : N.of_uint (Nat.iter k D0 d) = N.of_uint d.
Proof. induction k; simpl; [reflexivity|exact IHk]. Qed.

Lemma to_uint_not_Nil n : N.to_uint n <> Nil.
Proof.
  destruct n as [|p]; simpl; [discriminate|].
  apply DecimalPos.Unsigned.to_uint_nonnil.
Qed.

Lemma digits_not_Infinity d rest :
  d <> Nil -> String.eqb (digits_string d ++ rest) "Infinity" = false.
Proof. destruct d; [congruence| reflexivity ..]. Qed.

Lemma all_chars_app p a b :
  all_chars p a = true -> all_chars p b = true -> all_chars p (a ++ b) = true.
Proof.
  induction a as [|c a IH]; [auto|]. cbn [all_chars append]. intros H Hb.
  apply andb_true_iff in H. destruct H as [Hc Ha].
  rewrite Hc. now apply IH.
Qed.

Lemma all_chars_weaken (p q : ascii -> bool) t :
  (forall c, p c = true -> q c = true) ->
  all_chars p t = true -> all_chars q t = true.
Proof.
  intros W. induction t as [|c t IH]; [auto|]. cbn [all_chars]. intros H.
  apply andb_true_iff in H. destruct H as [Hc Ht].
  now rewrite (W _ Hc), IH.
Qed.

Lemma all_chars_digits d : all_chars is_digit (digits_string d) = true.
Proof. induction d; cbn; auto. Qed.

Lemma digit_numeric c : is_digit c = true -> numeric_char c = true.
Proof. unfold numeric_char. intros ->. now rewrite orb_true_r. Qed.

Lemma numeric_decimal_text neg ip fp :
  all_chars numeric_char (decimal_text neg ip fp) = true.
Proof.
  unfold decimal_text. apply all_chars_app; [destruct neg; reflexivity|].
  apply all_chars_app.
  - eapply all_chars_weaken; [apply digit_numeric | apply all_chars_digits].
  - destruct fp; [reflexivity| ..];
      (apply (all_chars_app numeric_char "."); [reflexivity|];
       eapply all_chars_weaken; [apply digit_numeric | apply all_chars_digits]).
Qed.

(** A text of digits, minus signs, points and exponent marks has no
    white space to trim and is no literal of another radix. *)
Lemma literal_not_space c : literal_char c = true -> is_white_space c = false.
Proof.
  unfold literal_char, numeric_char, is_white_space, is_digit.
  destruct c as [[] [] [] [] [] [] [] []]; cbn; intros H;
    try reflexivity; discriminate.
Qed.

Lemma trim_start_literal s :
  all_chars literal_char s = true -> trim_start s = s.
Proof.
  destruct s as [|c s]; [reflexivity|]. cbn [all_chars trim_start]. intros H.
  apply andb_true_iff in H. destruct H as [Hc _].
  now rewrite (literal_not_space c Hc).
Qed.

Lemma trim_end_literal s :
  all_chars literal_char s = true -> trim_end s = s.
Proof.
  induction s as [|c s IH]; [reflexivity|]. cbn [all_chars trim_end]. intros H.
  apply andb_true_iff in H. destruct H as [Hc Hs].
  rewrite (IH Hs), (literal_not_space c Hc). now destruct s.
Qed.

Lemma radix_literal_none s :
  all_chars literal_char s = true -> radix_literal s = None.
Proof.
  destruct s as [|z [|p [|c r]]]; try reflexivity.
  cbn [all_chars]. intros H.
  apply andb_true_iff in H. destruct H as [_ H].
  apply andb_true_iff in H. destruct H as [Hp _].
  unfold radix_literal. destruct (Ascii.eqb z "0"); [|reflexivity].
  revert Hp. unfold literal_char, numeric_char, is_digit.
  destruct p as [[] [] [] [] [] [] [] []]; cbn; intros Hp;
    try reflexivity; discriminate.
Qed.

Lemma to_number_literal s :
  all_chars literal_char s = true ->
  to_number s
  = match s with
    | EmptyString => of_Z 0
    | _ => let (neg, s1) := read_sign s in unsigned_literal neg s1
    end.
Proof.
  intros H. unfold to_number.
  rewrite (trim_start_literal s H), (trim_end_literal s H).
  destruct s as [|c s]; [reflexivity|].
  now rewrite (radix_literal_none _ H).
Qed.

Lemma numeric_literal c : numeric_char c = true -> literal_char c = true.
Proof. unfold literal_char. now intros ->. Qed.

Lemma to_number_numeric s :
  all_chars numeric_char s = true ->
  to_number s
  = match s with
    | EmptyString => of_Z 0
    | _ => let (neg, s1) := read_sign s in unsigned_literal neg s1
    end.
Proof.
  intros H. apply to_number_literal.
  eapply all_chars_weaken; [apply numeric_literal | exact H].
Qed.

Lemma unsigned_literal_integer neg ip :
  ip <> Nil ->
  unsigned_literal neg (digits_string ip) = literal_value neg ip Nil 0.
Proof.
  intros H. unfold unsigned_literal.
  rewrite <- (append_empty_r (digits_string ip)) at 1.
  rewrite digits_not_Infinity by assumption.
  rewrite read_digits_string_end.
  destruct ip; [congruence| reflexivity ..].
Qed.

Lemma unsigned_literal_fraction neg ip fp :
  ip <> Nil ->
  unsigned_literal neg (digits_string ip ++ "." ++ digits_string fp)
  = literal_value neg ip fp 0.
Proof.
  intros H. unfold unsigned_literal.
  rewrite digits_not_Infinity by assumption.
  rewrite read_digits_string by reflexivity.
  cbn [append Ascii.eqb Bool.eqb]. rewrite read_digits_string_end.
  destruct ip; [congruence| reflexivity ..].
Qed.

Lemma read_sign_decimal_text neg ip fp :
  ip <> Nil ->
  read_sign (decimal_text neg ip fp)
  = (neg, digits_string ip
          ++ match fp with Nil => EmptyString | _ => "." ++ digits_string fp end).
Proof.
  intros H. unfold decimal_text. destruct neg; [reflexivity|].
  cbn [append]. destruct ip; [congruence| reflexivity ..].
Qed.

Lemma decimal_text_not_empty neg ip fp :
  ip <> Nil -> exists c r, decimal_text neg ip fp = String c r.
Proof.
  intros H. unfold decimal_text. destruct neg; [do 2 eexists; reflexivity|].
  destruct ip; [congruence| do 2 eexists; reflexivity ..].
Qed.

Lemma to_number_decimal_text neg ip fp :
  ip <> Nil -> to_number (decimal_text neg ip fp) = literal_value neg ip fp 0.
Proof.
  intros H. rewrite to_number_numeric by apply numeric_decimal_text.
  destruct (decimal_text_not_empty neg ip fp H) as [c [r E]].
  rewrite E. rewrite <- E. rewrite read_sign_decimal_text by exact H.
  destruct (Decimal.uint_eq_dec fp Nil) as [->|G].
  - rewrite append_empty_r. now apply unsigned_literal_integer.
  - replace (match fp with Nil => EmptyString | _ => "." ++ digits_string fp end)
      with ("." ++ digits_string fp) by (destruct fp; congruence).
    now apply unsigned_literal_fraction.
Qed.

Lemma Qnearest_Z q z : (q == inject_Z z)%Q -> Qnearest q = z.
Proof.
  intros H. unfold Qnearest. rewrite H.
  unfold Qfloor, inject_Z, Qplus. simpl.
  replace (z * 2 + 1) with (1 + z * 2) by ring.
  rewrite Z.div_add by discriminate. reflexivity.
Qed.

(** What [fixed_digits] prints: digits, and [f] more behind a point when
    [f] is not zero. *)
Lemma fixed_digits_shape f n :
  (exists ip, ip <> Nil /\ f = O /\ N.of_uint ip = n
              /\ fixed_digits f n = digits_string ip)
  \/ (exists ip fp, ip <> Nil /\ nb_digits fp = f /\ N.of_uint (Decimal.app ip fp) = n
                    /\ fixed_digits f n = digits_string ip ++ "." ++ digits_string fp).
Proof.
  unfold fixed_digits. destruct f as [|f'].
  - left. exists (N.to_uint n). repeat split.
    + apply to_uint_not_Nil.
    + apply DecimalN.Unsigned.of_to.
  - right. set (f := S f').
    set (m := if Nat.leb (nb_digits (N.to_uint n)) f
              then Nat.iter (f + 1 - nb_digits (N.to_uint n)) D0 (N.to_uint n)
              else N.to_uint n).
    assert (Hk : (f < nb_digits m)%nat).
    { unfold m. destruct (Nat.leb_spec (nb_digits (N.to_uint n)) f).
      - rewrite DecimalFacts.nb_digits_iter_D0. lia.
      - assumption. }
    assert (Hv : N.of_uint m = n).
    { unfold m. destruct (Nat.leb _ f).
      - rewrite of_uint_iter_D0. apply DecimalN.Unsigned.of_to.
      - apply DecimalN.Unsigned.of_to. }
    assert (Happ : Decimal.app (del_tail f m) (del_head (nb_digits m - f) m) = m)
      by (apply DecimalFacts.app_del_tail_head; lia).
    assert (Hfp : nb_digits (del_head (nb_digits m - f) m) = f)
      by (apply DecimalFacts.nb_digits_del_head_sub; lia).
    exists (del_tail f m), (del_head (nb_digits m - f) m).
    repeat split.
    + intros E. pose proof (f_equal nb_digits Happ) as L.
      rewrite nb_digits_app, Hfp, E in L. simpl in L. lia.
    + exact Hfp.
    + now rewrite Happ.
Qed.

(** The text [toFixed] prints for a magnitude is a decimal text. *)
Lemma fixed_digits_text (neg : bool) f n :
  exists ip fp,
    ip <> Nil /\ nb_digits fp = f /\ N.of_uint (Decimal.app ip fp) = n
    /\ (if neg then "-" ++ fixed_digits f n else fixed_digits f n)
       = decimal_text neg ip fp.
Proof.
  destruct (fixed_digits_shape f n) as [[ip [Hip [Hf [Hn E]]]]
                                       | [ip [fp [Hip [Hf [Hn E]]]]]].
  - exists ip, Nil. split; [exact Hip|]. split; [now rewrite Hf|].
    split; [now rewrite DecimalFacts.app_nil_r|].
    rewrite E. unfold decimal_text. rewrite append_empty_r.
    destruct neg; reflexivity.
  - destruct f as [|f'].
    + exists (N.to_uint n), Nil. split; [apply to_uint_not_Nil|].
      split; [reflexivity|].
      split; [rewrite DecimalFacts.app_nil_r; apply DecimalN.Unsigned.of_to|].
      unfold fixed_digits, decimal_text. rewrite append_empty_r.
      destruct neg; reflexivity.
    + exists ip, fp. split; [exact Hip|]. split; [exact Hf|]. split; [exact Hn|].
      rewrite E. unfold decimal_text.
      replace (match fp with Nil => EmptyString | _ => "." ++ digits_string fp end)
        with ("." ++ digits_string fp) by (destruct fp; [discriminate|reflexivity ..]).
      destruct neg; reflexivity.
Qed.

Lemma literal_value_0 neg ip fp :
  literal_value neg ip fp 0
  = let m := (inject_Z (Z.of_N (N.of_uint (Decimal.app ip fp)))
              / inject_Z (10 ^ Z.of_nat (nb_digits fp)))%Q in
    binary64 neg (if neg then (- m)%Q else m).
Proof.
  unfold literal_value. cbv zeta.
  assert (E : (Qpower (inject_Z 10) (0 - Z.of_nat (nb_digits fp))
               == / inject_Z (10 ^ Z.of_nat (nb_digits fp)))%Q).
  { rewrite Z.sub_0_l, Qpower_opp, Zpower_Qpower by lia. reflexivity. }
  apply binary64_comp. destruct neg; rewrite E; reflexivity.
Qed.

(** Reading back what [toFixed] printed for the magnitude [n / 10^f]. *)
Lemma to_number_fixed_digits (neg : bool) f n :
  to_number (if neg then "-" ++ fixed_digits f n else fixed_digits f n)
  = let m := (inject_Z (Z.of_N n) / inject_Z (10 ^ Z.of_nat f))%Q in
    binary64 neg (if neg then (- m)%Q else m).
Proof.
  destruct (fixed_digits_text neg f n) as [ip [fp [Hip [Hf [Hn ->]]]]].
  rewrite to_number_decimal_text by exact Hip.
  rewrite literal_value_0, Hn, Hf. reflexivity.
Qed.

Lemma Qnearest_bounds x :
  (inject_Z (Qnearest x) - (1 # 2) <= x < inject_Z (Qnearest x) + (1 # 2))%Q.
Proof.
  unfold Qnearest. pose proof (Qfloor_le (x + (1 # 2))) as L.
  pose proof (Qlt_floor (x + (1 # 2))) as U.
  rewrite inject_Z_plus in U. change (inject_Z 1) with 1%Q in U.
  split; lra.
Qed.

Lemma Qfloor_unique x k :
  (inject_Z k <= x < inject_Z (k + 1))%Q -> Qfloor x = k.
Proof.
  intros [L U].
  assert (k <= Qfloor x)
    by (rewrite <- (Qfloor_Z k); now apply Qfloor_resp_le).
  assert (Qfloor x < k + 1).
  { rewrite Zlt_Qlt. apply Qle_lt_trans with x; [apply Qfloor_le | exact U]. }
  lia.
Qed.

Lemma toFixed_small f r :
  0 <= f <= 100 -> (Qabs r < ten21)%Q ->
  toFixed f (Fin r)
  = Ok (let body := fixed_digits (Z.to_nat f)
                      (Z.to_N (Qnearest (Qabs r * inject_Z (10 ^ f)))) in
        if Qis_neg r then "-" ++ body else body).
Proof.
  intros Hf H. unfold toFixed.
  destruct (Z.ltb_spec f 0); [lia|]. destruct (Z.ltb_spec 100 f); [lia|].
  cbn [orb]. cbv zeta.
  assert (C : Qle_bool ten21 (Qabs r) = false).
  { apply not_true_is_false. rewrite Qle_bool_iff. lra. }
  now rewrite C.
Qed.

Lemma round_Fin_near r z :
  z <> 0 -> (inject_Z z - (1 # 2) <= r < inject_Z z + (1 # 2))%Q ->
  round (Fin r) = of_Z z.
Proof.
  intros N [L U]. unfold round.
  assert (E : Qfloor (r + (1 # 2)) = z).
  { apply Qfloor_unique. rewrite inject_Z_plus. change (inject_Z 1) with 1%Q.
    split; lra. }
  rewrite E. destruct (Z.eqb_spec z 0); [contradiction|reflexivity].
Qed.

Lemma Z_le_Q a b : a <= b -> (inject_Z a <= inject_Z b)%Q.
Proof. now rewrite <- Zle_Qle. Qed.

Lemma Z_lt_Q a b : a < b -> (inject_Z a < inject_Z b)%Q.
Proof. now rewrite <- Zlt_Qlt. Qed.

(** A value within 3/10 of an integer of at most 50 bits comes out of
    [toFixed(4)], unary plus and [Math.round] as that integer. *)
Lemma finish_near_pos r z :
  0 < z <= 2 ^ 50 ->
  (inject_Z z - (3 # 10) <= r <= inject_Z z + (3 # 10))%Q ->
  finish true (Fin r) = Ok (of_Z z).
Proof.
  intros Hz [L U].
  assert (Z1 : (1 <= inject_Z z)%Q) by (apply (Z_le_Q 1 z); lia).
  assert (Z2 : (inject_Z z <= inject_Z (2 ^ 50))%Q) by (apply Z_le_Q; lia).
  change (inject_Z (2 ^ 50)) with (1125899906842624 # 1)%Q in Z2.
  assert (P : (0 < r)%Q) by lra.
  unfold finish. rewrite toFixed_small; [|lia|].
  2:{ rewrite Qabs_of_pos by exact P. unfold ten21.
      change (inject_Z (10 ^ 21)) with (1000000000000000000000 # 1)%Q. lra. }
  cbn [bind_result]. cbv zeta.
  rewrite (Qis_neg_false r) by lra.
  rewrite (to_number_fixed_digits false). cbv zeta.
  rewrite (Qabs_of_pos r P).
  set (n := Qnearest (r * inject_Z (10 ^ 4))).
  pose proof (Qnearest_bounds (r * inject_Z (10 ^ 4))) as [N1 N2]. fold n in N1, N2.
  change (inject_Z (10 ^ 4)) with (10000 # 1)%Q in N1, N2.
  assert (Hn : 0 <= n).
  { rewrite Zle_Qle. change (inject_Z 0) with 0%Q. lra. }
  rewrite Z2N.id by exact Hn.
  change (inject_Z (10 ^ Z.of_nat (Z.to_nat 4))) with (10000 # 1)%Q.
  set (w := (inject_Z n / (10000 # 1))%Q).
  assert (W : (inject_Z n == w * (10000 # 1))%Q) by (unfold w; field).
  assert (Wb : (r - (1 # 20000) <= w <= r + (1 # 20000))%Q) by (split; lra).
  assert (T : (two_to (-1022) <= 1 # 2)%Q) by (apply (two_to_le (-1022) (-1)); lia).
  assert (T' : (2 ^ 51 # 1 <= two_to 1023)%Q).
  { rewrite (two_to_Z 1023) by lia.
    change (2 ^ 51 # 1)%Q with (inject_Z (2 ^ 51)). apply Z_le_Q.
    apply Z.pow_le_mono_r; lia. }
  change (2 ^ 51 # 1)%Q with (2251799813685248 # 1)%Q in T'.
  destruct (binary64_normal false w) as [r3 [-> [_ [B1 B2]]]]; [split; lra|].
  change (two_to (-53)) with (1 # 9007199254740992)%Q in B1, B2.
  apply f_equal. apply round_Fin_near; [lia|]. split; lra.
Qed.

Lemma finish_near_neg r z :
  - 2 ^ 50 <= z < 0 ->
  (inject_Z z - (3 # 10) <= r <= inject_Z z + (3 # 10))%Q ->
  finish true (Fin r) = Ok (of_Z z).
Proof.
  intros Hz [L U].
  assert (Z1 : (inject_Z z <= -1)%Q) by (apply (Z_le_Q z (-1)); lia).
  assert (Z2 : (inject_Z (- 2 ^ 50) <= inject_Z z)%Q) by (apply Z_le_Q; lia).
  change (inject_Z (- 2 ^ 50)) with (-1125899906842624 # 1)%Q in Z2.
  assert (P : (r < 0)%Q) by lra.
  unfold finish. rewrite toFixed_small; [|lia|].
  2:{ rewrite Qabs_of_neg by exact P. unfold ten21.
      change (inject_Z (10 ^ 21)) with (1000000000000000000000 # 1)%Q. lra. }
  cbn [bind_result]. cbv zeta.
  rewrite (Qis_neg_true r P).
  rewrite (to_number_fixed_digits true). cbv zeta.
  rewrite (Qabs_of_neg r P).
  set (n := Qnearest (- r * inject_Z (10 ^ 4))).
  pose proof (Qnearest_bounds (- r * inject_Z (10 ^ 4))) as [N1 N2].
  fold n in N1, N2.
  change (inject_Z (10 ^ 4)) with (10000 # 1)%Q in N1, N2.
  assert (Hn : 0 <= n).
  { rewrite Zle_Qle. change (inject_Z 0) with 0%Q. lra. }
  rewrite Z2N.id by exact Hn.
  change (inject_Z (10 ^ Z.of_nat (Z.to_nat 4))) with (10000 # 1)%Q.
  set (w := (inject_Z n / (10000 # 1))%Q).
  assert (W : (inject_Z n == w * (10000 # 1))%Q) by (unfold w; field).
  assert (Wb : (- r - (1 # 20000) <= w <= - r + (1 # 20000))%Q) by (split; lra).
  assert (T : (two_to (-1022) <= 1 # 2)%Q) by (apply (two_to_le (-1022) (-1)); lia).
  assert (T' : (2 ^ 51 # 1 <= two_to 1023)%Q).
  { rewrite (two_to_Z 1023) by lia.
    change (2 ^ 51 # 1)%Q with (inject_Z (2 ^ 51)). apply Z_le_Q.
    apply Z.pow_le_mono_r; lia. }
  change (2 ^ 51 # 1)%Q with (2251799813685248 # 1)%Q in T'.
  destruct (binary64_normal_neg true (- w)) as [r3 [-> [_ [B1 B2]]]]; [split; lra|].
  change (two_to (-53)) with (1 # 9007199254740992)%Q in B1, B2.
  apply f_equal. apply round_Fin_near; [lia|]. split; lra.
Qed.

(** ** Amounts, scaled down and up again *)

(** Up to 10^22 the powers of ten are exact. *)
Lemma pow_nonneg p : 0 <= p <= 22 -> pow p = of_Z (10 ^ p).
Proof.
  intros H. unfold pow.
  assert (E : (Qpower (inject_Z 10) p == inject_Z (10 ^ p))%Q)
    by (now rewrite Zpower_Qpower).
  assert (P5 : 0 < 5 ^ p <= 5 ^ 22).
  { split; [apply Z.pow_pos_nonneg; lia | apply Z.pow_le_mono_r; lia]. }
  assert (P10 : 10 ^ p = 5 ^ p * 2 ^ p).
  { change 10 with (5 * 2). apply Z.pow_mul_l. }
  assert (P2 : 0 < 2 ^ p <= 2 ^ 22).
  { split; [apply Z.pow_pos_nonneg; lia | apply Z.pow_le_mono_r; lia]. }
  rewrite (binary64_comp _ _ _ E), binary64_exact.
  - now apply fin_inject_Z.
  - exists (5 ^ p), p. split; [|split; [lia|]].
    + change (5 ^ 22) with 2384185791015625 in P5.
      change (2 ^ 53) with 9007199254740992. lia.
    + rewrite (two_to_Z p) by lia. rewrite <- inject_Z_mult. now rewrite P10.
  - unfold Qeq. simpl. nia.
  - change (Qabs (inject_Z (10 ^ p))) with (inject_Z (Z.abs (10 ^ p))).
    rewrite (two_to_Z 1024) by lia. apply Z_lt_Q.
    change (5 ^ 22) with 2384185791015625 in P5.
    change (2 ^ 22) with 4194304 in P2.
    assert (2 ^ 100 < 2 ^ 1024) by (apply Z.pow_lt_mono_r; lia).
    change (2 ^ 100) with 1267650600228229401496703205376 in *. nia.
Qed.

Lemma pow_10_bounds p : 0 <= p <= 22 -> 1 <= 10 ^ p <= 10 ^ 22.
Proof.
  intros H. split.
  - apply (Z.pow_le_mono_r 10 0 p); lia.
  - apply Z.pow_le_mono_r; lia.
Qed.

(** Dividing an amount by a factor and multiplying by it again gives the
    amount back within two roundings. *)
Lemma scale_back_pos z P :
  0 < z <= 2 ^ 50 -> 1 <= P <= 10 ^ 22 ->
  exists r,
    nmul (ndiv (of_Z z) (of_Z P)) (of_Z P) = Fin r
    /\ (inject_Z z - (3 # 10) <= r <= inject_Z z + (3 # 10))%Q.
Proof.
  intros Hz HP.
  assert (Z1 : (1 <= inject_Z z)%Q) by (apply (Z_le_Q 1 z); lia).
  assert (Z2 : (inject_Z z <= inject_Z (2 ^ 50))%Q) by (apply Z_le_Q; lia).
  change (inject_Z (2 ^ 50)) with (1125899906842624 # 1)%Q in Z2.
  assert (P1 : (1 <= inject_Z P)%Q) by (apply (Z_le_Q 1 P); lia).
  assert (P2 : (inject_Z P <= inject_Z (10 ^ 22))%Q) by (apply Z_le_Q; lia).
  change (inject_Z (10 ^ 22)) with (10000000000000000000000 # 1)%Q in P2.
  assert (T : (two_to (-1022) <= two_to (-100))%Q) by (apply two_to_le; lia).
  assert (T' : (two_to 100 <= two_to 1023)%Q) by (apply two_to_le; lia).
  change (two_to (-100)) with (1 # 1267650600228229401496703205376)%Q in T.
  change (two_to 100) with (1267650600228229401496703205376 # 1)%Q in T'.
  unfold of_Z. rewrite ndiv_Fin.
  change (Qis_zero (inject_Z P)) with (P =? 0).
  destruct (Z.eqb_spec P 0); [lia|].
  set (q := (inject_Z z / inject_Z P)%Q).
  assert (Eq : (q * inject_Z P == inject_Z z)%Q) by (unfold q; field; lra).
  assert (Q1 : (0 < q)%Q) by (apply Qlt_shift_div_l; lra).
  assert (Q2 : (q <= inject_Z z)%Q) by (apply Qle_shift_div_r; nra).
  assert (Q3 : (1 # 10000000000000000000000 <= q)%Q).
  { apply Qle_shift_div_l; [lra|]. nra. }
  destruct (binary64_normal (xorb (Qis_neg (inject_Z z)) (Qis_neg (inject_Z P))) q)
    as [r1 [-> [_ [A1 A2]]]]; [split; lra|].
  change (two_to (-53)) with (1 # 9007199254740992)%Q in A1, A2.
  rewrite nmul_Fin.
  set (t := (r1 * inject_Z P)%Q).
  assert (B1 : (inject_Z z * (1 - (1 # 9007199254740992)) <= t)%Q).
  { unfold t. rewrite <- Eq.
    setoid_replace (q * inject_Z P * (1 - (1 # 9007199254740992)))%Q
      with (q * (1 - (1 # 9007199254740992)) * inject_Z P)%Q by ring.
    apply Qmult_le_compat_r; lra. }
  assert (B2 : (t <= inject_Z z * (1 + (1 # 9007199254740992)))%Q).
  { unfold t. rewrite <- Eq.
    setoid_replace (q * inject_Z P * (1 + (1 # 9007199254740992)))%Q
      with (q * (1 + (1 # 9007199254740992)) * inject_Z P)%Q by ring.
    apply Qmult_le_compat_r; lra. }
  destruct (binary64_normal (xorb (Qis_neg r1) (Qis_neg (inject_Z P))) t)
    as [r2 [-> [_ [C1 C2]]]]; [split; lra|].
  change (two_to (-53)) with (1 # 9007199254740992)%Q in C1, C2.
  exists r2. split; [reflexivity|]. split; lra.
Qed.

Lemma scale_back_neg z P :
  - 2 ^ 50 <= z < 0 -> 1 <= P <= 10 ^ 22 ->
  exists r,
    nmul (ndiv (of_Z z) (of_Z P)) (of_Z P) = Fin r
    /\ (inject_Z z - (3 # 10) <= r <= inject_Z z + (3 # 10))%Q.
Proof.
  intros Hz HP.
  assert (Z1 : (inject_Z z <= -1)%Q) by (apply (Z_le_Q z (-1)); lia).
  assert (Z2 : (inject_Z (- 2 ^ 50) <= inject_Z z)%Q) by (apply Z_le_Q; lia).
  change (inject_Z (- 2 ^ 50)) with (-1125899906842624 # 1)%Q in Z2.
  assert (P1 : (1 <= inject_Z P)%Q) by (apply (Z_le_Q 1 P); lia).
  assert (P2 : (inject_Z P <= inject_Z (10 ^ 22))%Q) by (apply Z_le_Q; lia).
  change (inject_Z (10 ^ 22)) with (10000000000000000000000 # 1)%Q in P2.
  assert (T : (two_to (-1022) <= two_to (-100))%Q) by (apply two_to_le; lia).
  assert (T' : (two_to 100 <= two_to 1023)%Q) by (apply two_to_le; lia).
  change (two_to (-100)) with (1 # 1267650600228229401496703205376)%Q in T.
  change (two_to 100) with (1267650600228229401496703205376 # 1)%Q in T'.
  unfold of_Z. rewrite ndiv_Fin.
  change (Qis_zero (inject_Z P)) with (P =? 0).
  destruct (Z.eqb_spec P 0); [lia|].
  set (q := (inject_Z z / inject_Z P)%Q).
  assert (Eq : (q * inject_Z P == inject_Z z)%Q) by (unfold q; field; lra).
  assert (Q1 : (q < 0)%Q) by (apply Qlt_shift_div_r; lra).
  assert (Q2 : (inject_Z z <= q)%Q) by (apply Qle_shift_div_l; nra).
  assert (Q3 : (q <= - (1 # 10000000000000000000000))%Q).
  { apply Qle_shift_div_r; [lra|]. nra. }
  destruct (binary64_normal_neg
              (xorb (Qis_neg (inject_Z z)) (Qis_neg (inject_Z P))) q)
    as [r1 [-> [_ [A1 A2]]]]; [split; lra|].
  change (two_to (-53)) with (1 # 9007199254740992)%Q in A1, A2.
  rewrite nmul_Fin.
  set (t := (r1 * inject_Z P)%Q).
  assert (B1 : (inject_Z z * (1 + (1 # 9007199254740992)) <= t)%Q).
  { unfold t. rewrite <- Eq.
    setoid_replace (q * inject_Z P * (1 + (1 # 9007199254740992)))%Q
      with (q * (1 + (1 # 9007199254740992)) * inject_Z P)%Q by ring.
    apply Qmult_le_compat_r; lra. }
  assert (B2 : (t <= inject_Z z * (1 - (1 # 9007199254740992)))%Q).
  { unfold t. rewrite <- Eq.
    setoid_replace (q * inject_Z P * (1 - (1 # 9007199254740992)))%Q
      with (q * (1 - (1 # 9007199254740992)) * inject_Z P)%Q by ring.
    apply Qmult_le_compat_r; lra. }
  destruct (binary64_normal_neg (xorb (Qis_neg r1) (Qis_neg (inject_Z P))) t)
    as [r2 [-> [_ [C1 C2]]]]; [split; lra|].
  change (two_to (-53)) with (1 # 9007199254740992)%Q in C1, C2.
  exists r2. split; [reflexivity|]. split; lra.
Qed.

Lemma finish_zero : finish true (of_Z 0) = Ok (of_Z 0).
Proof. vm_compute. reflexivity. Qed.

Lemma finish_negative_zero : finish true NZero = Ok (of_Z 0).
Proof. vm_compute. reflexivity. Qed.

Lemma ndiv_zero_l P : P <> 0 -> ndiv (of_Z 0) (of_Z P) = zero_of_sign (P <? 0).
Proof.
  intros H. unfold of_Z. rewrite ndiv_Fin.
  change (Qis_zero (inject_Z P)) with (P =? 0).
  destruct (Z.eqb_spec P 0); [contradiction|].
  rewrite binary64_zero by (unfold Qeq; simpl; lia). reflexivity.
Qed.

Lemma ndiv_NZero_l P : 0 < P -> ndiv NZero (of_Z P) = NZero.
Proof.
  intros H. unfold ndiv, of_Z. cbn [real sign_bit].
  change (Qis_zero (inject_Z P)) with (P =? 0).
  destruct (Z.eqb_spec P 0); [lia|].
  rewrite binary64_zero by (unfold Qeq; simpl; lia).
  change (Qis_neg (inject_Z P)) with (P <? 0).
  destruct (Z.ltb_spec P 0); [lia|reflexivity].
Qed.

Lemma nmul_NZero_l P : 0 < P -> nmul NZero (of_Z P) = NZero.
Proof.
  intros H. unfold nmul, of_Z. cbn [real sign_bit].
  rewrite binary64_zero by (unfold Qeq; simpl; lia).
  change (Qis_neg (inject_Z P)) with (P <? 0).
  destruct (Z.ltb_spec P 0); [lia|reflexivity].
Qed.

(** An integer amount of at most 50 bits, divided by the precision factor,
    parses back to itself. *)
Lemma parse_amount s z :
  0 <= precision s <= 22 -> Z.abs z <= 2 ^ 50 ->
  parse (VNum (ndiv (of_Z z) (pow (precision s)))) s true = Ok (of_Z z).
Proof.
  intros Hp Hz. rewrite parse_number, pow_nonneg by exact Hp.
  pose proof (pow_10_bounds _ Hp) as B.
  destruct (Z.lt_trichotomy z 0) as [N|[->|P]].
  - destruct (scale_back_neg z (10 ^ precision s) ltac:(lia) B) as [r [-> R]].
    apply finish_near_neg; [lia | exact R].
  - rewrite ndiv_zero_l by lia.
    destruct (Z.ltb_spec (10 ^ precision s) 0); [lia|]. cbn [zero_of_sign].
    rewrite nmul_of_Z_nonneg by lia. exact finish_zero.
  - destruct (scale_back_pos z (10 ^ precision s) ltac:(lia) B) as [r [-> R]].
    apply finish_near_pos; [lia | exact R].
Qed.

Lemma parse_negative_zero s :
  0 <= precision s <= 22 ->
  parse (VNum (ndiv NZero (pow (precision s)))) s true = Ok (of_Z 0).
Proof.
  intros Hp. rewrite parse_number, pow_nonneg by exact Hp.
  pose proof (pow_10_bounds _ Hp) as B.
  rewrite ndiv_NZero_l, nmul_NZero_l by lia. exact finish_negative_zero.
Qed.

Lemma parse_stands_for s x z :
  0 <= precision s <= 22 -> Z.abs z <= 2 ^ 50 -> stands_for x z ->
  parse (VNum (ndiv x (pow (precision s)))) s true = Ok (of_Z z).
Proof.
  intros Hp Hz [->|[-> ->]].
  - now apply parse_amount.
  - now apply parse_negative_zero.
Qed.

(** ** The quotient of two integers, rounded and then floored *)


(** ** Integer quotients, floored and ceiled *)




(** ** Instances with integer amounts *)

Lemma Object_assign_as_options s : Object_assign defaults (as_options s) = s.
Proof.
  destruct s as [? ? ? ? ? ? ? ? [i|] [u|] [g|]]; reflexivity.
Qed.

Lemma completed_idempotent s : completed (completed s) = completed s.
Proof.
  unfold completed, with_groups, with_increment, select_groups. simpl.
  f_equal. f_equal. unfold default_increment at 1. simpl.
  destruct (truthy (default_increment s (pow (precision s)))) eqn:T;
    [reflexivity|].
  unfold default_increment in *.
  destruct (increment s) as [i|]; [|reflexivity].
  destruct (truthy i) eqn:Ti; [congruence|reflexivity].
Qed.

Lemma new_Currency_with_parsed h ls s x n :
  settings_at h ls = Some s ->
  parse x s true = Ok n ->
  (forall l, x <> VCurrency l) ->
  new_Currency_with x ls h
  = (Ok (List.length (instances h)), constructed h s n).
Proof.
  intros Hs Hp Hx. unfold new_Currency_with, bind.
  rewrite (get_settings_at _ _ _ Hs).
  rewrite new_Currency_unfold, Object_assign_as_options. cbv zeta.
  destruct x; try (now rewrite Hp). now elim (Hx l).
Qed.

Lemma new_Currency_with_amount h ls s x z :
  settings_at h ls = Some s ->
  0 <= precision s <= 22 -> Z.abs z <= 2 ^ 50 -> stands_for x z ->
  new_Currency_with (VNum (ndiv x (pow (precision s)))) ls h
  = (Ok (List.length (instances h)), constructed h s (of_Z z)).
Proof.
  intros Hs Hp Hz Hx. apply new_Currency_with_parsed; [exact Hs| |discriminate].
  now apply parse_stands_for.
Qed.

Lemma regular_constructed h s v :
  regular (constructed h s v) (List.length (instances h))
    {| intValue := v;
       value := ndiv v (pow (precision s));
       _settings := List.length (configs h);
       _precision := pow (precision s) |}
    (completed s).
Proof.
  repeat split.
  - apply instance_at_constructed.
  - apply settings_at_constructed.
Qed.

Lemma regular_extends h h' l c s :
  extends h h' -> regular h l c s -> regular h' l c s.
Proof.
  intros E [Hc [Hs Hp]]. repeat split.
  - eapply extends_instance_at; eassumption.
  - eapply extends_settings_at; eassumption.
  - assumption.
Qed.


(** [add] and [subtract] on an integer amount, given an operand that
    parses to an integer. *)
Lemma add_amount h l c s a b x :
  regular h l c s -> intValue c = of_Z a -> parse x s true = Ok (of_Z b) ->
  0 <= precision s <= 22 -> Z.abs (a + b) <= 2 ^ 50 ->
  add l x h = (Ok (List.length (instances h)), constructed h s (of_Z (a + b))).
Proof.
  intros [Hc [Hs Hp]] Ha Hx Hprec B. unfold add, bind.
  rewrite (get_instance_at _ _ _ Hc), (get_settings_at _ _ _ Hs).
  unfold lift. rewrite Hx, Ha, nadd_of_Z, Hp.
  - apply new_Currency_with_amount; try assumption. now left.
  - assert (2 ^ 50 <= 2 ^ 53) by (apply Z.pow_le_mono_r; lia). lia.
Qed.

Lemma subtract_amount h l c s a b x :
  regular h l c s -> intValue c = of_Z a -> parse x s true = Ok (of_Z b) ->
  0 <= precision s <= 22 -> Z.abs (a - b) <= 2 ^ 50 ->
  subtract l x h = (Ok (List.length (instances h)), constructed h s (of_Z (a - b))).
Proof.
  intros [Hc [Hs Hp]] Ha Hx Hprec B. unfold subtract, bind.
  rewrite (get_instance_at _ _ _ Hc), (get_settings_at _ _ _ Hs).
  unfold lift. rewrite Hx, Ha, nsub_of_Z, Hp.
  - apply new_Currency_with_amount; try assumption. now left.
  - assert (2 ^ 50 <= 2 ^ 53) by (apply Z.pow_le_mono_r; lia). lia.
Qed.

Lemma is_instance_regular h l :
  is_instance h l ->
  exists c s, regular h l c s /\ completed s = s.
Proof.
  intros [v [opts [h0 [h1 [Hnew Hext]]]]].
  rewrite new_Currency_unfold in Hnew. cbv zeta in Hnew.
  destruct (parse _ _ true) as [n|e]; [|discriminate].
  injection Hnew as <- <-.
  do 2 eexists. split.
  - eapply regular_extends; [eassumption|]. apply regular_constructed.
  - apply completed_idempotent.
Qed.


Lemma intValue_at_constructed h s v :
  intValue_at (constructed h s v) (List.length (instances h)) = Some v.
Proof. unfold intValue_at. now rewrite instance_at_constructed. Qed.

Lemma is_instance_amount h l A :
  is_instance h l -> intValue_at h l = Some (of_Z A) ->
  exists c s, regular h l c s /\ intValue c = of_Z A.
Proof.
  intros I V. destruct (is_instance_regular h l I) as [c [s [R _]]].
  exists c, s. split; [exact R|].
  unfold intValue_at in V. rewrite (proj1 R) in V. now injection V.
Qed.

(** ** The loop of [distribute] *)

Lemma pow2_50_53 : 2 ^ 50 <= 2 ^ 53.
Proof. apply Z.pow_le_mono_r; lia. Qed.













Lemma ten15_bounds : 10 ^ 15 + 1 <= 2 ^ 50 /\ 2 * 10 ^ 15 <= 2 ^ 53.
Proof. split; vm_compute; discriminate. Qed.




Lemma settings_of_regular h l c s s' :
  regular h l c s -> settings_of h l = Some s' -> s = s'.
Proof.
  intros [Hc [Hs _]] S. unfold settings_of in S. rewrite Hc in S. congruence.
Qed.


(** ** C1: distribution conserves the amount *)


Lemma five_dollars_is_instance : is_instance five_dollars 0%nat.
Proof.
  exists (VNum (of_Z 5)), no_options, empty_store, five_dollars.
  split; [vm_compute; reflexivity | apply extends_refl].
Qed.



(** ** C6: who gets the pennies *)




(** ** C5: the configuration travels unchanged *)

Lemma new_Currency_with_regular h ls s v l' h' :
  settings_at h ls = Some s ->
  new_Currency_with v ls h = (Ok l', h') ->
  exists c', regular h' l' c' (completed s).
Proof.
  intros Hs. unfold new_Currency_with, bind.
  rewrite (get_settings_at _ _ _ Hs).
  rewrite new_Currency_unfold, Object_assign_as_options. cbv zeta.
  destruct (parse _ s true) as [n|e]; [|discriminate].
  intros [= <- <-]. eexists. apply regular_constructed.
Qed.

Ltac open_method R :=
  let Hc := fresh "Hc" in
  let Hs := fresh "Hs" in
  let Hp := fresh "Hp" in
  destruct R as [Hc [Hs Hp]];
  unfold add, subtract, multiply, divide, bind, lift;
  rewrite (get_instance_at _ _ _ Hc), (get_settings_at _ _ _ Hs).

Lemma add_regular h l c s x l' h' :
  regular h l c s -> add l x h = (Ok l', h') ->
  exists c', regular h' l' c' (completed s).
Proof.
  intros R. open_method R.
  destruct (parse x s true); [|discriminate].
  now apply new_Currency_with_regular.
Qed.

Lemma subtract_regular h l c s x l' h' :
  regular h l c s -> subtract l x h = (Ok l', h') ->
  exists c', regular h' l' c' (completed s).
Proof.
  intros R. open_method R.
  destruct (parse x s true); [|discriminate].
  now apply new_Currency_with_regular.
Qed.

Lemma multiply_regular h l c s x l' h' :
  regular h l c s -> multiply l x h = (Ok l', h') ->
  exists c', regular h' l' c' (completed s).
Proof.
  intros R. open_method R. now apply new_Currency_with_regular.
Qed.

Lemma divide_regular h l c s x l' h' :
  regular h l c s -> divide l x h = (Ok l', h') ->
  exists c', regular h' l' c' (completed s).
Proof.
  intros R. open_method R.
  destruct (parse x s false); [|discriminate].
  now apply new_Currency_with_regular.
Qed.

Lemma distribute_item_regular c s split pennies h item h' :
  settings_at h (_settings c) = Some s -> completed s = s ->
  distribute_item c split pennies h = (Ok item, h') ->
  exists c', regular h' item c' s.
Proof.
  intros Hs Hfix. unfold distribute_item, bind.
  destruct (new_Currency_with _ _ h) as [[l1|e] h1] eqn:E1; [|discriminate].
  destruct (new_Currency_with_regular _ _ _ _ _ _ Hs E1) as [c1 R1].
  rewrite Hfix in R1.
  destruct (ngt0 pennies); [destruct (nge0 (intValue c))|].
  - intros H. destruct (add_regular _ _ _ _ _ _ _ R1 H) as [c2 R2].
    rewrite Hfix in R2. now exists c2.
  - intros H. destruct (subtract_regular _ _ _ _ _ _ _ R1 H) as [c2 R2].
    rewrite Hfix in R2. now exists c2.
  - intros [= <- <-]. now exists c1.
Qed.

Lemma distribute_loop_regular c s split :
  completed s = s ->
  forall fuel count pennies dist h ls h',
    settings_at h (_settings c) = Some s ->
    Forall (fun l' => exists c', regular h l' c' s) dist ->
    distribute_loop fuel c split count pennies dist h = Some (Ok ls, h') ->
    Forall (fun l' => exists c', regular h' l' c' s) ls.
Proof.
  intros Hfix. induction fuel as [|fuel IH];
    intros count pennies dist h ls h' Hs Hd; cbn [distribute_loop].
  - discriminate.
  - destruct (nonzero count).
    + destruct (distribute_item c split pennies h) as [[item|e] h1] eqn:E;
        [|discriminate].
      pose proof (grows_distribute_item _ _ _ _ _ _ E) as X.
      destruct (distribute_item_regular _ _ _ _ _ _ _ Hs Hfix E) as [ci Ri].
      apply IH.
      * eapply extends_settings_at; eassumption.
      * apply Forall_app. split.
        -- eapply Forall_impl; [|exact Hd].
           intros a [ca Ra]. exists ca. eapply regular_extends; eassumption.
        -- constructor; [|constructor]. now exists ci.
    + now intros [= <- <-].
Qed.

Lemma produces_regular h l c s h' l' :
  regular h l c s -> completed s = s -> produces h l h' l' ->
  exists c', regular h' l' c' s.
Proof.
  intros R Hfix P. destruct P as [x h' l' H|x h' l' H|x h' l' H|x h' l' H
                                 |fuel count ls h' l' H Hin].
  - destruct (add_regular _ _ _ _ _ _ _ R H) as [c' R'].
    rewrite Hfix in R'. now exists c'.
  - destruct (subtract_regular _ _ _ _ _ _ _ R H) as [c' R'].
    rewrite Hfix in R'. now exists c'.
  - destruct (multiply_regular _ _ _ _ _ _ _ R H) as [c' R'].
    rewrite Hfix in R'. now exists c'.
  - destruct (divide_regular _ _ _ _ _ _ _ R H) as [c' R'].
    rewrite Hfix in R'. now exists c'.
  - unfold distribute in H. rewrite (get_instance_at _ _ _ (proj1 R)) in H.
    pose proof (distribute_loop_regular c s _ Hfix _ _ _ _ _ _ _
                  (proj1 (proj2 R)) (Forall_nil _) H) as F.
    rewrite Forall_forall in F. now apply F.
Qed.

Lemma regular_settings_of h l c s : regular h l c s -> settings_of h l = Some s.
Proof.
  intros [Hc [Hs _]]. unfold settings_of. now rewrite Hc.
Qed.

(** C5.  Along any chain of [add], [subtract], [multiply], [divide] and
    [distribute] that starts at an instance, every value produced carries
    a configuration equal, field by field, to that of the instance the
    chain started from. *)
Theorem settings_carried (h0 : store) (l0 : loc) (h : store) (l : loc) :
  is_instance h0 l0 ->
  chain h0 l0 h l ->
  exists s, settings_of h0 l0 = Some s /\ settings_of h l = Some s.
Proof.
  intros I C. destruct (is_instance_regular _ _ I) as [c [s [R Hfix]]].
  exists s. split; [eapply regular_settings_of; eassumption|].
  clear I. revert c R. induction C as [h l|h l h1 l1 h2 l2 P C IH]; intros c R.
  - eapply regular_settings_of; eassumption.
  - destruct (produces_regular _ _ _ _ _ _ R Hfix P) as [c1 R1].
    eapply IH; eassumption.
Qed.

Lemma settings_carried_witness :
  exists s,
    settings_of five_dollars 0%nat = Some s
    /\ settings_of
         (constructed (constructed five_dollars default_config (of_Z 600))
            default_config (of_Z 1200))
         2%nat = Some s.
Proof.
  apply settings_carried.
  - exact five_dollars_is_instance.
  - eapply chain_next.
    + eapply produces_add with (x := VNum (of_Z 1)). vm_compute. reflexivity.
    + eapply chain_next.
      * eapply produces_multiply with (x := of_Z 2). vm_compute. reflexivity.
      * apply chain_here.
Defined.


(** ** C9: [dollars] and [cents] *)

Lemma wrap32_small z : - 2 ^ 31 <= z < 2 ^ 31 -> wrap32 z = z.
Proof.
  intros H. unfold wrap32. rewrite Z.mod_small by lia. ring.
Qed.

Lemma Qtrunc_inject_Z z : Qtrunc (inject_Z z) = z.
Proof. unfold Qtrunc. simpl. apply Z.quot_1_r. Qed.

Lemma Qtrunc_div a p :
  p <> 0 -> Qtrunc (inject_Z a / inject_Z p) = Z.quot a p.
Proof.
  intros H. unfold Qtrunc, Qdiv, Qmult, Qinv, inject_Z.
  destruct p as [|p|p]; [contradiction| |]; simpl.
  - now rewrite Z.mul_1_r.
  - rewrite <- Z.opp_eq_mul_m1.
    change (Z.neg p) with (- Z.pos p).
    rewrite Z.quot_opp_l, Z.quot_opp_r by discriminate. reflexivity.
Qed.

Lemma nrem_Fin x y :
  nrem (Fin x) (Fin y)
  = if Qis_zero y then NaN
    else
      let r := (x - y * inject_Z (Qtrunc (x / y)))%Q in
      if Qis_zero r then zero_of_sign (Qis_neg x) else fin r.
Proof. reflexivity. Qed.

(** The remainder of two integers is exact; [~~] drops the sign of a
    zero. *)
Lemma cents_of_Z a p :
  p <> 0 -> to_int32 (nrem (of_Z a) (of_Z p)) = of_Z (wrap32 (Z.rem a p)).
Proof.
  intros H. unfold of_Z at 1 2. rewrite nrem_Fin.
  change (Qis_zero (inject_Z p)) with (p =? 0).
  destruct (Z.eqb_spec p 0); [contradiction|]. cbv zeta.
  rewrite Qtrunc_div by assumption.
  assert (E : (inject_Z a - inject_Z p * inject_Z (Z.quot a p)
               == inject_Z (Z.rem a p))%Q).
  { unfold Qminus. rewrite <- inject_Z_mult, <- inject_Z_opp, <- inject_Z_plus.
    f_equiv. pose proof (Z.quot_rem' a p). lia. }
  rewrite (Qis_zero_comp _ _ E), (fin_inject_Z _ _ E).
  change (Qis_zero (inject_Z (Z.rem a p))) with (Z.rem a p =? 0).
  destruct (Z.eqb_spec (Z.rem a p) 0) as [->|N].
  - destruct (Qis_neg (inject_Z a)); reflexivity.
  - unfold of_Z at 1. cbn [to_int32]. now rewrite Qtrunc_inject_Z.
Qed.

(** C9.  [dollars()] is documented to return the dollar value.  For the
    value 3000000000, which [toJSON()] returns as it is, [dollars()]
    returns -1294967296: [~~] keeps 32 bits of the integer part. *)
Theorem dollars_three_billion :
  eval (c <- new_Currency (VNum (of_Z 3000000000)) no_options ;; toJSON c)
       empty_store = Ok (of_Z 3000000000)
  /\ eval (c <- new_Currency (VNum (of_Z 3000000000)) no_options ;; dollars c)
          empty_store = Ok (of_Z (-1294967296))
  /\ eval (c <- new_Currency (VNum (of_Z 3000000000)) no_options ;; dollars c)
          empty_store <> Ok (of_Z (Qtrunc (inject_Z 3000000000))).
Proof. vm_compute. repeat split. discriminate. Qed.

(** Within the signed 32-bit range of [~~], [dollars()] is the [value]
    truncated toward zero, not rounded, and [cents()] is the remainder of
    [intValue] by the precision factor, signed as [intValue] is.  At
    precision 2 the value -1.5 has [dollars() == -1] and
    [cents() == -50]. *)
Lemma dollars_cents_truncate (h : store) (l : loc) (c : Currency) :
  instance_at h l = Some c ->
  (forall v,
      value c = Fin v ->
      - 2 ^ 31 <= Qtrunc v < 2 ^ 31 ->
      eval (dollars l) h = Ok (of_Z (Qtrunc v)))
  /\ (forall A P,
         intValue c = of_Z A ->
         _precision c = of_Z P ->
         P <> 0 ->
         - 2 ^ 31 <= Z.rem A P < 2 ^ 31 ->
         eval (cents l) h = Ok (of_Z (Z.rem A P)))
  /\ eval (x <- new_Currency (VNum (fin (-3 # 2))) no_options ;; dollars x)
          empty_store = Ok (of_Z (-1))
  /\ eval (x <- new_Currency (VNum (fin (-3 # 2))) no_options ;; cents x)
          empty_store = Ok (of_Z (-50)).
Proof.
  intros Hc. split; [|split; [|split]].
  - intros v Hv R. unfold eval, dollars, bind.
    rewrite (get_instance_at _ _ _ Hc). cbn [console_log ret fst].
    rewrite Hv. cbn [to_int32]. now rewrite wrap32_small.
  - intros A P Ha Hp HP R. unfold eval, cents, bind.
    rewrite (get_instance_at _ _ _ Hc). cbn [ret fst].
    rewrite Ha, Hp, cents_of_Z by assumption.
    now rewrite wrap32_small.
  - vm_compute. reflexivity.
  - vm_compute. reflexivity.
Qed.

(** ** [toString] under the default configuration *)

(** The increment the constructor computes at precision 2: the double
    nearest to 1/100. *)
Lemma default_increment_2 :
  ndiv (of_Z 1) (of_Z 100) = Fin (5764607523034235 # 576460752303423488).
Proof. vm_compute. reflexivity. Qed.

Lemma Qnearest_near x z :
  (inject_Z z - (1 # 2) <= x < inject_Z z + (1 # 2))%Q -> Qnearest x = z.
Proof.
  intros [L U]. unfold Qnearest. apply Qfloor_unique.
  rewrite inject_Z_plus. change (inject_Z 1) with 1%Q. split; lra.
Qed.

Lemma range_100 :
  (two_to (-1022) <= 1 # 1267650600228229401496703205376)%Q
  /\ (1267650600228229401496703205376 # 1 <= two_to 1023)%Q.
Proof.
  split.
  - apply (two_to_le (-1022) (-100)). lia.
  - apply (two_to_le 100 1023). lia.
Qed.

(** [rounding(intValue / 100, 0.01).toFixed(2)] for a positive amount. *)
Lemma rounding_text_pos z :
  0 < z <= 10 ^ 15 ->
  toFixed 2 (rounding (ndiv (of_Z z) (of_Z 100))
               (Fin (5764607523034235 # 576460752303423488)))
  = Ok (fixed_digits 2 (Z.to_N z)).
Proof.
  intros Hz. destruct range_100 as [T T'].
  assert (Z1 : (1 <= inject_Z z)%Q) by (apply (Z_le_Q 1 z); lia).
  assert (Z2 : (inject_Z z <= inject_Z (10 ^ 15))%Q) by (apply Z_le_Q; lia).
  change (inject_Z (10 ^ 15)) with (1000000000000000 # 1)%Q in Z2.
  set (i := (5764607523034235 # 576460752303423488)%Q).
  unfold rounding, of_Z. rewrite ndiv_Fin.
  change (Qis_zero (inject_Z 100)) with false. cbv iota.
  set (q := (inject_Z z / inject_Z 100)%Q).
  assert (Eq : (q == inject_Z z * (1 # 100))%Q) by (unfold q; field).
  destruct (binary64_normal (xorb (Qis_neg (inject_Z z)) (Qis_neg (inject_Z 100))) q)
    as [r1 [-> [_ [A1 A2]]]]; [split; lra|].
  change (two_to (-53)) with (1 # 9007199254740992)%Q in A1, A2.
  rewrite ndiv_Fin. change (Qis_zero i) with false. cbv iota.
  set (q2 := (r1 / i)%Q).
  assert (Eq2 : (q2 == r1 * (576460752303423488 # 5764607523034235))%Q)
    by (unfold q2, i; field).
  destruct (binary64_normal (xorb (Qis_neg r1) (Qis_neg i)) q2)
    as [r2 [-> [_ [B1 B2]]]]; [split; lra|].
  change (two_to (-53)) with (1 # 9007199254740992)%Q in B1, B2.
  rewrite (round_Fin_near r2 z) by (try lia; split; lra).
  unfold of_Z. rewrite nmul_Fin.
  set (q3 := (inject_Z z * i)%Q).
  assert (Eq3 : (q3 == inject_Z z * (5764607523034235 # 576460752303423488))%Q)
    by reflexivity.
  destruct (binary64_normal (xorb (Qis_neg (inject_Z z)) (Qis_neg i)) q3)
    as [r3 [-> [_ [C1 C2]]]]; [split; lra|].
  change (two_to (-53)) with (1 # 9007199254740992)%Q in C1, C2.
  assert (P : (0 < r3)%Q) by lra.
  rewrite toFixed_small; [|lia|].
  2:{ rewrite Qabs_of_pos by exact P. unfold ten21.
      change (inject_Z (10 ^ 21)) with (1000000000000000000000 # 1)%Q. lra. }
  cbv zeta. rewrite (Qis_neg_false r3) by lra.
  rewrite (Qnearest_near _ z); [reflexivity|].
  rewrite Qabs_of_pos by exact P.
  change (inject_Z (10 ^ 2)) with (100 # 1)%Q. split; lra.
Qed.

Lemma rounding_text_neg z :
  - 10 ^ 15 <= z < 0 ->
  toFixed 2 (rounding (ndiv (of_Z z) (of_Z 100))
               (Fin (5764607523034235 # 576460752303423488)))
  = Ok ("-" ++ fixed_digits 2 (Z.to_N (- z))).
Proof.
  intros Hz. destruct range_100 as [T T'].
  assert (Z1 : (inject_Z z <= -1)%Q) by (apply (Z_le_Q z (-1)); lia).
  assert (Z2 : (inject_Z (- 10 ^ 15) <= inject_Z z)%Q) by (apply Z_le_Q; lia).
  change (inject_Z (- 10 ^ 15)) with (-1000000000000000 # 1)%Q in Z2.
  set (i := (5764607523034235 # 576460752303423488)%Q).
  unfold rounding, of_Z. rewrite ndiv_Fin.
  change (Qis_zero (inject_Z 100)) with false. cbv iota.
  set (q := (inject_Z z / inject_Z 100)%Q).
  assert (Eq : (q == inject_Z z * (1 # 100))%Q) by (unfold q; field).
  destruct (binary64_normal_neg
              (xorb (Qis_neg (inject_Z z)) (Qis_neg (inject_Z 100))) q)
    as [r1 [-> [_ [A1 A2]]]]; [split; lra|].
  change (two_to (-53)) with (1 # 9007199254740992)%Q in A1, A2.
  rewrite ndiv_Fin. change (Qis_zero i) with false. cbv iota.
  set (q2 := (r1 / i)%Q).
  assert (Eq2 : (q2 == r1 * (576460752303423488 # 5764607523034235))%Q)
    by (unfold q2, i; field).
  destruct (binary64_normal_neg (xorb (Qis_neg r1) (Qis_neg i)) q2)
    as [r2 [-> [_ [B1 B2]]]]; [split; lra|].
  change (two_to (-53)) with (1 # 9007199254740992)%Q in B1, B2.
  rewrite (round_Fin_near r2 z) by (try lia; split; lra).
  unfold of_Z. rewrite nmul_Fin.
  set (q3 := (inject_Z z * i)%Q).
  assert (Eq3 : (q3 == inject_Z z * (5764607523034235 # 576460752303423488))%Q)
    by reflexivity.
  destruct (binary64_normal_neg (xorb (Qis_neg (inject_Z z)) (Qis_neg i)) q3)
    as [r3 [-> [_ [C1 C2]]]]; [split; lra|].
  change (two_to (-53)) with (1 # 9007199254740992)%Q in C1, C2.
  assert (P : (r3 < 0)%Q) by lra.
  rewrite toFixed_small; [|lia|].
  2:{ rewrite Qabs_of_neg by exact P. unfold ten21.
      change (inject_Z (10 ^ 21)) with (1000000000000000000000 # 1)%Q. lra. }
  cbv zeta. rewrite (proj2 (Qis_neg_lt r3)) by exact P.
  rewrite (Qnearest_near _ (- z)); [reflexivity|].
  rewrite Qabs_of_neg by exact P. rewrite inject_Z_opp.
  change (inject_Z (10 ^ 2)) with (100 # 1)%Q. split; lra.
Qed.

Lemma rounding_text x z :
  Z.abs z <= 10 ^ 15 -> stands_for x z ->
  toFixed 2 (rounding (ndiv x (of_Z 100)) (ndiv (of_Z 1) (of_Z 100)))
  = Ok (amount_text z).
Proof.
  intros Hz [->|[-> ->]]; [|vm_compute; reflexivity].
  rewrite default_increment_2. unfold amount_text.
  destruct (Z.lt_trichotomy z 0) as [N|[->|P]].
  - destruct (Z.ltb_spec z 0); [|lia]. rewrite Z.abs_neq by lia.
    apply rounding_text_neg. lia.
  - vm_compute. reflexivity.
  - destruct (Z.ltb_spec z 0); [lia|]. rewrite Z.abs_eq by lia.
    apply rounding_text_pos. lia.
Qed.

(** ** C8: from a decimal string and back *)

Lemma replace_parens_not_open s :
  all_chars not_open s = true -> replace_parens s = s.
Proof.
  induction s as [|c s IH]; [reflexivity|]. cbn [all_chars replace_parens].
  intros H. apply andb_prop in H as [H1 H2]. unfold not_open in H1.
  destruct (Ascii.eqb c "("); [discriminate|]. now rewrite IH.
Qed.

Lemma remove_all_kept drop s :
  all_chars (fun c => negb (drop c)) s = true -> remove_all drop s = s.
Proof.
  induction s as [|c s IH]; [reflexivity|]. cbn [all_chars remove_all].
  intros H. apply andb_prop in H as [H1 H2].
  destruct (drop c); [discriminate|]. now rewrite IH.
Qed.

Lemma replace_class_same c s : replace_class (Ascii.eqb c) c s = s.
Proof.
  induction s as [|a s IH]; [reflexivity|]. cbn [replace_class]. rewrite IH.
  destruct (Ascii.eqb_spec c a); congruence.
Qed.

Lemma numeric_not_open c : numeric_char c = true -> not_open c = true.
Proof.
  unfold numeric_char, not_open. destruct (Ascii.eqb_spec c "(") as [->|]; [|reflexivity].
  intros H. discriminate H.
Qed.

(** On a text of digits, minus signs and points the three [replace]
    calls of the string branch change nothing. *)
Lemma replaces_numeric s :
  all_chars numeric_char s = true ->
  replace_class (Ascii.eqb ".") "."
    (remove_all (fun c => negb (minus_or_digit c || Ascii.eqb c "."))
       (replace_parens s)) = s.
Proof.
  intros H. rewrite replace_parens_not_open.
  - rewrite remove_all_kept; [apply replace_class_same|].
    eapply all_chars_weaken; [|exact H].
    intros c Hc. rewrite negb_involutive. exact Hc.
  - eapply all_chars_weaken; [apply numeric_not_open | exact H].
Qed.

Lemma binary64_any_sign b b' q : ~ (q == 0)%Q -> binary64 b q = binary64 b' q.
Proof.
  intros H. unfold binary64. now rewrite (Qis_zero_false q H).
Qed.

Lemma truthy_near r z :
  z <> 0 -> (inject_Z z - (3 # 10) <= r <= inject_Z z + (3 # 10))%Q ->
  truthy (Fin r) = true.
Proof.
  intros N [L U]. cbn [truthy]. rewrite Qis_zero_false; [reflexivity|].
  destruct (Z.lt_trichotomy z 0) as [H|[H|H]]; [|contradiction|].
  - pose proof (Z_le_Q z (-1) ltac:(lia)) as B.
    change (inject_Z (-1)) with (-1)%Q in B. lra.
  - pose proof (Z_le_Q 1 z ltac:(lia)) as B.
    change (inject_Z 1) with 1%Q in B. lra.
Qed.

(** An amount of minor units, [v || 0] and the end of [parse]. *)
Lemma or_zero_finish z P :
  Z.abs z <= 2 ^ 50 -> z <> 0 -> 1 <= P <= 10 ^ 22 ->
  finish true
    (if truthy (nmul (ndiv (of_Z z) (of_Z P)) (of_Z P))
     then nmul (ndiv (of_Z z) (of_Z P)) (of_Z P)
     else of_Z 0)
  = Ok (of_Z z).
Proof.
  intros Hz N HP. destruct (Z.lt_trichotomy z 0) as [H|[H|H]]; [|contradiction|].
  - destruct (scale_back_neg z P ltac:(lia) HP) as [r [-> R]].
    rewrite (truthy_near r z N R). apply finish_near_neg; [lia | exact R].
  - destruct (scale_back_pos z P ltac:(lia) HP) as [r [-> R]].
    rewrite (truthy_near r z N R). apply finish_near_pos; [lia | exact R].
Qed.

Lemma minor_units_value (neg : bool) ip fp :
  (nb_digits fp <= 2)%nat ->
  let m := (inject_Z (Z.of_N (N.of_uint (Decimal.app ip fp)))
            * Qpower (inject_Z 10) (0 - Z.of_nat (nb_digits fp)))%Q in
  ((if neg then - m else m) == inject_Z (minor_units neg ip fp) / inject_Z 100)%Q.
Proof.
  intros Hf m. unfold minor_units. cbv zeta. subst m.
  set (n := Z.of_N (N.of_uint (Decimal.app ip fp))).
  set (f := Z.of_nat (nb_digits fp)).
  assert (E : (inject_Z n * Qpower (inject_Z 10) (0 - f)
               == inject_Z (n * 10 ^ (2 - f)) / inject_Z 100)%Q).
  { rewrite inject_Z_mult, Zpower_Qpower by lia.
    replace (2 - f) with ((0 - f) + 2) by ring.
    rewrite Qpower_plus by discriminate.
    change (Qpower (inject_Z 10) 2) with (inject_Z 100). field. }
  destruct neg.
  - rewrite inject_Z_opp, E. field.
  - exact E.
Qed.

Lemma parse_decimal_text neg ip fp :
  ip <> Nil -> (nb_digits fp <= 2)%nat ->
  Z.abs (minor_units neg ip fp) <= 10 ^ 15 ->
  parse (VStr (decimal_text neg ip fp)) (Object_assign defaults no_options) true
  = Ok (of_Z (minor_units neg ip fp)).
Proof.
  intros Hi Hf Hb. rewrite parse_string.
  change (decimal (Object_assign defaults no_options)) with "."%char.
  change (precision (Object_assign defaults no_options)) with 2.
  change (RegExp_non_numeric ".")
    with (@Ok (string -> string)
            (remove_all (fun c => negb (minus_or_digit c || Ascii.eqb c ".")))).
  change (RegExp_decimal ".")
    with (@Ok (string -> string) (replace_class (Ascii.eqb ".") ".")).
  cbn [bind_result]. cbv zeta.
  rewrite replaces_numeric by apply numeric_decimal_text.
  rewrite to_number_decimal_text by exact Hi.
  rewrite pow_nonneg by lia. change (10 ^ 2) with 100.
  pose proof (minor_units_value neg ip fp Hf) as E. cbv zeta in E.
  unfold literal_value. cbv zeta.
  rewrite (binary64_comp _ _ _ E).
  set (z := minor_units neg ip fp) in *.
  pose proof ten15_bounds as [T _].
  destruct (Z.eq_dec z 0) as [Z0|N].
  - rewrite Z0. rewrite binary64_zero by reflexivity.
    destruct neg; vm_compute; reflexivity.
  - assert (Q : ~ (inject_Z z / inject_Z 100 == 0)%Q).
    { intros C. apply N. unfold Qeq, Qdiv, Qmult, Qinv, inject_Z in C.
      simpl in C. lia. }
    rewrite (binary64_any_sign neg
               (xorb (Qis_neg (inject_Z z)) (Qis_neg (inject_Z 100))) _ Q).
    change (binary64 (xorb (Qis_neg (inject_Z z)) (Qis_neg (inject_Z 100)))
              (inject_Z z / inject_Z 100))
      with (ndiv (of_Z z) (of_Z 100)).
    apply or_zero_finish; [lia | exact N |].
    pose proof (pow_10_bounds 22 ltac:(lia)). lia.
Qed.

Lemma uint_app_assoc a b c :
  Decimal.app a (Decimal.app b c) = Decimal.app (Decimal.app a b) c.
Proof.
  apply DecimalFacts.to_list_inj.
  rewrite !DecimalFacts.app_spec. apply List.app_assoc.
Qed.

Lemma iter_mul_10 k x : Nat.iter k (Z.mul 10) x = x * 10 ^ Z.of_nat k.
Proof.
  induction k as [|k IH].
  - simpl. lia.
  - rewrite Nat2Z.inj_succ, Z.pow_succ_r by lia.
    change (Nat.iter (S k) (Z.mul 10) x) with (10 * Nat.iter k (Z.mul 10) x).
    rewrite IH. ring.
Qed.

Lemma of_uint_zeros d k :
  Z.of_N (N.of_uint (Decimal.app d (Nat.iter k D0 Nil)))
  = Z.of_N (N.of_uint d) * 10 ^ Z.of_nat k.
Proof.
  rewrite <- iter_mul_10. apply (DecimalZ.of_uint_iter_D0 d k).
Qed.

Lemma of_uint_zero_iff d : N.of_uint d = 0%N <-> nzhead d = Nil.
Proof.
  rewrite <- DecimalFacts.unorm_0. split; intros H.
  - rewrite <- DecimalN.Unsigned.to_of, H. reflexivity.
  - rewrite <- DecimalN.Unsigned.of_uint_norm, H. reflexivity.
Qed.

Lemma fixed_digits_decimal ip fp2 :
  ip <> Nil -> nb_digits fp2 = 2%nat ->
  fixed_digits 2 (N.of_uint (Decimal.app ip fp2))
  = digits_string (unorm ip) ++ "." ++ digits_string fp2.
Proof.
  intros Hi Hf. unfold fixed_digits.
  rewrite DecimalN.Unsigned.to_of.
  set (m := unorm (Decimal.app ip fp2)).
  assert (P : (if Nat.leb (nb_digits m) 2
               then Nat.iter (2 + 1 - nb_digits m) D0 m else m)
              = Decimal.app (unorm ip) fp2).
  { destruct (Decimal.uint_eq_dec (nzhead ip) Nil) as [Z|NZ].
    - assert (M : m = unorm fp2) by (now apply DecimalFacts.unorm_app_l_nil).
      assert (F : fp2 <> Nil) by (intros ->; discriminate).
      pose proof (DecimalFacts.nb_digits_unorm fp2 F) as B.
      pose proof (DecimalFacts.iter_D0_unorm fp2 F) as I.
      rewrite M. rewrite Hf in *.
      destruct (Nat.leb_spec (nb_digits (unorm fp2)) 2); [|lia].
      replace (2 + 1 - nb_digits (unorm fp2))%nat
        with (S (2 - nb_digits (unorm fp2))) by lia.
      change (Nat.iter (S ?n) D0 ?d) with (D0 (Nat.iter n D0 d)).
      rewrite I. unfold unorm. rewrite Z. reflexivity.
    - assert (G : (nb_digits fp2 < nb_digits m)%nat).
      { apply Nat.nle_gt. intros Hle.
        apply DecimalFacts.unorm_app_zero in Hle.
        unfold unorm in Hle. destruct (nzhead ip) eqn:E; try discriminate.
        + congruence.
        + now apply (DecimalFacts.nzhead_nonzero ip u). }
      pose proof (DecimalFacts.unorm_app_l ip fp2 G) as U. fold m in U.
      destruct (Nat.leb_spec (nb_digits m) 2); [lia|]. exact U. }
  rewrite P, nb_digits_app, Hf.
  rewrite DecimalFacts.del_tail_app by lia.
  rewrite <- Hf at 1. rewrite DecimalFacts.del_tail_nb_digits, DecimalFacts.app_nil_r.
  replace (nb_digits (unorm ip) + 2 - 2)%nat with (nb_digits (unorm ip)) by lia.
  rewrite DecimalFacts.del_head_app by lia.
  rewrite DecimalFacts.del_head_nb_digits. reflexivity.
Qed.

Lemma all_zero_spec d : all_zero d = (Z.of_N (N.of_uint d) =? 0).
Proof.
  unfold all_zero. pose proof (of_uint_zero_iff d) as Z.
  destruct (Z.eqb_spec (Z.of_N (N.of_uint d)) 0) as [Hz|Hz].
  - assert (Hn : N.of_uint d = 0%N) by lia.
    apply Z in Hn. now rewrite Hn.
  - destruct (nzhead d); [|reflexivity ..].
    exfalso. apply Hz. now rewrite (proj2 Z eq_refl).
Qed.

(** The text of the minor units of a decimal string is its normal
    form. *)
Lemma amount_text_normalized neg ip fp :
  ip <> Nil -> (nb_digits fp <= 2)%nat ->
  amount_text (minor_units neg ip fp) = normalized 2 neg ip fp.
Proof.
  intros Hi Hf. unfold amount_text.
  set (M := Z.of_N (N.of_uint (Decimal.app ip fp))) in *.
  set (k := (2 - nb_digits fp)%nat).
  set (fp2 := Decimal.app fp (Nat.iter k D0 Nil)).
  assert (HM : 0 <= M) by apply N2Z.is_nonneg.
  assert (Hk : 2 - Z.of_nat (nb_digits fp) = Z.of_nat k) by (unfold k; lia).
  assert (Habs : Z.abs (minor_units neg ip fp) = M * 10 ^ Z.of_nat k).
  { unfold minor_units. cbv zeta. fold M. rewrite Hk.
    pose proof (Z.pow_nonneg 10 (Z.of_nat k) ltac:(lia)).
    destruct neg; [rewrite Z.abs_opp|]; apply Z.abs_eq; nia. }
  assert (Hto : Z.to_N (Z.abs (minor_units neg ip fp))
                = N.of_uint (Decimal.app ip fp2)).
  { rewrite Habs. unfold fp2. rewrite uint_app_assoc.
    unfold M. rewrite <- of_uint_zeros. apply N2Z.id. }
  assert (Hfp2 : nb_digits fp2 = 2%nat).
  { unfold fp2. rewrite nb_digits_app, DecimalFacts.nb_digits_iter_D0.
    simpl. unfold k. lia. }
  rewrite Hto, fixed_digits_decimal by assumption.
  assert (Hsign : (minor_units neg ip fp <? 0)
                  = neg && negb (all_zero (Decimal.app ip fp))).
  { pose proof (all_zero_spec (Decimal.app ip fp)) as Z0. fold M in Z0.
    rewrite Z0. unfold minor_units. cbv zeta. fold M. rewrite Hk.
    pose proof (Z.pow_pos_nonneg 10 (Z.of_nat k) ltac:(lia) ltac:(lia)).
    destruct neg; cbn [andb].
    - destruct (Z.eqb_spec M 0), (Z.ltb_spec (- (M * 10 ^ Z.of_nat k)) 0);
        try reflexivity; cbn [negb]; nia.
    - destruct (Z.ltb_spec (M * 10 ^ Z.of_nat k) 0); [nia|reflexivity]. }
  rewrite Hsign. unfold normalized. fold k. fold fp2.
  destruct (neg && negb (all_zero (Decimal.app ip fp))); reflexivity.
Qed.

(** [toString()] of an instance the constructor built at the default
    precision and increment. *)
Lemma toString_default h s x z :
  precision s = 2 -> increment s = None ->
  Z.abs z <= 10 ^ 15 -> stands_for x z ->
  toString (List.length (instances h)) (constructed h s x)
  = (Ok (amount_text z), constructed h s x).
Proof.
  intros Hp Hi Hz Hx. rewrite toString_constructed. f_equal.
  unfold default_increment. rewrite Hp, Hi.
  rewrite pow_nonneg by lia. change (10 ^ 2) with 100.
  now apply rounding_text.
Qed.

(** The string 45035996273704.95 is a decimal string with two fractional
    digits; the constructor reads it as 4503599627370495 minor units and
    [toString()] returns 45035996273704.96. *)
Lemma round_trip_fails_at_2_52 :
  decimal_text false (N.to_uint 45035996273704) (N.to_uint 95)
  = "45035996273704.95"
  /\ normalized 2 false (N.to_uint 45035996273704) (N.to_uint 95)
     = "45035996273704.95"
  /\ eval (c <- new_Currency (VStr "45035996273704.95") no_options ;; toString c)
          empty_store
     = Ok "45035996273704.96"
  /\ eval (c <- new_Currency
                  (VStr (decimal_text false (N.to_uint 45035996273704) (N.to_uint 95)))
                  no_options ;;
           toString c) empty_store
     <> Ok (normalized 2 false (N.to_uint 45035996273704) (N.to_uint 95)).
Proof. vm_compute. repeat split. discriminate. Qed.

(** C8, amended.  Under the default configuration, a decimal string with
    at most two fractional digits that denotes an amount of at most 10^15
    minor units in magnitude comes back from the constructor and
    [toString()] in normal form: sign (none on zero), integer digits
    without leading zeros, the point, and exactly two fractional
    digits. *)
Theorem decimal_round_trip (h : store) (neg : bool) (ip fp : uint) :
  ip <> Nil ->
  (nb_digits fp <= 2)%nat ->
  Z.abs (minor_units neg ip fp) <= 10 ^ 15 ->
  eval (c <- new_Currency (VStr (decimal_text neg ip fp)) no_options ;; toString c) h
  = Ok (normalized 2 neg ip fp).
Proof.
  intros Hi Hf Hb. unfold eval, bind.
  rewrite new_Currency_unfold. cbv zeta.
  rewrite parse_decimal_text by assumption.
  rewrite (toString_default h _ _ (minor_units neg ip fp)); try reflexivity.
  - cbn [fst]. now rewrite amount_text_normalized.
  - exact Hb.
  - now left.
Qed.

Lemma decimal_round_trip_witness :
  eval (c <- new_Currency (VStr "-012.5") no_options ;; toString c) empty_store
  = Ok "-12.50".
Proof.
  apply (decimal_round_trip empty_store true (D0 (D1 (D2 Nil))) (D5 Nil)).
  - discriminate.
  - simpl. lia.
  - vm_compute. discriminate.
Defined.

(** * Further properties of the module *)

(** ** [parse]: the characters of a string *)

Lemma remove_all_twice f t : remove_all f (remove_all f t) = remove_all f t.
Proof.
  induction t as [|c t IH]; [reflexivity|]. cbn [remove_all].
  destruct (f c) eqn:F; [exact IH|]. cbn [remove_all]. now rewrite F, IH.
Qed.

Lemma all_chars_remove_all p f t :
  all_chars p t = true -> all_chars p (remove_all f t) = true.
Proof.
  induction t as [|c t IH]; [reflexivity|]. cbn [all_chars remove_all].
  intros H. apply andb_true_iff in H. destruct H as [Hc Ht].
  destruct (f c); [now apply IH|]. cbn [all_chars]. now rewrite Hc, IH.
Qed.

(** X3.  Apart from parentheses, the characters [parse] has no use for
    make no difference: when the decimal mark is not a closing bracket, a
    string parses like what is left of it once everything but digits,
    minus signs and decimal marks is removed. *)
Theorem parse_ignores_other_characters (t : string) (s : settings) (r : bool) :
  decimal s <> "]"%char ->
  all_chars not_open t = true ->
  parse (VStr t) s r = parse (VStr (remove_all (dropped (decimal s)) t)) s r.
Proof.
  intros D H. rewrite !parse_string. unfold RegExp_non_numeric, RegExp_decimal.
  destruct (Ascii.eqb (decimal s) "092"); [reflexivity|].
  destruct (Ascii.eqb_spec (decimal s) "]"); [contradiction|].
  cbn [bind_result].
  change (fun c => negb (minus_or_digit c || Ascii.eqb c (decimal s)))
    with (dropped (decimal s)).
  rewrite (replace_parens_not_open t H).
  rewrite (replace_parens_not_open _ (all_chars_remove_all _ _ _ H)).
  now rewrite remove_all_twice.
Qed.

Lemma parse_ignores_other_characters_witness :
  parse (VStr "$1,234.56 USD") defaults true = parse (VStr "1234.56") defaults true.
Proof.
  apply (parse_ignores_other_characters "$1,234.56 USD" defaults true).
  - discriminate.
  - reflexivity.
Defined.

Lemma last_close_end t :
  all_chars inline_char t = true ->
  last_close (t ++ ")") = Some (t, EmptyString).
Proof.
  induction t as [|c t IH]; [reflexivity|]. cbn [all_chars append last_close].
  intros H. apply andb_true_iff in H. destruct H as [Hc Ht].
  unfold inline_char in Hc. apply andb_true_iff in Hc. destruct Hc as [_ Hc].
  apply negb_true_iff in Hc. rewrite Hc, (IH Ht). reflexivity.
Qed.

Lemma inline_not_open t :
  all_chars inline_char t = true -> all_chars not_open t = true.
Proof.
  induction t as [|c t IH]; [reflexivity|]. cbn [all_chars].
  intros H. apply andb_true_iff in H. destruct H as [Hc Ht].
  unfold inline_char in Hc. apply andb_true_iff in Hc. destruct Hc as [Hc _].
  now rewrite Hc, IH.
Qed.

(** X4.  Accounting notation: a text in parentheses parses like the same
    text behind a minus sign, as long as the text itself opens no
    parenthesis and stays on one line. *)
Theorem parse_parentheses_negate (t : string) (s : settings) (r : bool) :
  all_chars inline_char t = true ->
  parse (VStr ("(" ++ t ++ ")")) s r = parse (VStr ("-" ++ t)) s r.
Proof.
  intros H.
  assert (E : replace_parens ("(" ++ t ++ ")") = replace_parens ("-" ++ t)).
  { change (replace_parens ("(" ++ t ++ ")"))
      with (match last_close (t ++ ")") with
            | Some (inner, after) => "-" ++ inner ++ after
            | None => String "(" (replace_parens (t ++ ")"))
            end).
    rewrite (last_close_end t H), append_empty_r.
    change (replace_parens ("-" ++ t)) with (String "-" (replace_parens t)).
    now rewrite (replace_parens_not_open t (inline_not_open t H)). }
  rewrite !parse_string.
  destruct (RegExp_non_numeric (decimal s)); [|reflexivity].
  destruct (RegExp_decimal (decimal s)); [|reflexivity].
  cbn [bind_result]. now rewrite E.
Qed.

Lemma parse_parentheses_negate_witness :
  parse (VStr "($1.99)") defaults true = parse (VStr "-$1.99") defaults true
  /\ parse (VStr "($1.99)") defaults true = Ok (of_Z (-199)).
Proof.
  split.
  - apply (parse_parentheses_negate "$1.99" defaults true). reflexivity.
  - vm_compute. reflexivity.
Defined.

(** ** Arithmetic on instances *)

Lemma is_instance_settings_amount h l s A :
  is_instance h l -> settings_of h l = Some s ->
  intValue_at h l = Some (of_Z A) ->
  exists c, regular h l c s /\ intValue c = of_Z A.
Proof.
  intros I S V. destruct (is_instance_amount h l A I V) as [c [s' [R Ha]]].
  assert (s' = s) as -> by (eapply settings_of_regular; eassumption).
  now exists c.
Qed.

(** X5.  At a precision from 0 to 22, adding the number nearest to [B]
    minor units and subtracting it again gives back the amount, as long
    as the amounts stay within 10^15 minor units: the sum has [intValue]
    [A + B] and the difference [A]. *)
Theorem add_then_subtract (h : store) (l : loc) (s : settings) (A B : Z) :
  is_instance h l ->
  settings_of h l = Some s ->
  0 <= precision s <= 22 ->
  intValue_at h l = Some (of_Z A) ->
  Z.abs A <= 10 ^ 15 -> Z.abs B <= 10 ^ 15 -> Z.abs (A + B) <= 10 ^ 15 ->
  exists l1 h1 l2 h2,
    add l (VNum (ndiv (of_Z B) (pow (precision s)))) h = (Ok l1, h1)
    /\ intValue_at h1 l1 = Some (of_Z (A + B))
    /\ subtract l1 (VNum (ndiv (of_Z B) (pow (precision s)))) h1 = (Ok l2, h2)
    /\ intValue_at h2 l2 = Some (of_Z A).
Proof.
  intros I S Hp V HA HB HAB. pose proof ten15_bounds as [T _].
  destruct (is_instance_settings_amount h l s A I S V) as [c [R Ha]].
  assert (Hb : parse (VNum (ndiv (of_Z B) (pow (precision s)))) s true = Ok (of_Z B))
    by (apply parse_amount; [exact Hp | lia]).
  pose proof (add_amount h l c s A B _ R Ha Hb Hp ltac:(lia)) as H1.
  pose proof (regular_constructed h s (of_Z (A + B))) as R1.
  assert (Hp' : 0 <= precision (completed s) <= 22) by exact Hp.
  assert (Hb' : parse (VNum (ndiv (of_Z B) (pow (precision s)))) (completed s) true
                = Ok (of_Z B)) by exact Hb.
  pose proof (subtract_amount _ _ _ _ (A + B) B _ R1 eq_refl Hb' Hp') as H2.
  replace (A + B - B) with A in H2 by ring.
  do 4 eexists. split; [exact H1|].
  split; [apply intValue_at_constructed|].
  split; [apply H2; lia|]. apply intValue_at_constructed.
Qed.

Lemma add_then_subtract_witness :
  exists l1 h1 l2 h2,
    add 0%nat (VNum (ndiv (of_Z 10) (pow 2))) five_dollars = (Ok l1, h1)
    /\ intValue_at h1 l1 = Some (of_Z 510)
    /\ subtract l1 (VNum (ndiv (of_Z 10) (pow 2))) h1 = (Ok l2, h2)
    /\ intValue_at h2 l2 = Some (of_Z 500).
Proof.
  apply (add_then_subtract five_dollars 0%nat default_config 500 10).
  - exact five_dollars_is_instance.
  - reflexivity.
  - vm_compute. split; discriminate.
  - reflexivity.
  - vm_compute. discriminate.
  - vm_compute. discriminate.
  - vm_compute. discriminate.
Defined.

Lemma nmul_stands_for a b :
  Z.abs (a * b) <= 2 ^ 53 -> stands_for (nmul (of_Z a) (of_Z b)) (a * b).
Proof.
  intros B. unfold of_Z at 1 2. rewrite nmul_Fin.
  rewrite (binary64_inject_Z _ _ (a * b)) by (rewrite ?inject_Z_mult; easy).
  destruct (Z.eqb_spec (a * b) 0) as [E|E]; [|now left].
  rewrite E. destruct (xorb _ _); [right; now split | now left].
Qed.

(** X6.  At a precision from 0 to 22, multiplying by a whole number
    multiplies the amount, as long as the product stays within 10^15
    minor units: the result has [intValue] [A * k]. *)
Theorem multiply_by_integer (h : store) (l : loc) (s : settings) (A k : Z) :
  is_instance h l ->
  settings_of h l = Some s ->
  0 <= precision s <= 22 ->
  intValue_at h l = Some (of_Z A) ->
  Z.abs (A * k) <= 10 ^ 15 ->
  exists l' h',
    multiply l (of_Z k) h = (Ok l', h')
    /\ intValue_at h' l' = Some (of_Z (A * k)).
Proof.
  intros I S Hp V B. pose proof ten15_bounds as [T _]. pose proof pow2_50_53.
  destruct (is_instance_settings_amount h l s A I S V) as [c [[Hc [Hs HP]] Ha]].
  unfold multiply, bind.
  rewrite (get_instance_at _ _ _ Hc), (get_settings_at _ _ _ Hs), Ha.
  rewrite (new_Currency_with_amount _ _ _ _ (A * k) Hs Hp);
    [| lia | apply nmul_stands_for; lia].
  do 2 eexists. split; [reflexivity|]. apply intValue_at_constructed.
Qed.

Lemma multiply_by_integer_witness :
  exists l' h',
    multiply 0%nat (of_Z 3) five_dollars = (Ok l', h')
    /\ intValue_at h' l' = Some (of_Z 1500).
Proof.
  apply (multiply_by_integer five_dollars 0%nat default_config 500 3).
  - exact five_dollars_is_instance.
  - reflexivity.
  - vm_compute. split; discriminate.
  - reflexivity.
  - vm_compute. discriminate.
Defined.

(** Without rounding, [parse] leaves an integer of at most 53 bits as it
    is. *)
Lemma finish_false_Z z :
  Z.abs z <= 2 ^ 53 -> finish false (of_Z z) = Ok (of_Z z).
Proof.
  intros B. destruct (Z.eq_dec z 0) as [->|N]; [vm_compute; reflexivity|].
  unfold finish, of_Z. rewrite toFixed_small; [|lia|].
  2:{ change (Qabs (inject_Z z)) with (inject_Z (Z.abs z)). unfold ten21.
      apply Z_lt_Q. change (2 ^ 53) with 9007199254740992 in B.
      change (10 ^ 21) with 1000000000000000000000. lia. }
  cbn [bind_result]. cbv zeta.
  change (Qabs (inject_Z z)) with (inject_Z (Z.abs z)).
  rewrite (Qnearest_Z _ (Z.abs z * 10 ^ 4)) by (now rewrite inject_Z_mult).
  rewrite to_number_fixed_digits. cbv zeta.
  rewrite Z2N.id by lia.
  change (inject_Z (10 ^ Z.of_nat (Z.to_nat 4))) with (inject_Z (10 ^ 4)).
  rewrite (binary64_inject_Z _ _ z).
  - destruct (Z.eqb_spec z 0); [contradiction|reflexivity].
  - change (Qis_neg (inject_Z z)) with (z <? 0). rewrite inject_Z_mult.
    destruct (Z.ltb_spec z 0).
    + rewrite Z.abs_neq, inject_Z_opp by lia. field. discriminate.
    + rewrite Z.abs_eq by lia. field. discriminate.
  - exact B.
Qed.

Lemma parse_zero_stands_for s x :
  0 <= precision s <= 22 -> stands_for x 0 ->
  parse (VNum x) s true = Ok (of_Z 0).
Proof.
  intros Hp Hx. rewrite parse_number, pow_nonneg by exact Hp.
  pose proof (pow_10_bounds _ Hp) as B.
  destruct Hx as [->|[-> _]].
  - rewrite nmul_of_Z_nonneg by lia. exact finish_zero.
  - rewrite nmul_NZero_l by lia. exact finish_negative_zero.
Qed.

(** X7.  At a precision from 0 to 22, dividing an amount by a whole
    number that divides it is exact, as long as the quotient and the
    divisor in minor units stay within 10^15: [B * k] divided by [k] is
    [B]. *)
Theorem divide_exact (h : store) (l : loc) (s : settings) (B k : Z) :
  is_instance h l ->
  settings_of h l = Some s ->
  0 <= precision s <= 22 ->
  intValue_at h l = Some (of_Z (B * k)) ->
  k <> 0 ->
  Z.abs B <= 10 ^ 15 ->
  Z.abs (k * 10 ^ precision s) <= 10 ^ 15 ->
  exists l' h',
    divide l (VNum (of_Z k)) h = (Ok l', h')
    /\ intValue_at h' l' = Some (of_Z B).
Proof.
  intros I S Hp V Hk HB HK. pose proof ten15_bounds as [T _]. pose proof pow2_50_53.
  destruct (is_instance_settings_amount h l s _ I S V) as [c [[Hc [Hs HP]] Ha]].
  pose proof (pow_10_bounds _ Hp) as BP. set (P := 10 ^ precision s) in *.
  assert (Hd : parse (VNum (of_Z k)) s false = Ok (of_Z (k * P))).
  { rewrite parse_number, pow_nonneg by exact Hp. fold P.
    rewrite nmul_of_Z by nia. apply finish_false_Z. lia. }
  unfold divide, bind.
  rewrite (get_instance_at _ _ _ Hc), (get_settings_at _ _ _ Hs).
  unfold lift. rewrite Hd, Ha.
  assert (Hq : parse (VNum (ndiv (of_Z (B * k)) (of_Z (k * P)))) s true
               = Ok (of_Z B)).
  { destruct (Z.eq_dec B 0) as [->|NB].
    - rewrite Z.mul_0_l, ndiv_zero_l by nia.
      apply parse_zero_stands_for; [exact Hp|].
      destruct (k * P <? 0); [right; now split | now left].
    - rewrite <- (parse_amount s B Hp ltac:(lia)).
      rewrite pow_nonneg by exact Hp. fold P. f_equal. f_equal.
      unfold of_Z. rewrite !ndiv_Fin.
      change (Qis_zero (inject_Z ?z)) with (z =? 0).
      destruct (Z.eqb_spec (k * P) 0); [nia|].
      destruct (Z.eqb_spec P 0); [lia|].
      assert (E : (inject_Z (B * k) / inject_Z (k * P)
                   == inject_Z B / inject_Z P)%Q).
      { rewrite !inject_Z_mult. field.
        split; intros C; unfold Qeq in C; simpl in C; lia. }
      rewrite (binary64_comp _ _ _ E). apply binary64_any_sign.
      intros C. unfold Qeq, Qdiv, Qmult, Qinv, inject_Z in C.
      destruct P as [|P'|P']; try lia. simpl in C. lia. }
  rewrite (new_Currency_with_parsed _ _ _ _ (of_Z B) Hs Hq) by discriminate.
  do 2 eexists. split; [reflexivity|]. apply intValue_at_constructed.
Qed.

Lemma divide_exact_witness :
  exists l' h',
    divide 0%nat (VNum (of_Z 4)) five_dollars = (Ok l', h')
    /\ intValue_at h' l' = Some (of_Z 125).
Proof.
  apply (divide_exact five_dollars 0%nat default_config 125 4).
  - exact five_dollars_is_instance.
  - reflexivity.
  - vm_compute. split; discriminate.
  - reflexivity.
  - discriminate.
  - vm_compute. discriminate.
  - vm_compute. discriminate.
Defined.

(** *** Division by zero, and an instance as operand *)

Lemma nmul_NaN_l x : nmul NaN x = NaN.
Proof. reflexivity. Qed.

Lemma nadd_NaN_r a : nadd a NaN = NaN.
Proof. destruct a; reflexivity. Qed.

Lemma nsub_NaN_r a : nsub a NaN = NaN.
Proof. destruct a; reflexivity. Qed.

Lemma ndiv_NaN_r a : ndiv a NaN = NaN.
Proof. destruct a; reflexivity. Qed.

Lemma ndiv_NaN_l a : ndiv NaN a = NaN.
Proof. reflexivity. Qed.

Lemma finish_NaN r : finish r NaN = Ok NaN.
Proof. destruct r; vm_compute; reflexivity. Qed.

Lemma finish_infinity r neg : finish r (inf_of_sign neg) = Ok (inf_of_sign neg).
Proof. destruct r, neg; vm_compute; reflexivity. Qed.

Lemma parse_NaN s r : parse (VNum NaN) s r = Ok NaN.
Proof. rewrite parse_number, nmul_NaN_l. apply finish_NaN. Qed.

Lemma pow10_pos p : (0 < Qpower (inject_Z 10) p)%Q.
Proof. apply Qpower_0_lt. reflexivity. Qed.

(** [Math.pow(10, p)] is zero (far below), infinite (far above) or a
    positive number. *)
Lemma pow_cases p :
  pow p = of_Z 0 \/ pow p = PInf \/ exists r, pow p = Fin r /\ (0 < r)%Q.
Proof.
  unfold pow. pose proof (pow10_pos p) as P.
  rewrite binary64_pos by exact P.
  destruct (Qis_zero (round53 (Qpower (inject_Z 10) p))) eqn:Z0; [now left|].
  destruct (Qle_bool _ _); [right; now left|].
  right; right. eexists. split; [reflexivity|]. rewrite Qred_correct.
  pose proof (round53_nonneg _ (Qlt_le_weak _ _ P)) as N.
  destruct (Qle_lt_or_eq _ _ N) as [G|G]; [exact G|].
  symmetry in G. apply Qis_zero_true in G. congruence.
Qed.

(** What [parse] hands to its last steps: a product with the precision
    factor, or zero. *)
Lemma parse_shape v s r :
  (exists e, parse v s r = Throw e)
  \/ (exists n, parse v s r = finish r (nmul n (pow (precision s))))
  \/ parse v s r = finish r (of_Z 0).
Proof.
  destruct v as [ | |b|n|t|l].
  - unfold parse. cbv zeta. destruct (errorOnInvalid s);
      [left; now exists InvalidInput | now right; right].
  - unfold parse. cbv zeta. destruct (errorOnInvalid s);
      [left; now exists InvalidInput | now right; right].
  - unfold parse. cbv zeta. destruct (errorOnInvalid s);
      [left; now exists InvalidInput | now right; right].
  - right; left. now exists n.
  - rewrite parse_string.
    destruct (RegExp_non_numeric (decimal s)) as [f|e]; [|left; now exists e].
    destruct (RegExp_decimal (decimal s)) as [g|e]; [|left; now exists e].
    cbn [bind_result]. cbv zeta.
    destruct (truthy _); [right; left; eexists; reflexivity | now right; right].
  - right; left. now exists NaN.
Qed.

Lemma nmul_PInf_r n :
  nmul n PInf = NaN \/ nmul n PInf = PInf \/ nmul n PInf = NInf.
Proof.
  destruct n as [| | | |x].
  - left. reflexivity.
  - right; left. reflexivity.
  - right; right. reflexivity.
  - left. reflexivity.
  - unfold nmul. cbn [real sign_bit]. destruct (Qis_zero x); [now left|].
    destruct (xorb _ _); cbn [inf_of_sign]; auto.
Qed.

Lemma nmul_zero_r n :
  nmul n (of_Z 0) = NaN \/ nmul n (of_Z 0) = of_Z 0 \/ nmul n (of_Z 0) = NZero.
Proof.
  destruct n as [| | | |x].
  - left. reflexivity.
  - left. reflexivity.
  - left. reflexivity.
  - right; right. vm_compute. reflexivity.
  - unfold of_Z. rewrite nmul_Fin, binary64_zero by ring.
    destruct (xorb _ _); cbn [zero_of_sign]; auto.
Qed.

(** An instance whose [intValue] is an integer other than zero has a
    precision factor that is a positive number. *)
Lemma amount_has_factor v s A :
  parse v s true = Ok (of_Z A) -> A <> 0 ->
  exists r, pow (precision s) = Fin r /\ (0 < r)%Q.
Proof.
  intros H N.
  destruct (pow_cases (precision s)) as [E|[E|E]]; [| |exact E]; exfalso;
    destruct (parse_shape v s true) as [[e X]|[[n X]|X]];
    rewrite X in H; try discriminate; rewrite ?E in H.
  - destruct (nmul_zero_r n) as [Y|[Y|Y]]; rewrite Y in H; vm_compute in H;
      try discriminate; injection H as H; destruct A; try discriminate;
      now apply N.
  - vm_compute in H. injection H as H. destruct A; try discriminate. now apply N.
  - destruct (nmul_PInf_r n) as [Y|[Y|Y]]; rewrite Y in H; vm_compute in H;
      discriminate.
  - vm_compute in H. injection H as H. destruct A; try discriminate. now apply N.
Qed.

Lemma is_instance_parsed h l :
  is_instance h l ->
  exists c s v,
    regular h l c s /\ parse v s true = Ok (intValue c)
    /\ value c = ndiv (intValue c) (pow (precision s)).
Proof.
  intros [v [opts [h0 [h1 [Hnew Hext]]]]].
  rewrite new_Currency_unfold in Hnew. cbv zeta in Hnew.
  destruct (parse _ _ true) as [n|e] eqn:E; [|discriminate].
  injection Hnew as <- <-.
  do 3 eexists. split; [|split].
  - eapply regular_extends; [eassumption|]. apply regular_constructed.
  - exact E.
  - reflexivity.
Qed.

Lemma parse_infinity r neg s :
  (0 < r)%Q -> pow (precision s) = Fin r ->
  parse (VNum (inf_of_sign neg)) s true = Ok (inf_of_sign neg).
Proof.
  intros Hr E. rewrite parse_number, E.
  assert (X : nmul (inf_of_sign neg) (Fin r) = inf_of_sign neg).
  { unfold nmul. destruct neg; cbn [inf_of_sign real sign_bit];
      rewrite Qis_zero_false, (Qis_neg_false r) by lra; reflexivity. }
  rewrite X. apply finish_infinity.
Qed.

(** X8.  Division by zero does not throw: it returns an instance whose
    [intValue] is an infinity with the sign of the amount, or [NaN] when
    the amount is zero. *)
Theorem divide_by_zero (h : store) (l : loc) (A : Z) :
  is_instance h l ->
  intValue_at h l = Some (of_Z A) ->
  exists l' h',
    divide l (VNum (of_Z 0)) h = (Ok l', h')
    /\ intValue_at h' l'
       = Some (if A =? 0 then NaN else inf_of_sign (A <? 0)).
Proof.
  intros I V. destruct (is_instance_parsed h l I) as [c [s [v [[Hc [Hs Hp]] [Hv _]]]]].
  assert (Ha : intValue c = of_Z A).
  { unfold intValue_at in V. rewrite Hc in V. now injection V. }
  rewrite Ha in Hv.
  unfold divide, bind.
  rewrite (get_instance_at _ _ _ Hc), (get_settings_at _ _ _ Hs).
  unfold lift. rewrite parse_number, Ha.
  assert (X : exists d,
             finish false (nmul (of_Z 0) (pow (precision s))) = Ok d
             /\ parse (VNum (ndiv (of_Z A) d)) s true
                = Ok (if A =? 0 then NaN else inf_of_sign (A <? 0))).
  { destruct (Z.eqb_spec A 0) as [->|N].
    - destruct (pow_cases (precision s)) as [E|[E|[r [E Hr]]]]; rewrite E.
      + exists (of_Z 0). split; [vm_compute; reflexivity|]. apply parse_NaN.
      + exists NaN. split; [vm_compute; reflexivity|]. apply parse_NaN.
      + exists (of_Z 0). split; [|apply parse_NaN].
        unfold of_Z. rewrite nmul_Fin, binary64_zero by ring.
        rewrite (Qis_neg_false r) by lra. vm_compute. reflexivity.
    - destruct (amount_has_factor v s A Hv N) as [r [E Hr]]. rewrite E.
      exists (of_Z 0). split.
      + unfold of_Z. rewrite nmul_Fin, binary64_zero by ring.
        rewrite (Qis_neg_false r) by lra. vm_compute. reflexivity.
      + unfold of_Z. rewrite ndiv_Fin.
        change (Qis_zero (inject_Z 0)) with true.
        change (Qis_zero (inject_Z A)) with (A =? 0).
        destruct (Z.eqb_spec A 0); [contradiction|].
        change (Qis_neg (inject_Z 0)) with false. rewrite xorb_false_r.
        change (Qis_neg (inject_Z A)) with (A <? 0).
        now apply (parse_infinity r). }
  destruct X as [d [-> Hq]].
  rewrite (new_Currency_with_parsed _ _ _ _ _ Hs Hq) by discriminate.
  do 2 eexists. split; [reflexivity|]. apply intValue_at_constructed.
Qed.

Lemma divide_by_zero_witness :
  exists l' h',
    divide 0%nat (VNum (of_Z 0)) five_dollars = (Ok l', h')
    /\ intValue_at h' l' = Some PInf.
Proof.
  apply (divide_by_zero five_dollars 0%nat 500).
  - exact five_dollars_is_instance.
  - reflexivity.
Defined.

(** X9.  An instance given as operand contributes no amount: [add],
    [subtract] and [divide] with an instance as argument each return an
    instance whose [intValue] is [NaN], whatever the two amounts are. *)
Theorem instance_operand_gives_NaN (h : store) (l b : loc) :
  is_instance h l ->
  (exists l' h', add l (VCurrency b) h = (Ok l', h')
                 /\ intValue_at h' l' = Some NaN)
  /\ (exists l' h', subtract l (VCurrency b) h = (Ok l', h')
                    /\ intValue_at h' l' = Some NaN)
  /\ (exists l' h', divide l (VCurrency b) h = (Ok l', h')
                    /\ intValue_at h' l' = Some NaN).
Proof.
  intros I. destruct (is_instance_regular h l I) as [c [s [[Hc [Hs Hp]] _]]].
  unfold add, subtract, divide, bind.
  rewrite (get_instance_at _ _ _ Hc), (get_settings_at _ _ _ Hs).
  unfold lift. rewrite !parse_instance, nadd_NaN_r, nsub_NaN_r, ndiv_NaN_r, ndiv_NaN_l.
  rewrite (new_Currency_with_parsed _ _ _ _ NaN Hs (parse_NaN s true))
    by discriminate.
  repeat split; do 2 eexists; (split; [reflexivity|]);
    apply intValue_at_constructed.
Qed.

Lemma instance_operand_gives_NaN_witness :
  exists l' h',
    add 0%nat (VCurrency 0%nat) five_dollars = (Ok l', h')
    /\ intValue_at h' l' = Some NaN.
Proof.
  apply (instance_operand_gives_NaN five_dollars 0%nat 0%nat).
  exact five_dollars_is_instance.
Defined.

(** ** [toString] *)

Lemma toString_regular h l c s :
  regular h l c s ->
  toString l h
  = (toFixed (precision s)
       (rounding (ndiv (intValue c) (pow (precision s)))
          (number_of (increment s))), h).
Proof.
  intros [Hc [Hs Hp]]. unfold toString, bind.
  rewrite (get_instance_at _ _ _ Hc), (get_settings_at _ _ _ Hs), Hp.
  reflexivity.
Qed.

(** The text of [toString()] at precision 2 with the increment the
    constructor computes. *)
Lemma toString_amount h l c s z :
  regular h l c s -> intValue c = of_Z z ->
  precision s = 2 -> increment s = Some (ndiv (of_Z 1) (pow 2)) ->
  Z.abs z <= 10 ^ 15 ->
  toString l h = (Ok (amount_text z), h).
Proof.
  intros R Ha Hp Hi B. rewrite (toString_regular _ _ _ _ R), Ha, Hp, Hi.
  cbn [number_of]. rewrite pow_nonneg by lia. change (10 ^ 2) with 100.
  f_equal. apply rounding_text; [exact B | now left].
Qed.

Lemma amount_text_decimal z :
  exists ip fp,
    ip <> Nil /\ nb_digits fp = 2%nat
    /\ minor_units (z <? 0) ip fp = z
    /\ amount_text z = decimal_text (z <? 0) ip fp.
Proof.
  destruct (fixed_digits_text (z <? 0) 2 (Z.to_N (Z.abs z)))
    as [ip [fp [Hip [Hfp [Hn E]]]]].
  exists ip, fp. split; [exact Hip|]. split; [exact Hfp|]. split; [|exact E].
  unfold minor_units. cbv zeta. rewrite Hn, Hfp, Z2N.id by lia.
  change (2 - Z.of_nat 2) with 0. rewrite Z.pow_0_r, Z.mul_1_r.
  destruct (Z.ltb_spec z 0); lia.
Qed.

(** X10.  Under the default configuration the text [toString()] returns
    for an amount of at most 10^15 minor units is read back by the
    constructor as the same amount. *)
Theorem toString_reads_back (h : store) (l : loc) (z : Z) :
  is_instance h l ->
  settings_of h l = Some default_config ->
  intValue_at h l = Some (of_Z z) ->
  Z.abs z <= 10 ^ 15 ->
  exists t,
    eval (toString l) h = Ok t
    /\ forall h2, exists l2 h3,
         new_Currency (VStr t) no_options h2 = (Ok l2, h3)
         /\ intValue_at h3 l2 = Some (of_Z z).
Proof.
  intros I S V B.
  destruct (is_instance_settings_amount h l _ z I S V) as [c [R Ha]].
  unfold eval.
  rewrite (toString_amount h l c default_config z R Ha eq_refl eq_refl B).
  cbn [fst]. eexists. split; [reflexivity|]. intros h2.
  destruct (amount_text_decimal z) as [ip [fp [Hip [Hfp [Hm ->]]]]].
  rewrite new_Currency_unfold. cbv zeta.
  rewrite parse_decimal_text by (try assumption; lia).
  do 2 eexists. split; [reflexivity|].
  rewrite intValue_at_constructed. now rewrite Hm.
Qed.

Lemma minus_one_fifty_is_instance : is_instance minus_one_fifty 0%nat.
Proof.
  exists (VNum (fin (-3 # 2))), no_options, empty_store, minus_one_fifty.
  split; [vm_compute; reflexivity | apply extends_refl].
Qed.

Lemma toString_reads_back_witness :
  exists t,
    eval (toString 0%nat) minus_one_fifty = Ok t
    /\ forall h2, exists l2 h3,
         new_Currency (VStr t) no_options h2 = (Ok l2, h3)
         /\ intValue_at h3 l2 = Some (of_Z (-150)).
Proof.
  apply (toString_reads_back minus_one_fifty 0%nat (-150)).
  - exact minus_one_fifty_is_instance.
  - reflexivity.
  - reflexivity.
  - vm_compute. discriminate.
Defined.

(** X11.  An instance can be built at any precision, but [toString()]
    and [format()] throw a [RangeError] on one whose precision is
    negative or above 100. *)
Theorem toString_range_error (h : store) (l : loc) (s : settings)
    (useSymbol : option bool) :
  is_instance h l ->
  settings_of h l = Some s ->
  precision s < 0 \/ 100 < precision s ->
  eval (toString l) h = Throw RangeError
  /\ eval (format l useSymbol) h = Throw RangeError.
Proof.
  intros I S P. destruct (is_instance_regular h l I) as [c [s' [R _]]].
  assert (s' = s) as -> by (eapply settings_of_regular; eassumption).
  assert (T : toString l h = (Throw RangeError, h)).
  { rewrite (toString_regular _ _ _ _ R). unfold toFixed.
    replace ((precision s <? 0) || (100 <? precision s))%bool with true;
      [reflexivity|].
    symmetry. apply orb_true_iff. rewrite !Z.ltb_lt. exact P. }
  split.
  - unfold eval. now rewrite T.
  - unfold eval, format, bind. destruct R as [Hc [Hs _]].
    rewrite (get_instance_at _ _ _ Hc), (get_settings_at _ _ _ Hs), T.
    reflexivity.
Qed.

Lemma toString_range_error_witness :
  is_instance one_at_precision_101 0%nat
  /\ eval (toString 0%nat) one_at_precision_101 = Throw RangeError
  /\ eval (format 0%nat None) one_at_precision_101 = Throw RangeError.
Proof.
  assert (I : is_instance one_at_precision_101 0%nat).
  { exists (VNum (of_Z 1)), (with_precision 101), empty_store, one_at_precision_101.
    split; [vm_compute; reflexivity | apply extends_refl]. }
  split; [exact I|].
  apply (toString_range_error one_at_precision_101 0%nat
           (completed (Object_assign defaults (with_precision 101))) None).
  - exact I.
  - reflexivity.
  - right. reflexivity.
Defined.

(** ** [format] *)

Lemma digit_not_dollar c : is_digit c = true -> not_dollar c = true.
Proof.
  unfold not_dollar. destruct (Ascii.eqb_spec c "$") as [->|]; [discriminate|auto].
Qed.

Lemma substitute_plain m b a caps t :
  all_chars not_dollar t = true -> substitute m b a caps t = t.
Proof.
  induction t as [|c t IH]; [reflexivity|]. cbn [all_chars]. intros H.
  apply andb_true_iff in H. destruct H as [Hc Ht].
  cbn [substitute]. unfold not_dollar in Hc. rewrite Hc. now rewrite IH.
Qed.

Lemma substitute_first_group m b a g1 g2 sep :
  all_chars not_dollar sep = true ->
  substitute m b a [g1; g2] ("$1" ++ sep) = g1 ++ sep.
Proof.
  intros H.
  change ("$1" ++ sep) with (String "$" (String "1" sep)).
  destruct sep as [|c2 r2].
  - reflexivity.
  - cbn [all_chars] in H. apply andb_true_iff in H. destruct H as [Hc Ht].
    assert (P2 : substitute m b a [g1; g2] r2 = r2) by now apply substitute_plain.
    cbn [substitute]. unfold not_dollar in Hc. rewrite !Hc, !P2.
    change (negb (Ascii.eqb "$" "$")) with false. cbv iota.
    change (Ascii.eqb "1" "$") with false.
    change (Ascii.eqb "1" "&") with false.
    change (Ascii.eqb "1" "`") with false.
    change (Ascii.eqb "1" "'") with false.
    change (is_digit "1") with true.
    change (digit_value "1") with 1%nat. cbv iota.
    cbn [nth_error].
    destruct (is_digit c2); [|reflexivity].
    destruct (10 * 1 + digit_value c2)%nat as [|n] eqn:E; [reflexivity|].
    destruct n as [|[|n]]; [cbn in E; lia ..|].
    destruct n; reflexivity.
Qed.

Lemma digit_run_all d : all_chars is_digit d = true -> digit_run d = String.length d.
Proof.
  induction d as [|c d IH]; [reflexivity|]. cbn [all_chars digit_run String.length].
  intros H. apply andb_true_iff in H. destruct H as [Hc Hd].
  now rewrite Hc, IH.
Qed.

Lemma get_length (d : string) : get (String.length d) d = None.
Proof. induction d as [|c d IH]; [reflexivity|exact IH]. Qed.

Lemma look_ahead_digits g d :
  all_chars is_digit d = true ->
  (exists g2, look_ahead g d = Some g2 /\ separator_due g (String.length d) = true)
  \/ (look_ahead g d = None /\ separator_due g (String.length d) = false).
Proof.
  intros H. unfold look_ahead, boundary_after.
  rewrite (digit_run_all _ H), get_length. unfold separator_due.
  destruct g.
  - destruct (_ && _); [left; eexists; split; reflexivity | right; split; reflexivity].
  - destruct (_ && _); [left; eexists; split; reflexivity | right; split; reflexivity].
Qed.

Lemma replace_groups_digits before g sep d :
  all_chars is_digit d = true ->
  all_chars not_dollar sep = true ->
  replace_groups_from before g ("$1" ++ sep) d = grouped g sep d.
Proof.
  intros H S. revert before. induction d as [|c d IH]; intros before; [reflexivity|].
  cbn [all_chars] in H. apply andb_true_iff in H. destruct H as [Hc Hd].
  cbn [replace_groups_from grouped]. rewrite Hc, (IH Hd).
  destruct (look_ahead_digits g d Hd) as [[g2 [-> ->]] | [-> ->]].
  - now rewrite substitute_first_group.
  - reflexivity.
Qed.

Lemma split_dot_digits d : split_dot (digits_string d) = [digits_string d].
Proof.
  induction d; [reflexivity| ..]; unfold digits_string in *;
    cbn [NilEmpty.string_of_uint split_dot]; now rewrite IHd.
Qed.

Lemma split_dot_point d rest :
  split_dot (digits_string d ++ String "." rest)
  = digits_string d :: split_dot rest.
Proof.
  induction d; [reflexivity| ..]; unfold digits_string in *;
    cbn [NilEmpty.string_of_uint split_dot append]; now rewrite IHd.
Qed.

Lemma drop_minus_digits d rest :
  d <> Nil -> drop_minus (digits_string d ++ rest) = digits_string d ++ rest.
Proof. destruct d; [congruence| reflexivity ..]. Qed.

Lemma digits_string_cons d :
  d <> Nil -> exists c r, digits_string d = String c r.
Proof. destruct d; [congruence| do 2 eexists; reflexivity ..]. Qed.

Lemma nge0_minor z :
  Z.abs z <= 10 ^ 15 -> nge0 (ndiv (of_Z z) (of_Z 100)) = negb (z <? 0).
Proof.
  intros B. destruct range_100 as [T T'].
  destruct (Z.lt_trichotomy z 0) as [N|[->|P]].
  - destruct (Z.ltb_spec z 0); [|lia].
    assert (Z1 : (inject_Z z <= -1)%Q) by (apply (Z_le_Q z (-1)); lia).
    assert (Z2 : (inject_Z (- 10 ^ 15) <= inject_Z z)%Q) by (apply Z_le_Q; lia).
    change (inject_Z (- 10 ^ 15)) with (-1000000000000000 # 1)%Q in Z2.
    unfold of_Z. rewrite ndiv_Fin.
    change (Qis_zero (inject_Z 100)) with false. cbv iota.
    assert (Eq : (inject_Z z / inject_Z 100 == inject_Z z * (1 # 100))%Q) by field.
    destruct (binary64_normal_neg
                (xorb (Qis_neg (inject_Z z)) (Qis_neg (inject_Z 100)))
                (inject_Z z / inject_Z 100))
      as [r [-> [_ [A1 A2]]]]; [split; lra|].
    change (two_to (-53)) with (1 # 9007199254740992)%Q in A1, A2.
    cbn [nge0 negb]. rewrite Qis_neg_true by lra. reflexivity.
  - vm_compute. reflexivity.
  - destruct (Z.ltb_spec z 0); [lia|].
    assert (Z1 : (1 <= inject_Z z)%Q) by (apply (Z_le_Q 1 z); lia).
    assert (Z2 : (inject_Z z <= inject_Z (10 ^ 15))%Q) by (apply Z_le_Q; lia).
    change (inject_Z (10 ^ 15)) with (1000000000000000 # 1)%Q in Z2.
    unfold of_Z. rewrite ndiv_Fin.
    change (Qis_zero (inject_Z 100)) with false. cbv iota.
    assert (Eq : (inject_Z z / inject_Z 100 == inject_Z z * (1 # 100))%Q) by field.
    destruct (binary64_normal
                (xorb (Qis_neg (inject_Z z)) (Qis_neg (inject_Z 100)))
                (inject_Z z / inject_Z 100))
      as [r [-> [_ [A1 A2]]]]; [split; lra|].
    change (two_to (-53)) with (1 # 9007199254740992)%Q in A1, A2.
    cbn [nge0 negb]. rewrite Qis_neg_false by lra. reflexivity.
Qed.

Lemma all_chars_grouped p g sep d :
  all_chars p sep = true -> all_chars p d = true ->
  all_chars p (grouped g sep d) = true.
Proof.
  intros S. induction d as [|c d IH]; [auto|]. cbn [all_chars grouped]. intros H.
  apply andb_true_iff in H. destruct H as [Hc Hd]. rewrite Hc.
  apply all_chars_app; [|now apply IH].
  now destruct (separator_due _ _).
Qed.

(** X16.  Under the default configuration, with [useVedic] set or not,
    [format] gives the text of [toString()] of an amount of at most 10^15
    minor units rearranged: the minus sign first, then the symbol when
    asked for, then the integer digits with a comma put in by position
    (in threes from the right, or in the vedic style in pairs before the
    last three), then the point and the two fraction digits. *)
Theorem format_groups_digits (h : store) (l : loc) (z : Z) (v useSymbol : option bool) :
  is_instance h l ->
  settings_of h l = Some (completed (Object_assign defaults (vedic_options v))) ->
  intValue_at h l = Some (of_Z z) ->
  Z.abs z <= 10 ^ 15 ->
  exists ip fp,
    nb_digits fp = 2%nat
    /\ eval (toString l) h = Ok (decimal_text (z <? 0) ip fp)
    /\ eval (format l useSymbol) h
       = Ok ((if z <? 0 then "-" else EmptyString)
             ++ (if override useSymbol false then "$" else EmptyString)
             ++ grouped (if override v false then vedicRegex else groupRegex) ","
                  (digits_string ip)
             ++ "." ++ digits_string fp).
Proof.
  intros I S V B. destruct (is_instance_parsed h l I) as [c [s [x [R [_ Hv]]]]].
  assert (s = completed (Object_assign defaults (vedic_options v))) as ->
    by (eapply settings_of_regular; eassumption).
  assert (Ha : intValue c = of_Z z).
  { unfold intValue_at in V. rewrite (proj1 R) in V. now injection V. }
  set (cfg := completed (Object_assign defaults (vedic_options v))) in *.
  assert (G : groups cfg = Some (if override v false then vedicRegex else groupRegex))
    by (destruct v as [[|]|]; reflexivity).
  pose proof (toString_amount h l c cfg z R Ha eq_refl eq_refl B) as T.
  destruct (fixed_digits_shape 2 (Z.to_N (Z.abs z)))
    as [[ip [_ [F _]]] | [ip [fp [Hip [Hfp [Hn E]]]]]]; [discriminate|].
  unfold amount_text in T. rewrite E in T.
  exists ip, fp. split; [exact Hfp|].
  assert (Nfp : fp <> Nil) by (intros ->; discriminate).
  destruct (digits_string_cons fp Nfp) as [a [r Efp]].
  split.
  - unfold eval. rewrite T. cbn [fst]. unfold decimal_text.
    destruct fp; [congruence| destruct (z <? 0); reflexivity ..].
  - destruct R as [Hc [Hs Hp]].
    unfold eval, format, bind.
    rewrite (get_instance_at _ _ _ Hc), (get_settings_at _ _ _ Hs), T.
    cbn [ret fst]. rewrite G, Hv, Ha.
    change (precision cfg) with 2. rewrite pow_nonneg by lia.
    change (10 ^ 2) with 100. rewrite nge0_minor by exact B.
    change (separator cfg) with ",". change (decimal cfg) with "."%char.
    change (formatWithSymbol cfg) with false.
    change (symbol cfg) with "$". change (pattern cfg) with "!#".
    change (negativePattern cfg) with "-!#".
    assert (D : drop_minus (if z <? 0
                            then "-" ++ digits_string ip ++ "." ++ digits_string fp
                            else digits_string ip ++ "." ++ digits_string fp)
                = digits_string ip ++ String "." (digits_string fp)).
    { destruct (z <? 0); [reflexivity|]. now apply drop_minus_digits. }
    rewrite D, split_dot_point, split_dot_digits.
    cbn [nth nth_error]. rewrite Efp, <- Efp.
    unfold replace_groups.
    rewrite replace_groups_digits by (apply all_chars_digits || reflexivity).
    set (g := if override v false then vedicRegex else groupRegex).
    set (number := grouped g "," (digits_string ip)
                   ++ String "."%char (digits_string fp)).
    assert (P : forall m b a, substitute m b a [] number = number).
    { intros. apply substitute_plain. unfold number. apply all_chars_app.
      - apply all_chars_grouped; [reflexivity|].
        eapply all_chars_weaken; [apply digit_not_dollar | apply all_chars_digits].
      - cbn [all_chars]. apply andb_true_iff. split; [reflexivity|].
        eapply all_chars_weaken; [apply digit_not_dollar | apply all_chars_digits]. }
    destruct (z <? 0), (override useSymbol false); cbn; rewrite P, ?append_empty_r; reflexivity.
Qed.

Lemma format_groups_digits_witness :
  exists ip fp,
    nb_digits fp = 2%nat
    /\ eval (toString 0%nat) vedic_amount = Ok (decimal_text false ip fp)
    /\ eval (format 0%nat (Some true)) vedic_amount
       = Ok ("$" ++ grouped vedicRegex "," (digits_string ip)
             ++ "." ++ digits_string fp).
Proof.
  apply (format_groups_digits vedic_amount 0%nat 123456750 (Some true) (Some true)).
  - exists (VNum (fin (2469135 # 2))), (vedic_options (Some true)),
      empty_store, vedic_amount.
    split; [vm_compute; reflexivity | apply extends_refl].
  - reflexivity.
  - reflexivity.
  - vm_compute. discriminate.
Defined.

Example format_vedic_sample :
  eval (format 0%nat (Some true)) vedic_amount = Ok "$12,34,567.50".
Proof. vm_compute. reflexivity. Qed.

(** ** [distribute] outside its domain *)









(** ** The console *)

Lemma quiet_ret {A} (a : A) : quiet (ret a).
Proof. now intros h r h' [= _ <-]. Qed.

Lemma quiet_lift {A} (r : result A) : quiet (lift r).
Proof. now intros h r' h' [= _ <-]. Qed.

Lemma quiet_bind {A B} (m : M A) (k : A -> M B) :
  quiet m -> (forall a, quiet (k a)) -> quiet (bind m k).
Proof.
  intros Hm Hk h r h'. unfold bind.
  destruct (m h) as [[a|e] h1] eqn:E.
  - intros Hka. rewrite (Hk _ _ _ _ Hka). eapply Hm; eassumption.
  - intros [= _ <-]. eapply Hm; eassumption.
Qed.

Lemma quiet_get_instance l : quiet (get_instance l).
Proof.
  intros h r h'. unfold get_instance.
  destruct (nth_error _ _); now intros [= _ <-].
Qed.

Lemma quiet_get_settings l : quiet (get_settings l).
Proof.
  intros h r h'. unfold get_settings.
  destruct (nth_error _ _); now intros [= _ <-].
Qed.

Lemma quiet_alloc_settings s : quiet (alloc_settings s).
Proof. now intros h r h' [= _ <-]. Qed.

Lemma quiet_alloc_instance c : quiet (alloc_instance c).
Proof. now intros h r h' [= _ <-]. Qed.

Create HintDb quiet discriminated.
#[local] Hint Resolve quiet_ret quiet_lift quiet_get_instance quiet_get_settings
  quiet_alloc_settings quiet_alloc_instance : quiet.

Ltac quiet_steps :=
  repeat first
    [ apply quiet_bind; [| intros ?]
    | solve [auto with quiet] ].

Lemma quiet_new_Currency v opts : quiet (new_Currency v opts).
Proof. unfold new_Currency. quiet_steps. Qed.

Lemma quiet_new_Currency_with v ls : quiet (new_Currency_with v ls).
Proof. unfold new_Currency_with. quiet_steps. Qed.

#[local] Hint Resolve quiet_new_Currency quiet_new_Currency_with : quiet.

Lemma quiet_add l x : quiet (add l x).
Proof. unfold add. quiet_steps. Qed.

Lemma quiet_subtract l x : quiet (subtract l x).
Proof. unfold subtract. quiet_steps. Qed.

Lemma quiet_multiply l x : quiet (multiply l x).
Proof. unfold multiply. quiet_steps. Qed.

Lemma quiet_divide l x : quiet (divide l x).
Proof. unfold divide. quiet_steps. Qed.

#[local] Hint Resolve quiet_add quiet_subtract quiet_multiply quiet_divide : quiet.

Lemma quiet_distribute_item c split pennies : quiet (distribute_item c split pennies).
Proof.
  unfold distribute_item. quiet_steps.
  destruct (ngt0 pennies); [destruct (nge0 (intValue c))|]; auto with quiet.
Qed.

Lemma quiet_cents l : quiet (cents l).
Proof. unfold cents. quiet_steps. Qed.

Lemma quiet_toString l : quiet (toString l).
Proof. unfold toString. quiet_steps. Qed.

Lemma quiet_toJSON l : quiet (toJSON l).
Proof. unfold toJSON. quiet_steps. Qed.

Lemma quiet_format l u : quiet (format l u).
Proof. unfold format. quiet_steps. Qed.

Lemma quiet_distribute_loop fuel c split :
  forall count pennies dist h r h',
    distribute_loop fuel c split count pennies dist h = Some (r, h') ->
    console h' = console h.
Proof.
  induction fuel as [|fuel IH]; intros count pennies dist h r h'; simpl.
  - discriminate.
  - destruct (nonzero count).
    + destruct (distribute_item c split pennies h) as [[item|e] h1] eqn:E.
      * intros H. rewrite (IH _ _ _ _ _ _ H).
        eapply quiet_distribute_item; eassumption.
      * intros [= _ <-]. eapply quiet_distribute_item; eassumption.
    + now intros [= _ <-].
Qed.

Lemma quiet_answering {A} (f : A -> answer) (m : M A) h r h' :
  quiet m -> answering f m h = Some (r, h') -> console h' = console h.
Proof.
  intros G. unfold answering. destruct (m h) as [[a|e] h1] eqn:E;
    intros [= _ <-]; eapply G; eassumption.
Qed.

(** X13.  Of the ten operations only [dollars()] writes to the console:
    a call of it that finds its receiver logs the receiver's [value],
    once; a call of any other operation logs nothing. *)
Theorem only_dollars_logs (m : method) (l : loc) (h : store) (c : Currency)
    (r : result answer) (h' : store) :
  instance_at h l = Some c ->
  call m l h = Some (r, h') ->
  console h' = match m with
               | m_dollars => (console h ++ [value c])%list
               | _ => console h
               end.
Proof.
  intros Hc. destruct m; simpl;
    try (apply quiet_answering;
         auto using quiet_cents, quiet_format, quiet_toString, quiet_toJSON
           with quiet).
  - unfold distribute. rewrite (get_instance_at _ _ _ Hc).
    destruct (distribute_loop _ _ _ _ _ _ h) as [[[ls|e] h1]|] eqn:E;
      intros [= _ <-]; eapply quiet_distribute_loop; eassumption.
  - unfold answering, dollars, bind.
    rewrite (get_instance_at _ _ _ Hc). now intros [= _ <-].
Qed.

Lemma only_dollars_logs_witness :
  console (snd (dollars 0%nat five_dollars)) = [of_Z 5]
  /\ console (snd (cents 0%nat five_dollars)) = [].
Proof.
  split.
  - apply (only_dollars_logs m_dollars 0%nat five_dollars
             (Build_Currency (of_Z 500) (of_Z 5) 0%nat (of_Z 100))
             (Ok (an_number (of_Z 5))));
      reflexivity.
  - apply (only_dollars_logs m_cents 0%nat five_dollars
             (Build_Currency (of_Z 500) (of_Z 5) 0%nat (of_Z 100))
             (Ok (an_number (of_Z 0))));
      reflexivity.
Defined.

(** ** Major and minor units *)

(** X14.  [toJSON()] returns the amount in major units: [intValue]
    divided by 10 to the precision of the instance. *)
Theorem toJSON_major_units (h : store) (l : loc) (s : settings) (v : num) :
  is_instance h l ->
  settings_of h l = Some s ->
  intValue_at h l = Some v ->
  eval (toJSON l) h = Ok (ndiv v (pow (precision s))).
Proof.
  intros I S V. destruct (is_instance_parsed h l I) as [c [s' [x [R [_ Hv]]]]].
  assert (s' = s) as -> by (eapply settings_of_regular; eassumption).
  unfold eval, toJSON, bind. rewrite (get_instance_at _ _ _ (proj1 R)).
  cbn [ret fst]. rewrite Hv.
  unfold intValue_at in V. rewrite (proj1 R) in V. now injection V as ->.
Qed.

Lemma toJSON_major_units_witness :
  eval (toJSON 0%nat) minus_one_fifty = Ok (fin (-3 # 2)).
Proof.
  apply (toJSON_major_units minus_one_fifty 0%nat default_config (of_Z (-150))).
  - exact minus_one_fifty_is_instance.
  - reflexivity.
  - reflexivity.
Defined.

(** *** Every [intValue] is a Number of the format *)

Lemma unsigned_literal_double neg s : double (unsigned_literal neg s).
Proof.
  unfold unsigned_literal.
  destruct (String.eqb s "Infinity"); [destruct neg; exact I|].
  destruct (read_digits s) as [ip s2].
  destruct (match s2 with
            | String c r => if Ascii.eqb c "." then read_digits r else (Nil, s2)
            | EmptyString => (Nil, s2)
            end) as [fp s3].
  destruct ip, fp; try exact I;
    destruct (read_exponent s3); try exact I; apply binary64_double.
Qed.

Lemma to_number_double s : double (to_number s).
Proof.
  unfold to_number. destruct (trim_end (trim_start s)) as [|c t].
  - apply (representable_Z 0). discriminate.
  - destruct (radix_literal (String c t)); [apply binary64_double|].
    destruct (read_sign (String c t)). apply unsigned_literal_double.
Qed.

Lemma round_double a : double a -> double (round a).
Proof.
  destruct a as [| | | |x]; try exact (fun H => H).
  intros [m [u [Hm [Hu E]]]]. unfold round. cbv zeta.
  set (n := Qfloor (x + (1 # 2))).
  destruct ((n =? 0) && Qis_neg x); [exact I|]. cbn [double of_Z].
  destruct (Z.le_gt_cases 0 u) as [U|U].
  - assert (X : (x == inject_Z (m * 2 ^ u))%Q)
      by (now rewrite E, inject_Z_mult, <- two_to_Z).
    exists m, u. split; [exact Hm|]. split; [exact Hu|].
    rewrite <- E, X. unfold n. fold (Qnearest x).
    now rewrite (Qnearest_Z x _ X).
  - apply representable_Z.
    assert (T : (two_to u <= 1 # 2)%Q) by (apply (two_to_le u (-1)); lia).
    pose proof (two_to_pos u) as T0.
    assert (M1 : (inject_Z (- 2 ^ 53) <= inject_Z m)%Q) by (apply Z_le_Q; lia).
    assert (M2 : (inject_Z m <= inject_Z (2 ^ 53))%Q) by (apply Z_le_Q; lia).
    change (inject_Z (- 2 ^ 53)) with (-9007199254740992 # 1)%Q in M1.
    change (inject_Z (2 ^ 53)) with (9007199254740992 # 1)%Q in M2.
    assert (X1 : (x <= 4503599627370496 # 1)%Q) by (rewrite E; nra).
    assert (X2 : (-4503599627370496 # 1 <= x)%Q) by (rewrite E; nra).
    pose proof (Qfloor_le (x + (1 # 2))) as L.
    pose proof (Qlt_floor (x + (1 # 2))) as G. fold n in L, G.
    rewrite inject_Z_plus in G. change (inject_Z 1) with 1%Q in G.
    change (2 ^ 53) with 9007199254740992.
    assert (N1 : (inject_Z n < inject_Z 4503599627370497)%Q)
      by (change (inject_Z 4503599627370497) with (4503599627370497 # 1)%Q; lra).
    assert (N2 : (inject_Z (-4503599627370497) < inject_Z n)%Q)
      by (change (inject_Z (-4503599627370497)) with (-4503599627370497 # 1)%Q; lra).
    rewrite <- Zlt_Qlt in N1, N2. lia.
Qed.

Lemma finish_double v n : finish true v = Ok n -> double n.
Proof.
  unfold finish. destruct (toFixed 4 v) as [t|e]; [|discriminate].
  cbn [bind_result]. intros [= <-]. apply round_double, to_number_double.
Qed.

Lemma parse_double v s n : parse v s true = Ok n -> double n.
Proof.
  intros H. destruct (parse_shape v s true) as [[e X]|[[x X]|X]];
    rewrite X in H; [discriminate| |]; eapply finish_double; exact H.
Qed.

Lemma is_instance_double h l c :
  is_instance h l -> instance_at h l = Some c -> double (intValue c).
Proof.
  intros I Hc. destruct (is_instance_parsed h l I) as [c' [s [v [[Hc' _] [P _]]]]].
  assert (c' = c) as -> by congruence.
  eapply parse_double. exact P.
Qed.

(** *** The quotient by the precision factor, truncated *)

Lemma Qtrunc_comp p q : p == q -> Qtrunc p = Qtrunc q.
Proof.
  unfold Qeq, Qtrunc. destruct p as [a b], q as [c d]. simpl. intros H.
  rewrite <- (Z.quot_mul_cancel_r a (Z.pos b) (Z.pos d)) by discriminate.
  rewrite H, (Z.mul_comm (Z.pos b)).
  apply Z.quot_mul_cancel_r; discriminate.
Qed.

Lemma Qtrunc_nonneg x : (0 <= x)%Q -> Qtrunc x = Qfloor x.
Proof.
  intros H. unfold Qtrunc, Qfloor. destruct x as [a b]. cbn [Qnum Qden].
  apply Z.quot_div_nonneg; [|reflexivity].
  unfold Qle in H. simpl in H. lia.
Qed.

Lemma Qtrunc_opp x : Qtrunc (- x) = - Qtrunc x.
Proof.
  unfold Qtrunc. destruct x as [a b]. cbn [Qnum Qden Qopp].
  apply Z.quot_opp_l. discriminate.
Qed.

(** An amount that the format holds keeps clear of the next multiple of
    the precision factor: the distance is more than the rounding of the
    quotient can bridge. *)
Lemma gap_of_double A p :
  0 < A -> representable (inject_Z A) -> 0 <= p <= 9 ->
  A / 10 ^ p <= 2 ^ 31 ->
  A < (10 ^ p * (A / 10 ^ p + 1) - A) * 2 ^ 53.
Proof.
  intros HA R Hp Hk.
  assert (P0 : 0 < 10 ^ p) by (apply Z.pow_pos_nonneg; lia).
  set (P := 10 ^ p) in *. set (k := A / P) in *.
  pose proof (Z.div_mod A P ltac:(lia)) as DM.
  pose proof (Z.mod_pos_bound A P P0) as MB. fold k in DM.
  set (d := P * (k + 1) - A).
  assert (D1 : 1 <= d) by (unfold d; lia).
  change (2 ^ 53) with 9007199254740992.
  destruct (Z.lt_ge_cases A 9007199254740992) as [Small|Big]; [nia|].
  destruct (representable_normalize _ ltac:(apply (Z_lt_Q 0 A); exact HA) R)
    as [m [u [Hm [Hu E]]]].
  change (2 ^ 53) with 9007199254740992 in Hm.
  assert (U1 : 1 <= u).
  { destruct (Z.le_gt_cases u 0) as [U|U]; [exfalso|lia].
    assert (T : (two_to u <= 1)%Q) by (apply (two_to_le u 0); exact U).
    pose proof (two_to_pos u) as T0.
    assert (M0 : (0 < inject_Z m)%Q) by (apply (Z_lt_Q 0 m); lia).
    assert (X : (inject_Z A <= inject_Z m)%Q) by (rewrite E; nra).
    rewrite <- Zle_Qle in X. lia. }
  assert (EA : A = m * 2 ^ u).
  { apply inject_Z_injective. rewrite E, inject_Z_mult, <- two_to_Z by lia.
    reflexivity. }
  assert (P10 : P = 5 ^ p * 2 ^ p).
  { unfold P. change 10 with (5 * 2). apply Z.pow_mul_l. }
  assert (P5 : 0 < 5 ^ p <= 5 ^ 9).
  { split; [apply Z.pow_pos_nonneg; lia | apply Z.pow_le_mono_r; lia]. }
  change (5 ^ 9) with 1953125 in P5.
  change (2 ^ 31) with 2147483648 in Hk.
  destruct (Z.le_gt_cases u p) as [Up|Up].
  - assert (S2 : 2 ^ p = 2 ^ (p - u) * 2 ^ u).
    { rewrite <- Z.pow_add_r by lia. f_equal. lia. }
    assert (Q0 : 0 < 2 ^ u) by (apply Z.pow_pos_nonneg; lia).
    assert (Dm : d = (5 ^ p * 2 ^ (p - u) * (k + 1) - m) * 2 ^ u).
    { unfold d. rewrite P10, S2, EA. ring. }
    assert (D2 : 2 ^ u <= d).
    { rewrite Dm in D1 |- *.
      set (d' := 5 ^ p * 2 ^ (p - u) * (k + 1) - m) in *.
      assert (1 <= d') by nia. nia. }
    rewrite EA. nia.
  - assert (S2 : 2 ^ u = 2 ^ (u - p) * 2 ^ p).
    { rewrite <- Z.pow_add_r by lia. f_equal. lia. }
    assert (Q0 : 0 < 2 ^ p) by (apply Z.pow_pos_nonneg; lia).
    assert (Dm : d = (5 ^ p * (k + 1) - m * 2 ^ (u - p)) * 2 ^ p).
    { unfold d. rewrite P10, EA, S2. ring. }
    assert (D2 : 2 ^ p <= d).
    { rewrite Dm in D1 |- *.
      set (d' := 5 ^ p * (k + 1) - m * 2 ^ (u - p)) in *.
      assert (1 <= d') by nia. nia. }
    assert (A1 : A < 5 ^ p * 2 ^ p * 2147483649) by (rewrite <- P10; nia).
    assert (A2 : 5 ^ p * 2 ^ p * 2147483649 <= 1953125 * 2147483649 * 2 ^ p) by nia.
    nia.
Qed.

Lemma floor_round53_div_gap A n :
  0 < A -> 1 <= n <= 2 ^ 53 -> A / n + 1 <= 2 ^ 53 ->
  A < (n * (A / n + 1) - A) * 2 ^ 53 ->
  Qfloor (round53 (inject_Z A / inject_Z n)) = A / n.
Proof.
  intros HA Hn B G.
  set (k := A / n) in *.
  pose proof (Z.div_mod A n ltac:(lia)) as DM.
  pose proof (Z.mod_pos_bound A n ltac:(lia)) as MB.
  fold k in DM.
  assert (K0 : 0 <= k) by (apply Z.div_pos; lia).
  set (q := (inject_Z A / inject_Z n)%Q).
  assert (N1 : (1 <= inject_Z n)%Q) by (apply (Z_le_Q 1 n); lia).
  assert (Eq : (q * inject_Z n == inject_Z A)%Q) by (unfold q; field; lra).
  assert (A1 : (1 <= inject_Z A)%Q) by (apply (Z_le_Q 1 A); lia).
  assert (Q0 : (0 < q)%Q) by (apply Qlt_shift_div_l; lra).
  assert (Lk : (inject_Z k <= q)%Q).
  { apply Qle_shift_div_l; [lra|]. rewrite <- inject_Z_mult. apply Z_le_Q. nia. }
  assert (Uk : (inject_Z A
                < (inject_Z (k + 1) * inject_Z n - inject_Z A)
                  * (9007199254740992 # 1))%Q).
  { apply Z_lt_Q in G. rewrite inject_Z_mult in G.
    unfold Zminus in G. rewrite inject_Z_plus, inject_Z_opp, inject_Z_mult in G.
    change (inject_Z (2 ^ 53)) with (9007199254740992 # 1)%Q in G. lra. }
  assert (Hq : (two_to (-1022) <= q)%Q).
  { assert (T : (two_to (-1022) <= two_to (-53))%Q) by (apply two_to_le; lia).
    change (two_to (-53)) with (1 # 9007199254740992)%Q in T.
    assert ((1 # 9007199254740992) <= q)%Q; [|lra].
    apply Qle_shift_div_l; [lra|].
    assert (inject_Z n <= inject_Z (2 ^ 53))%Q by (apply Z_le_Q; lia).
    change (inject_Z (2 ^ 53)) with (9007199254740992 # 1)%Q in *. lra. }
  pose proof (round53_relative q Hq) as [_ R2].
  change (two_to (-53)) with (1 # 9007199254740992)%Q in R2.
  apply Qfloor_unique. split.
  - destruct (Z.eq_dec k 0) as [->|Nk].
    + change (inject_Z 0) with 0%Q. apply round53_nonneg. lra.
    + apply round53_ge_Z; [|exact Lk]. lia.
  - set (r := round53 q) in *. set (K := inject_Z (k + 1)) in *.
    set (N := inject_Z n) in *.
    assert (H : (r * N < K * N)%Q).
    { assert (r * N <= q * N * (1 + (1 # 9007199254740992)))%Q.
      { setoid_replace (q * N * (1 + (1 # 9007199254740992)))%Q
          with (q * (1 + (1 # 9007199254740992)) * N)%Q by ring.
        apply Qmult_le_compat_r; lra. }
      lra. }
    destruct (Qlt_le_dec r K) as [D|D]; [exact D|].
    assert (K * N <= r * N)%Q by (apply Qmult_le_compat_r; lra). lra.
Qed.

Lemma to_int32_zero b : to_int32 (zero_of_sign b) = of_Z 0.
Proof. destruct b; reflexivity. Qed.

(** The quotient of a positive amount by the precision factor, as the
    format holds it, has the integer part of the exact quotient. *)
Lemma floor_div_factor A p :
  0 < A -> representable (inject_Z A) -> 0 <= p <= 9 ->
  A / 10 ^ p <= 2 ^ 31 ->
  exists r,
    ndiv (of_Z A) (of_Z (10 ^ p)) = Fin r /\ (0 < r)%Q
    /\ Qfloor r = A / 10 ^ p.
Proof.
  intros HA R Hp Hk.
  pose proof (gap_of_double A p HA R Hp Hk) as G.
  assert (P0 : 1 <= 10 ^ p <= 10 ^ 9).
  { split; [apply (Z.pow_le_mono_r 10 0 p); lia | apply Z.pow_le_mono_r; lia]. }
  set (P := 10 ^ p) in *.
  change (10 ^ 9) with 1000000000 in P0.
  change (2 ^ 31) with 2147483648 in Hk.
  pose proof (Z.div_mod A P ltac:(lia)) as DM.
  pose proof (Z.mod_pos_bound A P ltac:(lia)) as MB.
  assert (K0 : 0 <= A / P) by (apply Z.div_pos; lia).
  unfold of_Z at 1 2. rewrite ndiv_Fin.
  change (Qis_zero (inject_Z P)) with (P =? 0).
  destruct (Z.eqb_spec P 0); [lia|].
  assert (N1 : (1 <= inject_Z P)%Q) by (apply (Z_le_Q 1 P); lia).
  assert (N2 : (inject_Z P <= inject_Z 1000000000)%Q) by (apply Z_le_Q; lia).
  assert (A1 : (1 <= inject_Z A)%Q) by (apply (Z_le_Q 1 A); lia).
  assert (A2 : (inject_Z A <= inject_Z (2147483649 * 1000000000))%Q)
    by (apply Z_le_Q; nia).
  change (inject_Z 1000000000) with (1000000000 # 1)%Q in N2.
  change (inject_Z (2147483649 * 1000000000)) with (2147483649000000000 # 1)%Q in A2.
  assert (Q1 : ((1 # 1000000000) <= inject_Z A / inject_Z P)%Q)
    by (apply Qle_shift_div_l; lra).
  assert (Q2 : (inject_Z A / inject_Z P <= inject_Z A)%Q)
    by (apply Qle_shift_div_r; nra).
  destruct range_100 as [T T'].
  destruct (binary64_normal
              (xorb (Qis_neg (inject_Z A)) (Qis_neg (inject_Z P)))
              (inject_Z A / inject_Z P))
    as [r [-> [Er [R1 _]]]]; [split; lra|].
  change (two_to (-53)) with (1 # 9007199254740992)%Q in R1.
  exists r. split; [reflexivity|]. split; [lra|].
  rewrite (Qfloor_comp _ _ Er).
  apply floor_round53_div_gap; try assumption.
  - change (2 ^ 53) with 9007199254740992. lia.
  - change (2 ^ 53) with 9007199254740992. lia.
Qed.

Lemma ndiv_opp_l A P :
  A < 0 -> 0 < P ->
  ndiv (of_Z A) (of_Z P) = nneg (ndiv (of_Z (- A)) (of_Z P)).
Proof.
  intros HA HP. unfold of_Z. rewrite !ndiv_Fin.
  change (Qis_zero (inject_Z P)) with (P =? 0).
  destruct (Z.eqb_spec P 0); [lia|].
  assert (A1 : (inject_Z A <= -1)%Q) by (apply (Z_le_Q A (-1)); lia).
  assert (P1 : (1 <= inject_Z P)%Q) by (apply (Z_le_Q 1); lia).
  assert (Q1 : (inject_Z A / inject_Z P < 0)%Q)
    by (apply Qlt_shift_div_r; lra).
  assert (Eq : (inject_Z (- A) / inject_Z P == - (inject_Z A / inject_Z P))%Q)
    by (rewrite inject_Z_opp; field; lra).
  rewrite (binary64_comp _ _ _ Eq).
  rewrite binary64_neg by exact Q1.
  rewrite binary64_pos by lra.
  destruct (Qis_zero _) eqn:Z0; [reflexivity|].
  destruct (Qle_bool _ _); [reflexivity|].
  unfold nneg, fin. rewrite Qis_zero_Qred, Z0.
  unfold fin. f_equal. apply Qred_complete. now rewrite Qred_correct.
Qed.

Lemma to_int32_div A p :
  representable (inject_Z A) -> 0 <= p <= 9 ->
  - 2 ^ 31 <= Z.quot A (10 ^ p) < 2 ^ 31 ->
  to_int32 (ndiv (of_Z A) (of_Z (10 ^ p))) = of_Z (Z.quot A (10 ^ p)).
Proof.
  intros R Hp Hk.
  assert (P0 : 0 < 10 ^ p) by (apply Z.pow_pos_nonneg; lia).
  destruct (Z.lt_trichotomy A 0) as [N|[->|G]].
  - rewrite ndiv_opp_l by lia.
    assert (Hq : Z.quot A (10 ^ p) = - ((- A) / 10 ^ p)).
    { rewrite <- Z.quot_div_nonneg by lia. rewrite Z.quot_opp_l by lia. lia. }
    pose proof (representable_opp _ R) as R'. rewrite <- inject_Z_opp in R'.
    destruct (floor_div_factor (- A) p ltac:(lia) R' Hp ltac:(lia))
      as [r [-> [Hr Fr]]].
    unfold nneg. rewrite Qis_zero_false by lra.
    unfold fin. cbn [to_int32]. f_equal.
    rewrite (Qtrunc_comp _ _ (Qred_correct _)), Qtrunc_opp.
    rewrite Qtrunc_nonneg, Fr, <- Hq by lra.
    apply wrap32_small. exact Hk.
  - rewrite ndiv_zero_l by lia. rewrite to_int32_zero.
    now rewrite Z.quot_0_l by lia.
  - rewrite Z.quot_div_nonneg in * by lia.
    destruct (floor_div_factor A p G R Hp ltac:(lia)) as [r [-> [Hr Fr]]].
    cbn [to_int32]. f_equal. rewrite Qtrunc_nonneg, Fr by lra.
    apply wrap32_small. exact Hk.
Qed.

(** X15.  Major and minor units recompose the amount: at a precision from
    0 to 9, when the major units fit 32 bits, [dollars()] times 10 to the
    precision plus [cents()] is [intValue], and both carry the sign of
    the amount. *)
Theorem dollars_and_cents_recompose (h : store) (l : loc) (s : settings) (A : Z) :
  is_instance h l ->
  settings_of h l = Some s ->
  0 <= precision s <= 9 ->
  intValue_at h l = Some (of_Z A) ->
  - 2 ^ 31 <= Z.quot A (10 ^ precision s) < 2 ^ 31 ->
  exists d c,
    eval (dollars l) h = Ok (of_Z d)
    /\ eval (cents l) h = Ok (of_Z c)
    /\ d * 10 ^ precision s + c = A
    /\ 0 <= d * A /\ 0 <= c * A.
Proof.
  intros I S Hp V Hr.
  destruct (is_instance_parsed h l I) as [c [s' [x [R [_ Hv]]]]].
  assert (s' = s) as -> by (eapply settings_of_regular; eassumption).
  destruct R as [Hc [Hs HP]].
  assert (Ha : intValue c = of_Z A).
  { unfold intValue_at in V. rewrite Hc in V. now injection V. }
  pose proof (is_instance_double h l c I Hc) as Dbl.
  rewrite Ha in Dbl. cbn [double of_Z] in Dbl.
  set (P := 10 ^ precision s) in *.
  assert (P0 : 0 < P) by (apply Z.pow_pos_nonneg; lia).
  assert (P9 : P <= 10 ^ 9) by (apply Z.pow_le_mono_r; lia).
  change (10 ^ 9) with 1000000000 in P9.
  assert (Ppow : pow (precision s) = of_Z P) by (apply pow_nonneg; lia).
  pose proof (Z.quot_rem' A P) as QR.
  pose proof (Z.rem_bound_abs A P ltac:(lia)) as RB.
  exists (Z.quot A P), (Z.rem A P). split; [|split; [|split; [|split]]].
  - unfold eval, dollars, bind. rewrite (get_instance_at _ _ _ Hc).
    cbn [console_log ret fst].
    rewrite Hv, Ha, Ppow. f_equal. now apply to_int32_div.
  - unfold eval, cents, bind. rewrite (get_instance_at _ _ _ Hc).
    cbn [ret fst]. rewrite Ha, HP, Ppow, cents_of_Z by lia.
    rewrite wrap32_small; [reflexivity|].
    change (2 ^ 31) with 2147483648. lia.
  - lia.
  - destruct (Z.le_gt_cases 0 A).
    + pose proof (Z.quot_pos A P ltac:(lia) ltac:(lia)). nia.
    + pose proof (Z.quot_opp_l A P ltac:(lia)).
      pose proof (Z.quot_pos (- A) P ltac:(lia) ltac:(lia)). nia.
  - destruct (Z.le_gt_cases 0 A).
    + pose proof (Z.rem_nonneg A P ltac:(lia) ltac:(lia)). nia.
    + pose proof (Z.rem_opp_l A P ltac:(lia)).
      pose proof (Z.rem_nonneg (- A) P ltac:(lia) ltac:(lia)). nia.
Qed.

Lemma dollars_and_cents_recompose_witness :
  exists d c,
    eval (dollars 0%nat) minus_one_fifty = Ok (of_Z d)
    /\ eval (cents 0%nat) minus_one_fifty = Ok (of_Z c)
    /\ d * 10 ^ 2 + c = -150
    /\ 0 <= d * -150 /\ 0 <= c * -150.
Proof.
  apply (dollars_and_cents_recompose minus_one_fifty 0%nat default_config (-150)).
  - exact minus_one_fifty_is_instance.
  - reflexivity.
  - vm_compute. split; discriminate.
  - reflexivity.
  - split; [vm_compute; discriminate | vm_compute; reflexivity].
Defined.

(** ** [parse]: numbers within range *)

Lemma binary64_not_NaN b q : binary64 b q <> NaN.
Proof.
  unfold binary64. cbv zeta.
  destruct (Qis_zero q); [destruct b; discriminate|].
  destruct (Qis_zero _); [destruct (Qis_neg q); discriminate|].
  destruct (Qle_bool _ _); [destruct (Qis_neg q); discriminate|].
  unfold fin. discriminate.
Qed.

Lemma Qabs_pos_of_nonzero a : ~ (a == 0)%Q -> (0 < Qabs a)%Q.
Proof.
  intros N. destruct (Qlt_le_dec 0 a) as [G|G]; [now rewrite Qabs_of_pos|].
  destruct (Qle_lt_or_eq _ _ G) as [G'|G']; [|contradiction].
  rewrite Qabs_of_neg by exact G'. lra.
Qed.

(** A real of magnitude at most [k] has a Number value of magnitude at
    most [k], when [k] is an integer the format holds. *)
Lemma binary64_bounded b a k :
  1 <= k <= 2 ^ 53 -> (Qabs a <= inject_Z k)%Q ->
  (exists b', binary64 b a = zero_of_sign b')
  \/ (exists r, binary64 b a = Fin r /\ ~ (r == 0)%Q
                /\ (Qabs r <= inject_Z k)%Q).
Proof.
  intros Hk Ha. unfold binary64. cbv zeta.
  destruct (Qis_zero a) eqn:Z0; [left; eexists; reflexivity|].
  assert (N : ~ (a == 0)%Q) by (rewrite <- Qis_zero_true; congruence).
  pose proof (Qabs_pos_of_nonzero a N) as P.
  set (r0 := round53 (Qabs a)).
  destruct (Qis_zero r0) eqn:Z1; [left; eexists; reflexivity|].
  assert (N1 : ~ (r0 == 0)%Q) by (rewrite <- Qis_zero_true; congruence).
  assert (B : (r0 <= inject_Z k)%Q) by (apply round53_le_Z; assumption).
  assert (B0 : (0 <= r0)%Q) by (apply round53_nonneg; lra).
  assert (B1 : (0 < r0)%Q).
  { destruct (Qle_lt_or_eq _ _ B0) as [G|G]; [exact G|].
    exfalso. apply N1. now symmetry. }
  assert (O : Qle_bool (two_to 1024) r0 = false).
  { apply not_true_is_false. rewrite Qle_bool_iff. rewrite (two_to_Z 1024) by lia.
    assert (inject_Z k < inject_Z (2 ^ 1024))%Q; [apply Z_lt_Q|lra].
    assert (2 ^ 53 < 2 ^ 1024) by (apply Z.pow_lt_mono_r; lia). lia. }
  rewrite O. right. eexists. split; [reflexivity|].
  rewrite Qred_correct. destruct (Qis_neg a).
  - split; [intros C; lra|]. rewrite Qabs_opp, Qabs_pos by exact B0. exact B.
  - split; [exact N1|]. rewrite Qabs_pos by exact B0. exact B.
Qed.

Lemma round_whole y :
  y <> NaN -> y <> PInf -> y <> NInf -> exists z, stands_for (round y) z.
Proof.
  destruct y as [| | | |x]; try congruence; intros _ _ _.
  - exists 0. right. split; reflexivity.
  - unfold round. cbv zeta. destruct (_ && _).
    + exists 0. right. split; reflexivity.
    + eexists. left. reflexivity.
Qed.

Lemma finish_bounded r :
  ~ (r == 0)%Q -> (Qabs r <= inject_Z (2 ^ 53))%Q ->
  exists x z, finish true (Fin r) = Ok x /\ stands_for x z.
Proof.
  intros N B. unfold finish.
  change (inject_Z (2 ^ 53)) with (9007199254740992 # 1)%Q in B.
  rewrite toFixed_small; [|lia|].
  2:{ unfold ten21.
      change (inject_Z (10 ^ 21)) with (1000000000000000000000 # 1)%Q. lra. }
  cbn [bind_result]. cbv zeta.
  rewrite to_number_fixed_digits. cbv zeta.
  set (n := Qnearest (Qabs r * inject_Z (10 ^ 4))).
  pose proof (Qnearest_bounds (Qabs r * inject_Z (10 ^ 4))) as [N1 N2].
  fold n in N1, N2.
  change (inject_Z (10 ^ 4)) with (10000 # 1)%Q in N1, N2.
  pose proof (Qabs_nonneg r) as R0.
  assert (Hn : 0 <= n).
  { assert (X : (inject_Z (-1) < inject_Z n)%Q)
      by (change (inject_Z (-1)) with (-1)%Q; lra).
    rewrite <- Zlt_Qlt in X. lia. }
  assert (Hn2 : n <= 90071992547409920000).
  { assert (X : (inject_Z n < inject_Z 90071992547409920001)%Q)
      by (change (inject_Z 90071992547409920001)
            with (90071992547409920001 # 1)%Q; lra).
    rewrite <- Zlt_Qlt in X. lia. }
  rewrite Z2N.id by exact Hn.
  change (inject_Z (10 ^ Z.of_nat (Z.to_nat 4))) with (10000 # 1)%Q.
  set (w := (inject_Z n / (10000 # 1))%Q).
  assert (W0 : (0 <= w)%Q).
  { unfold w. apply Qle_shift_div_l; [reflexivity|].
    assert (X : (inject_Z 0 <= inject_Z n)%Q) by (apply Z_le_Q; exact Hn).
    change (inject_Z 0) with 0%Q in X. lra. }
  assert (W1 : (w <= inject_Z (2 ^ 53))%Q).
  { unfold w. apply Qle_shift_div_r; [reflexivity|].
    assert (X : (inject_Z n <= inject_Z 90071992547409920000)%Q)
      by (apply Z_le_Q; exact Hn2).
    change (inject_Z 90071992547409920000) with (90071992547409920000 # 1)%Q in X.
    change (inject_Z (2 ^ 53)) with (9007199254740992 # 1)%Q. lra. }
  assert (W : (Qabs (if Qis_neg r then - w else w) <= inject_Z (2 ^ 53))%Q).
  { destruct (Qis_neg r); rewrite ?Qabs_opp, Qabs_pos by exact W0; exact W1. }
  destruct (binary64_bounded (Qis_neg r) (if Qis_neg r then - w else w) (2 ^ 53))
    as [[b' E]|[r' [E _]]]; [lia | exact W | |]; rewrite E.
  - exists (zero_of_sign b'), 0. split; [now destruct b'|].
    destruct b'; [right; now split | now left].
  - destruct (round_whole (Fin r')) as [z Hz]; try discriminate.
    eexists. exists z. split; [reflexivity | exact Hz].
Qed.

(** X1.  At a precision from 0 to 22, [parse] with rounding turns a
    finite number whose magnitude, scaled by the precision factor, is at
    most 2^53 into an integer, which can be the negative zero: the
    result is not a fraction, [NaN], an infinity or an error. *)
Theorem parse_number_whole (q : Q) (s : settings) :
  0 <= precision s <= 22 ->
  (Qabs q * inject_Z (10 ^ precision s) <= inject_Z (2 ^ 53))%Q ->
  exists x z, parse (VNum (Fin q)) s true = Ok x /\ stands_for x z.
Proof.
  intros Hp B. rewrite parse_number, pow_nonneg by exact Hp.
  pose proof (pow_10_bounds _ Hp) as BP.
  unfold of_Z. rewrite nmul_Fin.
  destruct (binary64_bounded
              (xorb (Qis_neg q) (Qis_neg (inject_Z (10 ^ precision s))))
              (q * inject_Z (10 ^ precision s)) (2 ^ 53))
    as [[b' E]|[r [E [N R]]]].
  - change (2 ^ 53) with 9007199254740992. lia.
  - rewrite Qabs_Qmult.
    change (Qabs (inject_Z (10 ^ precision s)))
      with (inject_Z (Z.abs (10 ^ precision s))).
    rewrite Z.abs_eq by lia. exact B.
  - rewrite E. exists (of_Z 0), 0. split; [|now left].
    destruct b'; [exact finish_negative_zero | exact finish_zero].
  - rewrite E. now apply finish_bounded.
Qed.

Lemma parse_number_whole_witness :
  exists x z, parse (VNum (Fin (1999 # 1000))) defaults true = Ok x /\ stands_for x z.
Proof.
  apply (parse_number_whole (1999 # 1000) defaults).
  - vm_compute. split; discriminate.
  - vm_compute. discriminate.
Defined.

(** X18.  The amount behind [value] comes back: at a precision from 0 to
    22, [parse] turns the number nearest to [z / 10^precision] into the
    integer [z] of at most 50 bits. *)
Theorem parse_recovers_amount (s : settings) (z : Z) :
  0 <= precision s <= 22 -> Z.abs z <= 2 ^ 50 ->
  parse (VNum (ndiv (of_Z z) (pow (precision s)))) s true = Ok (of_Z z).
Proof. exact (parse_amount s z). Qed.

Lemma parse_recovers_amount_witness :
  parse (VNum (ndiv (of_Z 1999) (pow 2))) defaults true = Ok (of_Z 1999).
Proof.
  apply (parse_recovers_amount defaults 1999).
  - vm_compute. split; discriminate.
  - vm_compute. discriminate.
Defined.

(** ** [parse]: strings *)

Lemma split_lead_shape d :
  d <> Nil -> exists lead rest, split_lead d = (lead, rest) /\ lead <> Nil.
Proof.
  destruct d; [congruence| do 2 eexists; split; [reflexivity|discriminate] ..].
Qed.

(** What Number::toString prints from 10^21 on: digits, a fraction or
    none, and an exponent. *)
Lemma Number_toString_shape x :
  exists lead rest E,
    lead <> Nil /\ E <> Nil
    /\ Number_toString x
       = digits_string lead
         ++ match rest with Nil => EmptyString | _ => "." ++ digits_string rest end
         ++ "e+" ++ digits_string E.
Proof.
  unfold Number_toString. cbv zeta.
  destruct (shortest_from _ _ _ _) as [s e].
  destruct (strip_zeros _ _) as [m z].
  destruct (split_lead_shape (N.to_uint m) (to_uint_not_Nil m))
    as [lead [rest [-> H]]].
  do 3 eexists. split; [exact H|]. split; [apply to_uint_not_Nil|reflexivity].
Qed.

Lemma read_exponent_plus E :
  E <> Nil ->
  read_exponent ("e+" ++ digits_string E) = Some (Z.of_N (N.of_uint E)).
Proof.
  intros H. unfold read_exponent.
  change ("e+" ++ digits_string E) with (String "e" (String "+" (digits_string E))).
  cbn [Ascii.eqb Bool.eqb orb read_sign]. rewrite read_digits_string_end.
  destruct E; [congruence| reflexivity ..].
Qed.

Lemma unsigned_literal_exponent neg ip fp E :
  ip <> Nil -> E <> Nil ->
  unsigned_literal neg
    (digits_string ip
     ++ match fp with Nil => EmptyString | _ => "." ++ digits_string fp end
     ++ "e+" ++ digits_string E)
  = literal_value neg ip fp (Z.of_N (N.of_uint E)).
Proof.
  intros Hi He. unfold unsigned_literal.
  rewrite digits_not_Infinity by assumption.
  destruct (Decimal.uint_eq_dec fp Nil) as [->|G].
  - cbn [append]. rewrite read_digits_string by reflexivity.
    cbv beta iota. change (Ascii.eqb "e" ".") with false. cbv beta iota.
    change (String "e" (String "+" (digits_string E)))
      with ("e+" ++ digits_string E).
    rewrite read_exponent_plus by exact He.
    destruct ip; [congruence| reflexivity ..].
  - replace (match fp with Nil => EmptyString | _ => "." ++ digits_string fp end)
      with ("." ++ digits_string fp) by (destruct fp; congruence).
    rewrite read_digits_string by reflexivity.
    cbn [append]. cbv beta iota. change (Ascii.eqb "." ".") with true.
    cbv beta iota.
    rewrite read_digits_string by reflexivity. cbv beta iota.
    change (String "e" (String "+" (digits_string E)))
      with ("e+" ++ digits_string E).
    rewrite read_exponent_plus by exact He.
    destruct ip; [congruence| reflexivity ..].
Qed.

Lemma digit_literal c : is_digit c = true -> literal_char c = true.
Proof. intros H. apply numeric_literal, digit_numeric, H. Qed.

Lemma to_number_exponent_text (neg : bool) x :
  to_number (if neg then "-" ++ Number_toString x else Number_toString x) <> NaN.
Proof.
  destruct (Number_toString_shape x) as [lead [rest [E [Hl [He ->]]]]].
  set (t := digits_string lead
            ++ match rest with Nil => EmptyString | _ => "." ++ digits_string rest end
            ++ "e+" ++ digits_string E).
  assert (L : all_chars literal_char t = true).
  { unfold t. apply all_chars_app.
    - eapply all_chars_weaken; [apply digit_literal | apply all_chars_digits].
    - apply all_chars_app.
      + destruct rest; [reflexivity| ..];
          (apply (all_chars_app literal_char "."); [reflexivity|];
           eapply all_chars_weaken; [apply digit_literal | apply all_chars_digits]).
      + apply (all_chars_app literal_char "e+"); [reflexivity|].
        eapply all_chars_weaken; [apply digit_literal | apply all_chars_digits]. }
  assert (S : read_sign t = (false, t)).
  { unfold t. destruct lead; [congruence| reflexivity ..]. }
  assert (V : unsigned_literal neg t <> NaN).
  { unfold t. rewrite unsigned_literal_exponent by assumption.
    apply binary64_not_NaN. }
  destruct neg.
  - rewrite to_number_literal by (cbn [append all_chars]; rewrite L; reflexivity).
    exact V.
  - rewrite to_number_literal by exact L.
    assert (T : exists c r, t = String c r).
    { unfold t. destruct lead; [congruence| do 2 eexists; reflexivity ..]. }
    destruct T as [c [r' T]]. rewrite T, <- T, S. exact V.
Qed.

Lemma round_not_NaN y : y <> NaN -> round y <> NaN.
Proof.
  destruct y as [| | | |x]; try (intros _; discriminate); [congruence|].
  intros _. unfold round. cbv zeta. destruct (_ && _); discriminate.
Qed.

Lemma finish_not_NaN r v :
  v <> NaN -> exists y, finish r v = Ok y /\ y <> NaN.
Proof.
  intros H. unfold finish.
  assert (T : exists t, toFixed 4 v = Ok t /\ to_number t <> NaN).
  { unfold toFixed. cbn [Z.ltb Z.compare orb].
    destruct v as [| | | |q]; [congruence| | | |].
    - eexists. split; [reflexivity|]. vm_compute. discriminate.
    - eexists. split; [reflexivity|]. vm_compute. discriminate.
    - eexists. split; [reflexivity|]. vm_compute. discriminate.
    - eexists. split; [reflexivity|]. cbv zeta.
      destruct (Qle_bool ten21 (Qabs q)).
      + apply to_number_exponent_text.
      + rewrite to_number_fixed_digits. apply binary64_not_NaN. }
  destruct T as [t [-> Ht]]. cbn [bind_result].
  eexists. split; [reflexivity|].
  destruct r; [now apply round_not_NaN | exact Ht].
Qed.

(** X2.  A string never gives [NaN]: [parse] throws on a string only
    when the decimal mark is a backslash, which the pattern built from
    it cannot hold (a SyntaxError), and otherwise returns a number that
    is not [NaN], whatever the string holds. *)
Theorem parse_string_never_NaN (t : string) (s : settings) (r : bool) :
  (decimal s = "092"%char -> parse (VStr t) s r = Throw SyntaxError)
  /\ (decimal s <> "092"%char ->
      exists v, parse (VStr t) s r = Ok v /\ v <> NaN).
Proof.
  rewrite parse_string. unfold RegExp_non_numeric, RegExp_decimal.
  destruct (Ascii.eqb_spec (decimal s) "092") as [E|E].
  - split; [reflexivity | contradiction].
  - split; [contradiction|]. intros _.
    destruct (Ascii.eqb (decimal s) "]"); cbn [bind_result]; cbv zeta;
      apply finish_not_NaN;
      match goal with
      | |- (if truthy ?v then _ else _) <> NaN =>
          destruct v; cbn [truthy]; try discriminate;
          destruct (negb _); discriminate
      end.
Qed.

Lemma parse_string_never_NaN_witness :
  exists v, parse (VStr "12.5 kg") defaults true = Ok v /\ v <> NaN.
Proof.
  apply (parse_string_never_NaN "12.5 kg" defaults true).
  vm_compute. discriminate.
Defined.

(** *** A string without digits *)

Lemma last_close_chars p r inner after :
  last_close r = Some (inner, after) ->
  all_chars p r = true ->
  all_chars p inner = true /\ all_chars p after = true.
Proof.
  revert inner after. induction r as [|c r IH]; intros inner after; [discriminate|].
  cbn [last_close all_chars]. intros H Hp.
  apply andb_true_iff in Hp. destruct Hp as [Hc Hr].
  destruct (is_line_terminator c); [discriminate|].
  destruct (last_close r) as [[i a]|].
  - injection H as <- <-. destruct (IH i a eq_refl Hr) as [Hi Ha].
    split; [cbn [all_chars]; now rewrite Hc, Hi | exact Ha].
  - destruct (Ascii.eqb c ")"); [|discriminate].
    injection H as <- <-. split; [reflexivity | exact Hr].
Qed.

Lemma replace_parens_no_digit t :
  all_chars no_digit t = true -> all_chars no_digit (replace_parens t) = true.
Proof.
  induction t as [|c t IH]; [reflexivity|]. cbn [all_chars replace_parens].
  intros H. apply andb_true_iff in H. destruct H as [Hc Ht].
  destruct (Ascii.eqb c "(").
  - destruct (last_close t) as [[inner after]|] eqn:L.
    + destruct (last_close_chars no_digit t inner after L Ht) as [Hi Ha].
      apply (all_chars_app no_digit "-"); [reflexivity|].
      now apply all_chars_app.
    + cbn [all_chars]. now rewrite Hc, IH.
  - cbn [all_chars]. now rewrite Hc, IH.
Qed.

Lemma remove_all_no_digit t :
  all_chars no_digit t = true ->
  all_chars sign_or_point
    (remove_all (fun c => negb (minus_or_digit c || Ascii.eqb c ".")) t) = true.
Proof.
  induction t as [|c t IH]; [reflexivity|]. cbn [all_chars remove_all].
  intros H. apply andb_true_iff in H. destruct H as [Hc Ht].
  unfold no_digit in Hc. apply negb_true_iff in Hc.
  assert (K : negb (minus_or_digit c || Ascii.eqb c ".") = negb (sign_or_point c)).
  { unfold minus_or_digit, sign_or_point. now rewrite Hc, orb_false_r. }
  rewrite K.
  destruct (sign_or_point c) eqn:S; cbn [negb]; [|now apply IH].
  cbn [all_chars]. now rewrite S, IH.
Qed.

Lemma sign_or_point_numeric c : sign_or_point c = true -> numeric_char c = true.
Proof.
  unfold sign_or_point, numeric_char.
  destruct (Ascii.eqb c "-"), (Ascii.eqb c "."), (is_digit c);
    cbn; congruence.
Qed.

Lemma sign_or_point_no_digit c : sign_or_point c = true -> is_digit c = false.
Proof.
  unfold sign_or_point.
  destruct (Ascii.eqb_spec c "-") as [->|]; [reflexivity|].
  destruct (Ascii.eqb_spec c ".") as [->|]; [reflexivity|discriminate].
Qed.

Lemma read_digits_none c r : is_digit c = false -> read_digits (String c r) = (Nil, String c r).
Proof.
  unfold is_digit. destruct c as [[] [] [] [] [] [] [] []]; cbn; intros H;
    try reflexivity; discriminate.
Qed.

Lemma read_digits_no_digit s :
  all_chars sign_or_point s = true -> read_digits s = (Nil, s).
Proof.
  destruct s as [|c r]; [reflexivity|]. cbn [all_chars]. intros H.
  apply andb_true_iff in H. destruct H as [Hc _].
  apply read_digits_none, sign_or_point_no_digit, Hc.
Qed.

Lemma unsigned_literal_no_digit neg s :
  all_chars sign_or_point s = true -> unsigned_literal neg s = NaN.
Proof.
  intros H. unfold unsigned_literal.
  assert (I : String.eqb s "Infinity" = false).
  { destruct s as [|c r]; [reflexivity|]. cbn [all_chars] in H.
    apply andb_true_iff in H. destruct H as [Hc _].
    cbn [String.eqb]. destruct (Ascii.eqb_spec c "I") as [->|]; [discriminate|].
    reflexivity. }
  rewrite I, (read_digits_no_digit s H).
  destruct s as [|c r]; [reflexivity|]. cbn [all_chars] in H.
  apply andb_true_iff in H. destruct H as [_ Hr].
  destruct (Ascii.eqb c "."); [|reflexivity].
  now rewrite (read_digits_no_digit r Hr).
Qed.

Lemma to_number_no_digit s :
  all_chars sign_or_point s = true -> to_number s = of_Z 0 \/ to_number s = NaN.
Proof.
  intros H. rewrite to_number_numeric
    by (eapply all_chars_weaken; [apply sign_or_point_numeric | exact H]).
  destruct s as [|c r]; [now left|]. right.
  cbn [all_chars] in H. pose proof H as H'.
  apply andb_true_iff in H'. destruct H' as [Hc Hr].
  unfold read_sign.
  destruct (Ascii.eqb c "-"); [now apply unsigned_literal_no_digit|].
  destruct (Ascii.eqb c "+"); [now apply unsigned_literal_no_digit|].
  apply unsigned_literal_no_digit. cbn [all_chars]. exact H.
Qed.

Lemma nmul_zero_l_falsy p : truthy (nmul (of_Z 0) (pow p)) = false.
Proof.
  destruct (pow_cases p) as [E|[E|[r [E Hr]]]]; rewrite E.
  - vm_compute. reflexivity.
  - vm_compute. reflexivity.
  - unfold of_Z. rewrite nmul_Fin, binary64_zero by ring.
    destruct (xorb _ _); reflexivity.
Qed.

(** X19.  A string without digits is worth zero: under the default
    decimal mark, [parse] returns 0 for every string that holds no
    digit, whatever else it holds and whatever the precision. *)
Theorem parse_without_digits (t : string) (s : settings) (r : bool) :
  decimal s = "."%char ->
  all_chars no_digit t = true ->
  parse (VStr t) s r = Ok (of_Z 0).
Proof.
  intros D H. rewrite parse_string, D.
  change (RegExp_non_numeric ".")
    with (@Ok (string -> string)
            (remove_all (fun c => negb (minus_or_digit c || Ascii.eqb c ".")))).
  change (RegExp_decimal ".")
    with (@Ok (string -> string) (replace_class (Ascii.eqb ".") ".")).
  cbn [bind_result]. cbv zeta. rewrite replace_class_same.
  pose proof (remove_all_no_digit _ (replace_parens_no_digit t H)) as U.
  assert (F : finish r (of_Z 0) = Ok (of_Z 0))
    by (destruct r; vm_compute; reflexivity).
  destruct (to_number_no_digit _ U) as [-> | ->].
  - now rewrite nmul_zero_l_falsy.
  - rewrite nmul_NaN_l. exact F.
Qed.

Lemma parse_without_digits_witness :
  parse (VStr "N/A (pending)") defaults true = Ok (of_Z 0).
Proof.
  apply (parse_without_digits "N/A (pending)" defaults true); reflexivity.
Defined.

(** ** Sample evaluations at the limits of the format *)

Example decimal_mark_samples :
  parse (VStr "Infinity") (Object_assign defaults (with_decimal "]")) true = Ok PInf
  /\ parse (VStr "a5") (Object_assign defaults (with_decimal "]")) true = Ok (of_Z 0)
  /\ parse (VStr "5") (Object_assign defaults (with_decimal "]")) true = Ok (of_Z 500)
  /\ parse (VStr "1a]2") (Object_assign defaults (with_decimal "]")) true
     = Ok (of_Z 1200)
  /\ parse (VStr "1]5") (Object_assign defaults (with_decimal "]")) true
     = Ok (of_Z 150)
  /\ parse (VStr "12d5") (Object_assign defaults (with_decimal "d")) true
     = Ok (of_Z 0)
  /\ parse (VStr "12b5") (Object_assign defaults (with_decimal "b")) true
     = Ok (of_Z 0)
  /\ parse (VStr "1,5") (Object_assign defaults (with_decimal ",")) true
     = Ok (of_Z 150)
  /\ parse (VStr "1.5") (Object_assign defaults (with_decimal "092")) true
     = Throw SyntaxError.
Proof. vm_compute. repeat split. Qed.

Example large_amount_samples :
  eval (c <- new_Currency (VNum (of_Z 5)) no_options ;;
        d <- add c (VNum (of_Z (10 ^ 20))) ;;
        e <- subtract d (VNum (of_Z (10 ^ 20))) ;; toJSON e) empty_store
  = Ok (of_Z 0)
  /\ eval (c <- new_Currency (VNum (to_number "0.01")) no_options ;;
           d <- multiply c (of_Z 4503599627370495) ;;
           c' <- get_instance d ;; ret (intValue c')) empty_store
     = Ok (of_Z (2 ^ 52))
  /\ parse (VStr "45035996273704.945") defaults true = Ok (of_Z (2 ^ 52 - 1))
  /\ eval (c <- new_Currency (VStr "45035996273704.945") no_options ;;
           d <- divide c (VNum (of_Z 1)) ;;
           c' <- get_instance d ;; ret (intValue c')) empty_store
     = Ok (of_Z (2 ^ 52))
  /\ eval (c <- new_Currency (VNum (to_number "999999999999999916113.92")) no_options ;;
           toString c) empty_store
     = Ok "1e+21".
Proof. vm_compute. repeat split. Qed.
